(** * ozzy-post-core: CSV column mapping, text classification and import

    A shallow embedding of the import core of the repository:
    - [src/lib/analytics.ts], first part: [recomputeAnalytics];
    - [src/lib/analytics.ts], second part (the CSVImporter component):
      [norm], [toNumber], [suggestedHeaderForField], [emptyMapping],
      [mapCsvRow], [mappingCompleteness], [handleFile];
    - [src/app/import/actions.ts]: [saveImportedPosts].

    Conventions of the model.
    - A JavaScript string is a [string]; one [ascii] is one UTF-16 code
      unit below 256 (the Latin-1 range).  The built-ins [trim],
      [toLowerCase], [includes], [split] and the three regular expressions
      of the source are written out for that range.
    - A JavaScript object used as a record of cells ([CsvRow]) is an
      association list of its own cells in property order; a lookup also
      finds what a plain object inherits from [Object.prototype].
    - A finite number is the rational that the binary64 value is equal
      to; numeric literals are rounded to the nearest binary64 value.
    - The datastore reached through [prisma] is an explicit [World] that is
      threaded through a state-and-exception monad; a datastore call may
      throw, which is decided by the fault plan carried by the world. *)

From Stdlib Require Import ZArith QArith Qabs Qcanon Qround Lia List String Ascii
  Bool Permutation.
From stdpp Require Import base list strings gmap pretty.

Local Open Scope string_scope.
Local Open Scope bool_scope.
Local Open Scope list_scope.

(** ** JavaScript string built-ins *)

Module Js.

Definition code (c : ascii) : nat := nat_of_ascii c.

Definition between (lo hi : nat) (c : ascii) : bool :=
  Nat.leb lo (code c) && Nat.leb (code c) hi.

(** [\s] of a regular expression, which is also the set removed by
    [String.prototype.trim]: TAB, LF, VT, FF, CR, SP and NBSP. *)
Definition isSpace (c : ascii) : bool :=
  between 9 13 c || Nat.eqb (code c) 32 || Nat.eqb (code c) 160.

(** [\w] is [A-Za-z0-9_]. *)
Definition isWord (c : ascii) : bool :=
  between 65 90 c || between 97 122 c || between 48 57 c
  || Nat.eqb (code c) 95.

Definition isDigit (c : ascii) : bool := between 48 57 c.

Definition isUpper (c : ascii) : bool :=
  between 65 90 c || (between 192 222 c && negb (Nat.eqb (code c) 215)).

Definition lowerChar (c : ascii) : ascii :=
  if isUpper c then ascii_of_nat (code c + 32) else c.

Fixpoint toLowerCase (s : string) : string :=
  match s with
  | EmptyString => EmptyString
  | String c t => String (lowerChar c) (toLowerCase t)
  end.

Fixpoint trimStart (s : string) : string :=
  match s with
  | EmptyString => EmptyString
  | String c t => if isSpace c then trimStart t else s
  end.

(** [trimEnd] keeps a character when it is not white space or when
    something survives after it. *)
Fixpoint trimEnd (s : string) : string :=
  match s with
  | EmptyString => EmptyString
  | String c t =>
      match trimEnd t with
      | EmptyString => if isSpace c then EmptyString else String c EmptyString
      | t' => String c t'
      end
  end.

Definition trim (s : string) : string := trimEnd (trimStart s).

(** [hay.includes(needle)] *)
Fixpoint includes (needle hay : string) : bool :=
  String.prefix needle hay ||
  match hay with
  | EmptyString => false
  | String _ t => includes needle t
  end.

(** [s.replace(/[cls]+/g, " ")]: every maximal run of characters of the
    class becomes one space. *)
Fixpoint replaceRuns (cls : ascii -> bool) (s : string) : string :=
  match s with
  | EmptyString => EmptyString
  | String c t =>
      if cls c then
        match t with
        | String d _ =>
            if cls d then replaceRuns cls t
            else String " " (replaceRuns cls t)
        | EmptyString => String " " EmptyString
        end
      else String c (replaceRuns cls t)
  end.

(** [s.replace(/[^keep]/g, "")] *)
Fixpoint keepOnly (keep : ascii -> bool) (s : string) : string :=
  match s with
  | EmptyString => EmptyString
  | String c t =>
      if keep c then String c (keepOnly keep t) else keepOnly keep t
  end.

(** [(s.match(/c/g) || []).length] for a one-character pattern. *)
Fixpoint countChar (c : ascii) (s : string) : nat :=
  match s with
  | EmptyString => 0
  | String d t => (if Ascii.eqb c d then 1 else 0) + countChar c t
  end.

(** [s.split(/\s+/)]: the pieces between the maximal runs of white
    space; [cur] is the piece being read. *)
Fixpoint splitAux (cur : string) (inRun : bool) (s : string) : list string :=
  match s with
  | EmptyString => [cur]
  | String c t =>
      if isSpace c then
        if inRun then splitAux cur true t
        else cur :: splitAux EmptyString true t
      else splitAux (cur +:+ String c EmptyString) false t
  end.

Definition splitSpaces (s : string) : list string :=
  splitAux EmptyString false s.

(** Truthiness of a string: non-empty. *)
Definition truthy (s : string) : bool :=
  match s with EmptyString => false | _ => true end.

End Js.

(** ** Header Normalizer: [norm] *)

Definition isUnderscoreOrHyphen (c : ascii) : bool :=
  Ascii.eqb c "_" || Ascii.eqb c "-".

Definition isWordSpaceOrPercent (c : ascii) : bool :=
  Js.isWord c || Js.isSpace c || Ascii.eqb c "%".

Definition norm (s : string) : string :=
  Js.keepOnly isWordSpaceOrPercent
    (Js.replaceRuns isUnderscoreOrHyphen
       (Js.replaceRuns Js.isSpace
          (Js.toLowerCase (Js.trim s)))).


(** ** Text Feature/Classifier

    In the source these are the local constants computed for each accepted
    row inside [saveImportedPosts] (actions.ts, lines 87-103). *)

Definition charCount (text : string) : nat := String.length text.

Definition wordCount (text : string) : nat := length (Js.splitSpaces text).

Definition hasLink (text : string) : bool := Js.includes "http" text.

Definition hashtagCount (text : string) : nat := Js.countChar "#" text.

Definition mentionCount (text : string) : nat := Js.countChar "@" text.

Definition formatTag (text : string) : string :=
  let formatTag := "standard" in
  let lowerText := Js.toLowerCase text in
  let formatTag :=
    if Js.includes "vs" lowerText || Js.includes "compared to" lowerText
    then "comparison" else formatTag in
  let formatTag :=
    if Js.includes "milestone" lowerText || Js.includes "followers" lowerText
    then "milestone" else formatTag in
  let formatTag :=
    if Js.includes "?" text then "question" else formatTag in
  let formatTag :=
    if Js.includes "1." lowerText || Js.includes "- " lowerText
    then "list" else formatTag in
  let formatTag :=
    if Js.includes "how to" lowerText || Js.includes "tip:" lowerText
    then "tip" else formatTag in
  let formatTag :=
    if Js.includes "thread" lowerText then "story" else formatTag in
  let formatTag :=
    if Js.includes "click" lowerText || Js.includes "link in" lowerText
    then "cta" else formatTag in
  formatTag.

(** The chain as the specification words it: an ordered list of
    (predicate, tag) pairs; the tag of the last pair that matches is
    retained, and "standard" when none matches. *)

Record Rule := { matches : string -> bool; tag : string }.

Definition classifierRules : list Rule :=
  [ {| matches := fun text =>
         Js.includes "vs" (Js.toLowerCase text)
         || Js.includes "compared to" (Js.toLowerCase text);
       tag := "comparison" |};
    {| matches := fun text =>
         Js.includes "milestone" (Js.toLowerCase text)
         || Js.includes "followers" (Js.toLowerCase text);
       tag := "milestone" |};
    {| matches := fun text => Js.includes "?" text;
       tag := "question" |};
    {| matches := fun text =>
         Js.includes "1." (Js.toLowerCase text)
         || Js.includes "- " (Js.toLowerCase text);
       tag := "list" |};
    {| matches := fun text =>
         Js.includes "how to" (Js.toLowerCase text)
         || Js.includes "tip:" (Js.toLowerCase text);
       tag := "tip" |};
    {| matches := fun text => Js.includes "thread" (Js.toLowerCase text);
       tag := "story" |};
    {| matches := fun text =>
         Js.includes "click" (Js.toLowerCase text)
         || Js.includes "link in" (Js.toLowerCase text);
       tag := "cta" |} ].

Definition overrideChain (rules : list Rule) (init text : string) : string :=
  fold_left (fun current r => if matches r text then tag r else current)
            rules init.

Definition lastMatch (rules : list Rule) (init text : string) : string :=
  match last (List.filter (fun r => matches r text) rules) with
  | Some r => tag r
  | None => init
  end.

(** ** Numbers

    A JavaScript number is [NaN], an infinity, or a finite binary64
    value.  A finite value is represented by the rational it is equal to,
    in lowest terms; the sign of zero is not kept. *)

Inductive number : Type :=
| NaN
| Infinity (negative : bool)
| Finite (q : Q).

Module JsNumber.

Definition digitValue (c : ascii) : Z := Z.of_nat (Js.code c - 48).

Definition hexValue (c : ascii) : option Z :=
  if Js.between 48 57 c then Some (Z.of_nat (Js.code c - 48))
  else if Js.between 97 102 c then Some (Z.of_nat (Js.code c - 87))
  else if Js.between 65 70 c then Some (Z.of_nat (Js.code c - 55))
  else None.

(** The longest prefix of decimal digits, and what follows it. *)
Fixpoint spanDigits (s : string) : string * string :=
  match s with
  | EmptyString => (EmptyString, EmptyString)
  | String c t =>
      if Js.isDigit c
      then let '(d, r) := spanDigits t in (String c d, r)
      else (EmptyString, s)
  end.

Fixpoint digitsValue (acc : Z) (s : string) : Z :=
  match s with
  | EmptyString => acc
  | String c t => digitsValue (10 * acc + digitValue c)%Z t
  end.

(** All characters are digits of the radix; [None] otherwise. *)
Fixpoint radixValue (radix : Z) (acc : Z) (s : string) : option Z :=
  match s with
  | EmptyString => Some acc
  | String c t =>
      match hexValue c with
      | Some d =>
          if (d <? radix)%Z then radixValue radix (radix * acc + d)%Z t
          else None
      | None => None
      end
  end.

(** [2^e] for an integer [e]. *)
Definition pow2 (e : Z) : Q :=
  if (0 <=? e)%Z then inject_Z (2 ^ e) else 1 # Z.to_pos (2 ^ (- e)).

(** The binary exponent of a positive rational: the [e] with
    [2^e <= q < 2^(e+1)]. *)
Definition exponentOf (q : Q) : Z :=
  let e := (Z.log2 (Qnum q) - Z.log2 (Zpos (Qden q)))%Z in
  if Qle_bool (pow2 e) q then e else (e - 1)%Z.

(** The integer nearest to a rational that is not negative; of two
    integers equally near, the even one. *)
Definition roundTiesToEven (q : Q) : Z :=
  let f := Qfloor q in
  match Qcompare (q - inject_Z f) (1 # 2) with
  | Lt => f
  | Gt => (f + 1)%Z
  | Eq => if Z.even f then f else (f + 1)%Z
  end.

(** The binary64 value nearest to a rational that is not negative, ties to
    even: 53 significant bits, steps of [2^-1074] below [2^-1022]; the
    exponent is not bounded above here. *)
Definition nearest (q : Q) : Q :=
  let e := Z.max (exponentOf q) (-1022) in
  let ulp := pow2 (e - 52) in
  Qred (inject_Z (roundTiesToEven (q / ulp)) * ulp).

(** [2^1024 - 2^970]: values of at least this magnitude round to an
    infinity. *)
Definition overflowBound : Z := (2 ^ 1024 - 2 ^ 970)%Z.

(** The Number value for a mathematical value: the nearest binary64
    value, or an infinity. *)
Definition roundMV (q : Q) : number :=
  if Qle_bool (inject_Z overflowBound) (Qabs q)
  then Infinity (negb (Qle_bool 0 q))
  else if Qle_bool 0 q then Finite (nearest q)
       else Finite (Qred (- nearest (Qabs q))).

(** [m * 10^e] *)
Definition scale10 (m e : Z) : Q :=
  if (0 <=? e)%Z then inject_Z (m * 10 ^ e)
  else Qmake m (Z.to_pos (10 ^ (- e))).

(** ExponentPart_opt at the end of a literal: the decimal exponent. *)
Definition exponentPart (s : string) : option Z :=
  match s with
  | EmptyString => Some 0%Z
  | String c t =>
      if Ascii.eqb c "e" || Ascii.eqb c "E" then
        let '(neg, u) :=
          match t with
          | String "-" u => (true, u)
          | String "+" u => (false, u)
          | _ => (false, t)
          end in
        match spanDigits u with
        | (String d ds, EmptyString) =>
            let v := digitsValue 0 (String d ds) in
            Some (if neg then (- v)%Z else v)
        | _ => None
        end
      else None
  end.

(** StrUnsignedDecimalLiteral, without the [Infinity] alternative. *)
Definition unsignedDecimal (s : string) : option Q :=
  let '(ip, r1) := spanDigits s in
  let '(fp, r2) :=
    match r1 with
    | String "." t => spanDigits t
    | _ => (EmptyString, r1)
    end in
  if Js.truthy ip || Js.truthy fp then
    match exponentPart r2 with
    | Some e =>
        Some (scale10 (digitsValue 0 (ip +:+ fp))
                      (e - Z.of_nat (String.length fp)))
    | None => None
    end
  else None.

Definition signedDecimal (s : string) : number :=
  let '(neg, u) :=
    match s with
    | String "-" u => (true, u)
    | String "+" u => (false, u)
    | _ => (false, s)
    end in
  if String.eqb u "Infinity" then Infinity neg
  else match unsignedDecimal u with
       | Some q => roundMV (if neg then Qopp q else q)
       | None => NaN
       end.

(** NonDecimalIntegerLiteral: [0x], [0o], [0b] and their digits. *)
Definition nonDecimal (s : string) : option Z :=
  match s with
  | String "0" (String p (String d ds)) =>
      if Ascii.eqb p "x" || Ascii.eqb p "X" then radixValue 16 0 (String d ds)
      else if Ascii.eqb p "o" || Ascii.eqb p "O" then radixValue 8 0 (String d ds)
      else if Ascii.eqb p "b" || Ascii.eqb p "B" then radixValue 2 0 (String d ds)
      else None
  | _ => None
  end.

(** [Number(s)] for a string argument. *)
Definition Number (s : string) : number :=
  let t := Js.trim s in
  if negb (Js.truthy t) then Finite 0
  else match nonDecimal t with
       | Some v => roundMV (inject_Z v)
       | None => signedDecimal t
       end.

Definition isFinite (n : number) : bool :=
  match n with Finite _ => true | _ => false end.

End JsNumber.

(** [s.replace(/c/g, "")] for a one-character pattern. *)
Definition removeChar (c : ascii) (s : string) : string :=
  Js.keepOnly (fun d => negb (Ascii.eqb c d)) s.

Definition toNumber (raw : option string) : option number :=
  match raw with
  | None => None
  | Some raw =>
      let s := Js.trim raw in
      if negb (Js.truthy s) then None
      else
        let cleaned := removeChar "%" (removeChar "," s) in
        let n := JsNumber.Number cleaned in
        if JsNumber.isFinite n then Some n else None
  end.

(** ** Field keys, mappings and rows *)

Module Key.
Inductive t : Type :=
| postId | text | createdAt | likes | reposts | replies | quotes
| impressions | engagementRate | clicks.
End Key.

Definition ImportFieldKey : Type := Key.t.

Module ImportMapping.
Record t : Type := mk {
  postId : string;
  text : string;
  createdAt : string;
  likes : string;
  reposts : string;
  replies : string;
  quotes : string;
  impressions : string;
  engagementRate : string;
  clicks : string;
}.

(** [mapping[k]] *)
Definition get (m : t) (k : ImportFieldKey) : string :=
  match k with
  | Key.postId => postId m
  | Key.text => text m
  | Key.createdAt => createdAt m
  | Key.likes => likes m
  | Key.reposts => reposts m
  | Key.replies => replies m
  | Key.quotes => quotes m
  | Key.impressions => impressions m
  | Key.engagementRate => engagementRate m
  | Key.clicks => clicks m
  end.

(** [nextMapping[k] = v] *)
Definition set (m : t) (k : ImportFieldKey) (v : string) : t :=
  match k with
  | Key.postId => mk v (text m) (createdAt m) (likes m) (reposts m) (replies m) (quotes m) (impressions m) (engagementRate m) (clicks m)
  | Key.text => mk (postId m) v (createdAt m) (likes m) (reposts m) (replies m) (quotes m) (impressions m) (engagementRate m) (clicks m)
  | Key.createdAt => mk (postId m) (text m) v (likes m) (reposts m) (replies m) (quotes m) (impressions m) (engagementRate m) (clicks m)
  | Key.likes => mk (postId m) (text m) (createdAt m) v (reposts m) (replies m) (quotes m) (impressions m) (engagementRate m) (clicks m)
  | Key.reposts => mk (postId m) (text m) (createdAt m) (likes m) v (replies m) (quotes m) (impressions m) (engagementRate m) (clicks m)
  | Key.replies => mk (postId m) (text m) (createdAt m) (likes m) (reposts m) v (quotes m) (impressions m) (engagementRate m) (clicks m)
  | Key.quotes => mk (postId m) (text m) (createdAt m) (likes m) (reposts m) (replies m) v (impressions m) (engagementRate m) (clicks m)
  | Key.impressions => mk (postId m) (text m) (createdAt m) (likes m) (reposts m) (replies m) (quotes m) v (engagementRate m) (clicks m)
  | Key.engagementRate => mk (postId m) (text m) (createdAt m) (likes m) (reposts m) (replies m) (quotes m) (impressions m) v (clicks m)
  | Key.clicks => mk (postId m) (text m) (createdAt m) (likes m) (reposts m) (replies m) (quotes m) (impressions m) (engagementRate m) v
  end.

(** [Object.values(mapping)], in property order. *)
Definition values (m : t) : list string :=
  [ postId m; text m; createdAt m; likes m; reposts m; replies m;
    quotes m; impressions m; engagementRate m; clicks m ].
End ImportMapping.

Module ImportedPostRow.
Record t : Type := mk {
  postId : option string;
  text : option string;
  createdAt : option string;
  likes : option number;
  reposts : option number;
  replies : option number;
  quotes : option number;
  impressions : option number;
  engagementRate : option number;
  clicks : option number;
}.
End ImportedPostRow.

(** [CsvRow = Record<string, string>]: the cells of one record, keyed by
    header, in property order.  The record is a plain object: besides its
    own cells it has the members that every plain object inherits from
    [Object.prototype]. *)
Definition CsvRow : Type := list (string * string).

(** What [row[h]] evaluates to when it is not [undefined]. *)
Inductive Value : Type :=
| Cell (v : string)           (* a cell of the record *)
| ObjectPrototype             (* [Object.prototype], under ["__proto__"] *)
| Builtin (name : string).    (* a function of [Object.prototype] *)

(** The own property [h] of the record. *)
Fixpoint ownCell (row : CsvRow) (h : string) : option string :=
  match row with
  | [] => None
  | (k, v) :: rest => if String.eqb k h then Some v else ownCell rest h
  end.

(** The functions that [Object.prototype] holds under their own name. *)
Definition prototypeFunctions : list string :=
  ["__defineGetter__"; "__defineSetter__"; "hasOwnProperty";
   "__lookupGetter__"; "__lookupSetter__"; "isPrototypeOf";
   "propertyIsEnumerable"; "toString"; "valueOf"; "toLocaleString"].

(** The member of [Object.prototype] that a plain object inherits under
    the name [h]. *)
Definition inherited (h : string) : option Value :=
  if String.eqb h "__proto__" then Some ObjectPrototype
  else if String.eqb h "constructor" then Some (Builtin "Object")
  else if existsb (String.eqb h) prototypeFunctions then Some (Builtin h)
  else None.

(** [row[h]]: the own cell, and without one the inherited member. *)
Definition cell (row : CsvRow) (h : string) : option Value :=
  match ownCell row h with
  | Some v => Some (Cell v)
  | None => inherited h
  end.

(** [String(v)]; the text of a built-in function is the engine's, here
    V8's. *)
Definition stringOf (v : Value) : string :=
  match v with
  | Cell s => s
  | ObjectPrototype => "[object Object]"
  | Builtin name => "function " +:+ name +:+ "() { [native code] }"
  end.

(** [Object.keys(row)] *)
Definition keys (row : CsvRow) : list string := map fst row.

(** The order of [EXPECTED_FIELDS]. *)
Definition EXPECTED_FIELDS : list ImportFieldKey :=
  [ Key.postId; Key.text; Key.createdAt; Key.likes; Key.reposts;
    Key.replies; Key.quotes; Key.impressions; Key.engagementRate;
    Key.clicks ].

(** ** Field Suggester: [suggestedHeaderForField] *)

Record NHeader : Type := { raw : string; n : string }.

Definition candidates (field : ImportFieldKey) : list string :=
  match field with
  | Key.postId => ["post id"; "postid"; "id"; "tweet id"; "tweetid"; "status id"; "statusid"]
  | Key.text => ["text"; "content"; "body"; "message"; "post"; "tweet text"; "tweet"]
  | Key.createdAt => ["created at"; "created"; "timestamp"; "time"; "date"; "datetime"]
  | Key.likes => ["likes"; "like"; "favorites"; "favourites"]
  | Key.reposts => ["reposts"; "repost"; "retweets"; "retweet"; "shares"; "share"]
  | Key.replies => ["replies"; "reply"; "comments"; "comment"]
  | Key.quotes => ["quotes"; "quote"; "quote tweets"; "quote tweet"]
  | Key.impressions => ["impressions"; "impression"; "views"; "view"]
  | Key.engagementRate => ["engagement rate"; "engagementrate"; "er"; "engagement %"; "engagement percent"]
  | Key.clicks => ["clicks"; "click"; "link clicks"; "url clicks"]
  end.

(** [for (const w of wanted) { const hit = nHeaders.find(test w); if (hit) return hit.raw; }]:
    the hit of the first [w] that has one. *)
Fixpoint firstHit (test : string -> NHeader -> bool)
         (wanted : list string) (nHeaders : list NHeader) : option NHeader :=
  match wanted with
  | [] => None
  | w :: rest =>
      match List.find (test w) nHeaders with
      | Some hit => Some hit
      | None => firstHit test rest nHeaders
      end
  end.

Definition exactTest (w : string) (h : NHeader) : bool := String.eqb (n h) w.

Definition containsTest (w : string) (h : NHeader) : bool :=
  Js.includes w (n h) || Js.includes (n h) w.

Definition suggestedHeaderForField
           (field : ImportFieldKey) (headers : list string) : string :=
  let nHeaders := map (fun h => {| raw := h; n := norm h |}) headers in
  let wanted := map norm (candidates field) in
  match firstHit exactTest wanted nHeaders with
  | Some hit => raw hit
  | None =>
      match firstHit containsTest wanted nHeaders with
      | Some hit => raw hit
      | None => ""
      end
  end.

Definition emptyMapping : ImportMapping.t :=
  ImportMapping.mk "" "" "" "" "" "" "" "" "" "".

(** ** Row Mapper: [mapCsvRow] *)

(** The local helper [get] of [mapCsvRow]. *)
Definition mapCsvRow_get (row : CsvRow) (mapping : ImportMapping.t)
           (k : ImportFieldKey) : option string :=
  let h := ImportMapping.get mapping k in
  if negb (Js.truthy h) then None
  else match cell row h with
       | None => None
       | Some v =>
           let s := Js.trim (stringOf v) in
           if Js.truthy s then Some s else None
       end.

Definition mapCsvRow (row : CsvRow) (mapping : ImportMapping.t)
  : ImportedPostRow.t :=
  let get := mapCsvRow_get row mapping in
  {| ImportedPostRow.postId := get Key.postId;
     ImportedPostRow.text := get Key.text;
     ImportedPostRow.createdAt := get Key.createdAt;
     ImportedPostRow.likes := toNumber (get Key.likes);
     ImportedPostRow.reposts := toNumber (get Key.reposts);
     ImportedPostRow.replies := toNumber (get Key.replies);
     ImportedPostRow.quotes := toNumber (get Key.quotes);
     ImportedPostRow.impressions := toNumber (get Key.impressions);
     ImportedPostRow.engagementRate := toNumber (get Key.engagementRate);
     ImportedPostRow.clicks := toNumber (get Key.clicks) |}.

(** ** Mapping Validator: [mappingCompleteness] *)

Record Completeness : Type := { requiredOk : bool; hasDuplicates : bool }.

Definition mappingCompleteness (mapping : ImportMapping.t) : Completeness :=
  let chosen := List.filter Js.truthy (ImportMapping.values mapping) in
  let uniqueChosen := size (list_to_set chosen : gset string) in
  let hasDuplicates := negb (Nat.eqb uniqueChosen (length chosen)) in
  let requiredOk :=
    Js.truthy (ImportMapping.postId mapping)
    && Js.truthy (ImportMapping.text mapping)
    && Js.truthy (ImportMapping.createdAt mapping) in
  {| requiredOk := requiredOk; hasDuplicates := hasDuplicates |}.

(** ** CSV Parser Adapter: [handleFile]

    The parsing itself is done by the Papa Parse library; [handleFile]
    is what the component does with the library's result. *)

Record ParseError : Type := { message : option string }.

Record ParseResult : Type := {
  errors : list ParseError;
  data : list CsvRow;
  meta_fields : option (list string);
}.

(** ["idle" | "ok" | "err"] *)
Inductive ImportStatus : Type := status_idle | status_ok | status_err.

(** The state of the component that [handleFile] writes. *)
Record ImporterState : Type := {
  fileName : option string;
  headers : list string;
  rows : list CsvRow;
  mapping : ImportMapping.t;
  parseError : option string;
  importResult : ImportStatus;
}.

Definition resetState (st : ImporterState) : ImporterState :=
  {| fileName := fileName st; headers := []; rows := [];
     mapping := emptyMapping; parseError := None; importResult := status_idle |}.

Definition setFileName (name : string) (st : ImporterState) : ImporterState :=
  {| fileName := Some name; headers := headers st; rows := rows st;
     mapping := mapping st; parseError := parseError st;
     importResult := importResult st |}.

Definition setParseError (e : string) (st : ImporterState) : ImporterState :=
  {| fileName := fileName st; headers := headers st; rows := rows st;
     mapping := mapping st; parseError := Some e;
     importResult := importResult st |}.

(** [(result.data ?? []).filter((r) => r && Object.keys(r).length > 0)] *)
Definition parsedRows (result : ParseResult) : list CsvRow :=
  List.filter (fun r => Nat.ltb 0 (length (keys r))) (data result).

(** [(result.meta?.fields ?? Object.keys(parsedRows[0] ?? {})).filter(Boolean)] *)
Definition parsedHeaders (result : ParseResult) : list string :=
  List.filter Js.truthy
    (match meta_fields result with
     | Some fields => fields
     | None => keys (default [] (head (parsedRows result)))
     end).

(** The [complete] callback given to the parser. *)
Definition complete (result : ParseResult) (st : ImporterState) : ImporterState :=
  match errors result with
  | e :: _ =>
      setParseError (default "CSV parse failed" (message e)) st
  | [] =>
      match parsedHeaders result with
      | [] =>
          setParseError
            "No headers detected. Ensure the first row contains column names."
            st
      | _ =>
          let nextMapping :=
            fold_left
              (fun m f => ImportMapping.set m f
                            (suggestedHeaderForField f (parsedHeaders result)))
              EXPECTED_FIELDS emptyMapping in
          {| fileName := fileName st; headers := parsedHeaders result;
             rows := parsedRows result; mapping := nextMapping;
             parseError := parseError st; importResult := importResult st |}
      end
  end.

(** The [error] callback given to the parser. *)
Definition error (err : ParseError) (st : ImporterState) : ImporterState :=
  setParseError (default "CSV parse failed" (message err)) st.

(** How the parser answers: it calls [complete] or [error]. *)
Inductive ParserReply : Type :=
| Completed (result : ParseResult)
| Errored (err : ParseError).

(** [handleFile] once the parser has answered. *)
Definition handleFile (name : string) (reply : ParserReply)
           (st : ImporterState) : ImporterState :=
  let st := setFileName name (resetState st) in
  match reply with
  | Completed result => complete result st
  | Errored err => error err st
  end.

(** The contract of the adapter read off the state. *)
Definition parseOutcome (st : ImporterState)
  : string + (list string * list CsvRow) :=
  match parseError st with
  | Some e => inl e
  | None => inr (headers st, rows st)
  end.

(** ** The datastore

    The tables reached through [prisma], with the columns that the source
    writes.  The client [lib/prisma] and its schema are not among the
    sources; the operations below follow the persistence collaborator of
    the specification.  Identifiers are generated by the datastore: they
    are drawn from the counter [nextId] of the world.  A [Date] is its time
    value in milliseconds. *)

Inductive RunStatus : Type := STARTED | SUCCESS | FAILED.

Module User.
Record t : Type := mk { id : nat; username : string; timezone : string }.
End User.

Module ImportRecord.
Record t : Type := mk {
  id : nat;
  user_id : nat;
  filename : string;
  row_count : nat;
  source_label : string;
  imported_at : Z;
}.
End ImportRecord.

Module Post.
Record t : Type := mk {
  id : nat;
  user_id : nat;
  x_post_id : string;
  text : string;
  created_at : Z;
  char_count : nat;
  word_count : nat;
  has_link : bool;
  has_media : bool;
  hashtag_count : nat;
  mention_count : nat;
  format_tag : string;
}.
End Post.

Module MetricsSnapshot.
Record t : Type := mk {
  post_id : nat;
  import_id : nat;
  captured_at : Z;
  like_count : number;
  repost_count : number;
  reply_count : number;
  quote_count : number;
  impression_count : number;
  engagement_rate : number;
  clicks : number;
}.
End MetricsSnapshot.

Module RecomputeRun.
Record t : Type := mk {
  id : nat;
  status : RunStatus;
  started_at : Z;
  ended_at : option Z;
  error_text : option string;
}.
End RecomputeRun.

(** What a [throw] carries: an [Error] object with its message, or any
    other value ([error instanceof Error] is false). *)
Inductive Thrown : Type :=
| ErrorObject (message : string)
| OtherValue.

(** The world of the server: the tables, the identifier counter, the
    clock, the console, and the fault plan.  The plan lists what happens to
    the coming datastore calls, one entry per call: [None] lets the call
    run, [Some e] makes it throw [e]; calls beyond the plan run. *)
Record World : Type := mkWorld {
  users : list User.t;
  imports : list ImportRecord.t;
  posts : list Post.t;
  metricsSnapshots : list MetricsSnapshot.t;
  recomputeRuns : list RecomputeRun.t;
  nextId : nat;
  now : Z;
  console : list string;
  faults : list (option Thrown);
}.

Definition set_users (v : list User.t) (w : World) : World :=
  mkWorld v (imports w) (posts w) (metricsSnapshots w) (recomputeRuns w)
          (nextId w) (now w) (console w) (faults w).
Definition set_imports (v : list ImportRecord.t) (w : World) : World :=
  mkWorld (users w) v (posts w) (metricsSnapshots w) (recomputeRuns w)
          (nextId w) (now w) (console w) (faults w).
Definition set_posts (v : list Post.t) (w : World) : World :=
  mkWorld (users w) (imports w) v (metricsSnapshots w) (recomputeRuns w)
          (nextId w) (now w) (console w) (faults w).
Definition set_metricsSnapshots (v : list MetricsSnapshot.t) (w : World) : World :=
  mkWorld (users w) (imports w) (posts w) v (recomputeRuns w)
          (nextId w) (now w) (console w) (faults w).
Definition set_recomputeRuns (v : list RecomputeRun.t) (w : World) : World :=
  mkWorld (users w) (imports w) (posts w) (metricsSnapshots w) v
          (nextId w) (now w) (console w) (faults w).
Definition set_nextId (v : nat) (w : World) : World :=
  mkWorld (users w) (imports w) (posts w) (metricsSnapshots w) (recomputeRuns w)
          v (now w) (console w) (faults w).
Definition set_console (v : list string) (w : World) : World :=
  mkWorld (users w) (imports w) (posts w) (metricsSnapshots w) (recomputeRuns w)
          (nextId w) (now w) v (faults w).
Definition set_faults (v : list (option Thrown)) (w : World) : World :=
  mkWorld (users w) (imports w) (posts w) (metricsSnapshots w) (recomputeRuns w)
          (nextId w) (now w) (console w) v.

(** What the plan holds for the [i]-th coming datastore call. *)
Definition planAt (plan : list (option Thrown)) (i : nat) : option Thrown :=
  default None (plan !! i).

(** *** The monad of asynchronous server code: state and exceptions *)

Inductive Outcome (A : Type) : Type :=
| Returned (a : A)
| Threw (e : Thrown).
Arguments Returned {A} a.
Arguments Threw {A} e.

Definition M (A : Type) : Type := World -> Outcome A * World.

#[global] Instance M_ret : MRet M := fun A a w => (Returned a, w).

#[global] Instance M_bind : MBind M := fun A B f m w =>
  match m w with
  | (Returned a, w') => f a w'
  | (Threw e, w') => (Threw e, w')
  end.

(** [try { body } catch (error) { handler }] *)
Definition tryCatch {A : Type} (body : M A) (handler : Thrown -> M A) : M A :=
  fun w =>
    match body w with
    | (Returned a, w') => (Returned a, w')
    | (Threw e, w') => handler e w'
    end.

(** [new Date()] *)
Definition newDate : M Z := fun w => (Returned (now w), w).

(** [console.log] and [console.error] *)
Definition consoleLog (line : string) : M unit :=
  fun w => (Returned tt, set_console (console w ++ [line]) w).

(** [error instanceof Error ? error.message : 'Unknown error'] *)
Definition messageOf (error : Thrown) : string :=
  match error with
  | ErrorObject message => message
  | OtherValue => "Unknown error"
  end.

(** A datastore call: it consumes one entry of the fault plan and either
    throws what the plan says or runs [op]. *)
Definition datastore {A : Type} (op : M A) : M A :=
  fun w =>
    let w' := set_faults (tail (faults w)) w in
    match planAt (faults w) 0 with
    | Some e => (Threw e, w')
    | None => op w'
    end.

Module prisma.

(** Modelled from the spec: [prisma.user.upsert], the upsert of a User by
    its unique key [username], with an empty [update]. *)
Definition user_upsert (username timezone : string) : M User.t :=
  datastore (fun w =>
    match List.find (fun u => String.eqb (User.username u) username) (users w) with
    | Some u => (Returned u, w)
    | None =>
        let u := User.mk (nextId w) username timezone in
        (Returned u, set_nextId (S (nextId w)) (set_users (users w ++ [u]) w))
    end).

(** Modelled from the spec: [prisma.import.create], the insert of an
    Import; [imported_at] is filled in by the datastore. *)
Definition import_create (user_id : nat) (filename : string)
           (row_count : nat) (source_label : string) : M ImportRecord.t :=
  datastore (fun w =>
    let r := ImportRecord.mk (nextId w) user_id filename row_count
                             source_label (now w) in
    (Returned r, set_nextId (S (nextId w)) (set_imports (imports w ++ [r]) w))).

(** Modelled from the spec: the row-level effect of [prisma.post.upsert],
    the upsert of a Post by its unique external identifier.  [update] is
    applied to the row whose [x_post_id] is the key; without such a row,
    [create] is appended under a fresh identifier. *)
Definition upsertPost (key : string) (update : Post.t -> Post.t)
           (create : nat -> Post.t) (table : list Post.t) (fresh : nat)
  : Post.t * list Post.t * nat :=
  match List.find (fun p => String.eqb (Post.x_post_id p) key) table with
  | Some p =>
      (update p,
       map (fun q => if String.eqb (Post.x_post_id q) key then update q else q)
           table,
       fresh)
  | None => (create fresh, table ++ [create fresh], S fresh)
  end.

(** Modelled from the spec: [prisma.post.upsert] with
    [where: { x_post_id }]. *)
Definition post_upsert (key : string) (update : Post.t -> Post.t)
           (create : nat -> Post.t) : M Post.t :=
  datastore (fun w =>
    let '(p, table, fresh) := upsertPost key update create (posts w) (nextId w) in
    (Returned p, set_nextId fresh (set_posts table w))).

(** Modelled from the spec: [prisma.metricsSnapshot.createMany], the batch
    insert of MetricsSnapshots. *)
Definition metricsSnapshot_createMany (data : list MetricsSnapshot.t) : M unit :=
  datastore (fun w =>
    (Returned tt, set_metricsSnapshots (metricsSnapshots w ++ data) w)).

(** Modelled from the spec: [prisma.recomputeRun.create], the insert of a
    RecomputeRun with its status and start time. *)
Definition recomputeRun_create (status : RunStatus) (started_at : Z)
  : M RecomputeRun.t :=
  datastore (fun w =>
    let r := RecomputeRun.mk (nextId w) status started_at None None in
    (Returned r,
     set_nextId (S (nextId w)) (set_recomputeRuns (recomputeRuns w ++ [r]) w))).

(** Modelled from the spec: the row-level effect of
    [prisma.recomputeRun.update]. *)
Definition markRun (id : nat) (update : RecomputeRun.t -> RecomputeRun.t)
           (table : list RecomputeRun.t) : list RecomputeRun.t :=
  map (fun q => if Nat.eqb (RecomputeRun.id q) id then update q else q) table.

(** Modelled from the spec: [prisma.recomputeRun.update] with
    [where: { id }]; the call throws when no row has the identifier. *)
Definition recomputeRun_update (id : nat) (update : RecomputeRun.t -> RecomputeRun.t)
  : M RecomputeRun.t :=
  datastore (fun w =>
    match List.find (fun r => Nat.eqb (RecomputeRun.id r) id) (recomputeRuns w) with
    | Some r =>
        (Returned (update r),
         set_recomputeRuns (markRun id update (recomputeRuns w)) w)
    | None => (Threw (ErrorObject "Record to update not found."), w)
    end).

End prisma.

(** ** Recompute collaborator: [recomputeAnalytics] *)

Inductive RecomputeResult : Type :=
| RecomputeOk (runId : nat)           (* { success: true, runId } *)
| RecomputeFailed (error : string).   (* { success: false, error } *)

(** The [data] of the two updates of a run. *)
Definition runSucceeded (ended_at : Z) (r : RecomputeRun.t) : RecomputeRun.t :=
  RecomputeRun.mk (RecomputeRun.id r) SUCCESS (RecomputeRun.started_at r)
                  (Some ended_at) (RecomputeRun.error_text r).

Definition runFailed (message : string) (ended_at : Z) (r : RecomputeRun.t)
  : RecomputeRun.t :=
  RecomputeRun.mk (RecomputeRun.id r) FAILED (RecomputeRun.started_at r)
                  (Some ended_at) (Some message).

Definition recomputeAnalytics : M RecomputeResult :=
  consoleLog "[Analytics] Starting recompute...";;
  startTime ← newDate;
  run ← prisma.recomputeRun_create STARTED startTime;
  tryCatch
    (ended ← newDate;
     prisma.recomputeRun_update (RecomputeRun.id run) (runSucceeded ended);;
     finished ← newDate;
     consoleLog ("[Analytics] Recompute finished successfully in "
                 +:+ pretty (finished - startTime)%Z +:+ "ms");;
     mret (RecomputeOk (RecomputeRun.id run)))
    (fun error =>
       consoleLog ("[Analytics] Recompute failed: " +:+ messageOf error);;
       let message := messageOf error in
       ended ← newDate;
       prisma.recomputeRun_update (RecomputeRun.id run) (runFailed message ended);;
       mret (RecomputeFailed message)).

(** ** Import Orchestrator: [saveImportedPosts] *)

Record ImportData : Type := {
  data_fileName : option string;
  data_mapping : ImportMapping.t;
  data_rows : list ImportedPostRow.t;
}.

Inductive ImportResult : Type :=
| ImportOk (importId : nat)        (* { success: true, importId } *)
| ImportFailed (error : string).   (* { success: false, error } *)

Definition BATCH_SIZE : nat := 50.

(** [rows.slice(i, i + size)] for [i = 0, size, 2 size, ...] below
    [rows.length]; the loop runs at most [rows.length] times. *)
Fixpoint batchesFrom (fuel size : nat) (rows : list ImportedPostRow.t)
  : list (list ImportedPostRow.t) :=
  match fuel, rows with
  | S fuel', _ :: _ => take size rows :: batchesFrom fuel' size (drop size rows)
  | _, _ => []
  end.

Definition batches (size : nat) (rows : list ImportedPostRow.t)
  : list (list ImportedPostRow.t) :=
  batchesFrom (length rows) size rows.

(** A loop over [items] that carries the array it appends to. *)
Fixpoint forEach {A S : Type} (body : A -> S -> M S) (items : list A) (s : S)
  : M S :=
  match items with
  | [] => mret s
  | x :: rest => s' ← body x s; forEach body rest s'
  end.

(** [await Promise.all(items.map(body))], the calls sharing the array
    they append to.  Every call is started before the first one
    completes, so every call runs, also after one of them has rejected;
    when some reject, the whole rejects with the first rejection and the
    array is not used.  The calls complete in the datastore's order; the
    model runs them in the order of the items. *)
Fixpoint settleAll {A S : Type} (body : A -> S -> M S) (items : list A)
         (s : S) (rejected : option Thrown) : M S :=
  match items with
  | [] =>
      fun w =>
        match rejected with
        | None => (Returned s, w)
        | Some e => (Threw e, w)
        end
  | x :: rest =>
      fun w =>
        match body x s w with
        | (Returned s', w') => settleAll body rest s' rejected w'
        | (Threw e, w') =>
            settleAll body rest s (Some (default e rejected)) w'
        end
  end.

Definition promiseAll {A S : Type} (body : A -> S -> M S) (items : list A)
           (s : S) : M S :=
  settleAll body items s None.

Definition orZero (v : option number) : number := default (Finite 0) v.

(** The [update] and [create] arguments of the post upsert, and the
    snapshot pushed for a row. *)
Definition postUpdate (text : string) (createdAt : Z) (p : Post.t) : Post.t :=
  Post.mk (Post.id p) (Post.user_id p) (Post.x_post_id p) text createdAt
          (charCount text) (wordCount text) (hasLink text) (Post.has_media p)
          (hashtagCount text) (mentionCount text) (formatTag text).

Definition postCreate (user : User.t) (xPostId text : string) (createdAt : Z)
           (id : nat) : Post.t :=
  Post.mk id (User.id user) xPostId text createdAt
          (charCount text) (wordCount text) (hasLink text) false
          (hashtagCount text) (mentionCount text) (formatTag text).

Definition snapshotOf (post : Post.t) (importRecord : ImportRecord.t)
           (row : ImportedPostRow.t) : MetricsSnapshot.t :=
  MetricsSnapshot.mk (Post.id post) (ImportRecord.id importRecord)
    (ImportRecord.imported_at importRecord)
    (orZero (ImportedPostRow.likes row))
    (orZero (ImportedPostRow.reposts row))
    (orZero (ImportedPostRow.replies row))
    (orZero (ImportedPostRow.quotes row))
    (orZero (ImportedPostRow.impressions row))
    (orZero (ImportedPostRow.engagementRate row))
    (orZero (ImportedPostRow.clicks row)).

Section Orchestrator.

(** [new Date(s)] followed by [Number.isNaN(date.getTime())]: the time
    value of the date that the engine reads in [s], or [None] for an
    invalid date.  Date parsing is the engine's. *)
Variable parseDate : string -> option Z.

(** The callback given to [batch.map]: one row, and the array of
    snapshots it pushes to. *)
Definition processRow (user : User.t) (importRecord : ImportRecord.t)
           (row : ImportedPostRow.t)
           (snapshotsToCreate : list MetricsSnapshot.t)
  : M (list MetricsSnapshot.t) :=
  let xPostId := Js.trim <$> ImportedPostRow.postId row in
  let text := default "" (ImportedPostRow.text row) in
  let createdAtRaw := ImportedPostRow.createdAt row in
  match xPostId, createdAtRaw with
  | Some xPostId, Some createdAtRaw =>
      if negb (Js.truthy xPostId) || negb (Js.truthy createdAtRaw)
      then mret snapshotsToCreate
      else
        match parseDate createdAtRaw with
        | None => mret snapshotsToCreate
        | Some createdAt =>
            post ← prisma.post_upsert xPostId
                     (postUpdate text createdAt)
                     (postCreate user xPostId text createdAt);
            mret (snapshotsToCreate ++ [snapshotOf post importRecord row])
        end
  | _, _ => mret snapshotsToCreate   (* a null postId or createdAt *)
  end.

(** The two calls of [revalidatePath] after the recompute act on the page
    cache only and are left out. *)
Definition saveImportedPosts (data : ImportData) : M ImportResult :=
  tryCatch
    (let fileName := data_fileName data in
     let rows := data_rows data in
     consoleLog ("[Import] Starting import of " +:+ pretty (length rows)
                 +:+ " rows from " +:+ default "null" fileName);;
     user ← prisma.user_upsert "default" "America/Chicago";
     importRecord ← prisma.import_create (User.id user)
                      (match fileName with
                       | Some name => if Js.truthy name then name else "import.csv"
                       | None => "import.csv"
                       end)
                      (length rows) "X Analytics Export";
     snapshotsToCreate ←
       forEach (fun batch => promiseAll (processRow user importRecord) batch)
               (batches BATCH_SIZE rows) [];
     (if Nat.ltb 0 (length snapshotsToCreate)
      then prisma.metricsSnapshot_createMany snapshotsToCreate
      else mret tt);;
     recomputeAnalytics;;
     consoleLog ("[Import] Successfully imported "
                 +:+ pretty (length snapshotsToCreate) +:+ " posts.");;
     mret (ImportOk (ImportRecord.id importRecord)))
    (fun error =>
       consoleLog ("Import error: " +:+ messageOf error);;
       let message := messageOf error in
       mret (ImportFailed message)).

End Orchestrator.

(** A reader of the date-only form [YYYY-MM-DD], for the evaluations on
    concrete inputs below; it stands where the engine's parser does, and
    reads that form as V8 does: a day up to 31 is taken in every month and
    runs over into the next month. *)
Module SampleDate.

(** Days from 1970-01-01 to the civil date, proleptic Gregorian. *)
Definition daysFromCivil (y m d : Z) : Z :=
  let y' := (if m <=? 2 then y - 1 else y)%Z in
  let era := (y' / 400)%Z in
  let yoe := (y' - era * 400)%Z in
  let mp := ((m + 9) mod 12)%Z in
  let doy := ((153 * mp + 2) / 5 + d - 1)%Z in
  let doe := (yoe * 365 + yoe / 4 - yoe / 100 + doy)%Z in
  (era * 146097 + doe - 719468)%Z.

Definition allDigits (s : string) : bool :=
  String.eqb (fst (JsNumber.spanDigits s)) s.

Definition parse (s : string) : option Z :=
  if Nat.eqb (String.length s) 10
     && allDigits (String.substring 0 4 s)
     && String.eqb (String.substring 4 1 s) "-"
     && allDigits (String.substring 5 2 s)
     && String.eqb (String.substring 7 1 s) "-"
     && allDigits (String.substring 8 2 s)
  then
    let y := JsNumber.digitsValue 0 (String.substring 0 4 s) in
    let m := JsNumber.digitsValue 0 (String.substring 5 2 s) in
    let d := JsNumber.digitsValue 0 (String.substring 8 2 s) in
    if ((1 <=? m) && (m <=? 12) && (1 <=? d) && (d <=? 31))%Z
    then Some (daysFromCivil y m d * 86400000)%Z
    else None
  else None.

End SampleDate.

(** ** Vocabulary of the properties *)

(** Every character of a string satisfies [P]. *)
Fixpoint allChars (P : ascii -> bool) (s : string) : bool :=
  match s with
  | EmptyString => true
  | String c t => P c && allChars P t
  end.

(** A lowercase letter, a digit, a space or a percent sign. *)
Definition isNormChar (c : ascii) : bool :=
  Js.between 97 122 c || Js.isDigit c || Ascii.eqb c " " || Ascii.eqb c "%".

(** The two ways a header can match a synonym. *)
Definition exactMatch (w h : string) : Prop := norm h = w.

Definition occursIn (a b : string) : Prop :=
  exists pre post, b = pre +:+ a +:+ post.

Definition looseMatch (w h : string) : Prop :=
  occursIn w (norm h) \/ occursIn (norm h) w.

(** [r] is the first header, in header order, that matches the first
    synonym, in list order, that any header matches. *)
Definition firstBy (P : string -> string -> Prop)
           (wanted headers : list string) (r : string) : Prop :=
  exists i j w,
    wanted !! i = Some w /\ headers !! j = Some r /\ P w r
    /\ (forall i' w' h, i' < i -> wanted !! i' = Some w' -> h ∈ headers ->
                        ~ P w' h)
    /\ (forall j' h, j' < j -> headers !! j' = Some h -> ~ P w h).

(** No fault is planned for the coming [n] datastore calls. *)
Definition calm (n : nat) (w : World) : Prop :=
  forall i, i < n -> planAt (faults w) i = None.

(** The effect of the row loop on the posts table, the identifier counter
    and the array of snapshots when no datastore call of the loop fails. *)
Record Loop : Type := {
  loop_posts : list Post.t;
  loop_nextId : nat;
  loop_snapshots : list MetricsSnapshot.t;
}.

Section Acceptance.

Variable parseDate : string -> option Z.

(** The three reasons for which a row is skipped. *)
Definition postIdAbsent (row : ImportedPostRow.t) : bool :=
  match ImportedPostRow.postId row with
  | None => true
  | Some p => negb (Js.truthy (Js.trim p))
  end.

Definition createdAtAbsent (row : ImportedPostRow.t) : bool :=
  match ImportedPostRow.createdAt row with
  | None => true
  | Some c => negb (Js.truthy c)
  end.

Definition createdAtInvalid (row : ImportedPostRow.t) : bool :=
  match ImportedPostRow.createdAt row with
  | Some c => match parseDate c with None => true | Some _ => false end
  | None => false
  end.

Definition skipped (row : ImportedPostRow.t) : bool :=
  postIdAbsent row || createdAtAbsent row || createdAtInvalid row.

Definition accepted (row : ImportedPostRow.t) : bool := negb (skipped row).

(** The external identifier and the creation time of an accepted row. *)
Definition acceptedAs (row : ImportedPostRow.t) : option (string * Z) :=
  match ImportedPostRow.postId row, ImportedPostRow.createdAt row with
  | Some p, Some c =>
      if Js.truthy (Js.trim p) && Js.truthy c
      then match parseDate c with
           | Some t => Some (Js.trim p, t)
           | None => None
           end
      else None
  | _, _ => None
  end.

Fixpoint runRows (user : User.t) (importRecord : ImportRecord.t)
         (rows : list ImportedPostRow.t) (st : Loop) : Loop :=
  match rows with
  | [] => st
  | row :: rest =>
      match acceptedAs row with
      | None => runRows user importRecord rest st
      | Some (x, t) =>
          let text := default "" (ImportedPostRow.text row) in
          let '(p, table, fresh) :=
            prisma.upsertPost x (postUpdate text t) (postCreate user x text t)
                              (loop_posts st) (loop_nextId st) in
          runRows user importRecord rest
                  {| loop_posts := table; loop_nextId := fresh;
                     loop_snapshots :=
                       loop_snapshots st ++ [snapshotOf p importRecord row] |}
      end
  end.

(** The datastore calls of the row loop: one upsert per accepted row. *)
Definition calls (rows : list ImportedPostRow.t) : nat :=
  length (List.filter accepted rows).

(** The datastore calls of an import before the recompute: the user
    upsert, the import record, the upserts, and the batch write when there
    is a snapshot to write. *)
Definition importCalls (rows : list ImportedPostRow.t) : nat :=
  2 + calls rows + (if Nat.eqb (calls rows) 0 then 0 else 1).

(** The user that the import upserts, and the users table and the
    identifier counter after that upsert. *)
Definition isDefaultUser (u : User.t) : bool :=
  String.eqb (User.username u) "default".

Definition importUser (w : World) : User.t :=
  match List.find isDefaultUser (users w) with
  | Some u => u
  | None => User.mk (nextId w) "default" "America/Chicago"
  end.

Definition usersAfter (w : World) : list User.t :=
  match List.find isDefaultUser (users w) with
  | Some _ => users w
  | None => users w ++ [User.mk (nextId w) "default" "America/Chicago"]
  end.

Definition idAfterUser (w : World) : nat :=
  match List.find isDefaultUser (users w) with
  | Some _ => nextId w
  | None => S (nextId w)
  end.

(** The import record, and the row loop started from the world. *)
Definition importFilename (data : ImportData) : string :=
  match data_fileName data with
  | Some name => if Js.truthy name then name else "import.csv"
  | None => "import.csv"
  end.

Definition importRecordOf (data : ImportData) (w : World) : ImportRecord.t :=
  ImportRecord.mk (idAfterUser w) (User.id (importUser w))
                  (importFilename data) (length (data_rows data))
                  "X Analytics Export" (now w).

Definition loopOf (data : ImportData) (w : World) : Loop :=
  runRows (importUser w) (importRecordOf data w) (data_rows data)
          {| loop_posts := posts w; loop_nextId := S (idAfterUser w);
             loop_snapshots := [] |}.

Definition startLine (data : ImportData) : string :=
  "[Import] Starting import of " +:+ pretty (length (data_rows data))
  +:+ " rows from " +:+ default "null" (data_fileName data).

Definition successLine (count : nat) : string :=
  "[Import] Successfully imported " +:+ pretty count +:+ " posts.".

(** The world in which the recompute starts when the datastore calls of
    the import have not failed. *)
Definition afterImport (data : ImportData) (w : World) : World :=
  mkWorld (usersAfter w)
          (imports w ++ [importRecordOf data w])
          (loop_posts (loopOf data w))
          (metricsSnapshots w ++ loop_snapshots (loopOf data w))
          (recomputeRuns w)
          (loop_nextId (loopOf data w))
          (now w)
          (console w ++ [startLine data])
          (drop (importCalls (data_rows data)) (faults w)).

(** The world after an import none of whose datastore calls fails, the
    two calls of the recompute included. *)
Definition afterSuccess (data : ImportData) (w : World) : World :=
  let fresh := loop_nextId (loopOf data w) in
  mkWorld (usersAfter w)
          (imports w ++ [importRecordOf data w])
          (loop_posts (loopOf data w))
          (metricsSnapshots w ++ loop_snapshots (loopOf data w))
          (prisma.markRun fresh (runSucceeded (now w)) (recomputeRuns w)
           ++ [RecomputeRun.mk fresh SUCCESS (now w) (Some (now w)) None])
          (S fresh)
          (now w)
          (console w ++ [startLine data]
           ++ ["[Analytics] Starting recompute..."]
           ++ ["[Analytics] Recompute finished successfully in "
               +:+ pretty (now w - now w)%Z +:+ "ms"]
           ++ [successLine (length (loop_snapshots (loopOf data w)))])
          (drop (importCalls (data_rows data) + 2) (faults w)).

(** Each snapshot belongs to the import and carries the metrics of its
    row, zero where the row has none. *)
Definition snapshotMatches (importRecord : ImportRecord.t)
           (row : ImportedPostRow.t) (s : MetricsSnapshot.t) : Prop :=
  MetricsSnapshot.import_id s = ImportRecord.id importRecord
  /\ MetricsSnapshot.captured_at s = ImportRecord.imported_at importRecord
  /\ MetricsSnapshot.like_count s = orZero (ImportedPostRow.likes row)
  /\ MetricsSnapshot.repost_count s = orZero (ImportedPostRow.reposts row)
  /\ MetricsSnapshot.reply_count s = orZero (ImportedPostRow.replies row)
  /\ MetricsSnapshot.quote_count s = orZero (ImportedPostRow.quotes row)
  /\ MetricsSnapshot.impression_count s
     = orZero (ImportedPostRow.impressions row)
  /\ MetricsSnapshot.engagement_rate s
     = orZero (ImportedPostRow.engagementRate row)
  /\ MetricsSnapshot.clicks s = orZero (ImportedPostRow.clicks row).

End Acceptance.

(** The post that the import writes for a row without text. *)
Definition textlessPost (key : string) (createdAt : Z) (post : Post.t) : Prop :=
  Post.x_post_id post = key
  /\ Post.text post = ""
  /\ Post.created_at post = createdAt
  /\ Post.char_count post = 0
  /\ Post.word_count post = 1
  /\ Post.has_link post = false
  /\ Post.hashtag_count post = 0
  /\ Post.mention_count post = 0
  /\ Post.format_tag post = "standard".

(** Sample inputs for the evaluations on concrete inputs. *)
Definition sampleWorld : World := mkWorld [] [] [] [] [] 0 1000%Z [] [].

Definition sampleRow (postId text createdAt : option string)
  : ImportedPostRow.t :=
  ImportedPostRow.mk postId text createdAt None None None None None None None.

Definition sampleData (rows : list ImportedPostRow.t) : ImportData :=
  {| data_fileName := Some "posts.csv"; data_mapping := emptyMapping;
     data_rows := rows |}.

Definition threeRows : list ImportedPostRow.t :=
  [ sampleRow (Some "1") (Some "first post") (Some "2024-01-01");
    sampleRow None (Some "no identifier") (Some "2024-01-02");
    sampleRow (Some "3") (Some "third post") (Some "2024-01-03") ].

(** ** The rest of the importer component *)

(** [hasData = rows.length > 0 && headers.length > 0] *)
Definition hasData (st : ImporterState) : bool :=
  Nat.ltb 0 (length (rows st)) && Nat.ltb 0 (length (headers st)).

(** [mappedRows]: the rows mapped through the current mapping, and no row
    without data. *)
Definition mappedRows (st : ImporterState) : list ImportedPostRow.t :=
  if negb (hasData st) then []
  else map (fun r => mapCsvRow r (mapping st)) (rows st).

(** The [disabled] attribute of the import button. *)
Definition importDisabled (st : ImporterState) (isPending : bool) : bool :=
  negb (hasData st)
  || negb (requiredOk (mappingCompleteness (mapping st)))
  || hasDuplicates (mappingCompleteness (mapping st))
  || isPending.

Definition setImportResult (v : ImportStatus) (st : ImporterState)
  : ImporterState :=
  {| fileName := fileName st; headers := headers st; rows := rows st;
     mapping := mapping st; parseError := parseError st; importResult := v |}.

Section Submission.

Variable parseDate : string -> option Z.

(** [onImport]: the server action is called with the mapped rows, and its
    answer decides the import result shown. *)
Definition onImport (st : ImporterState) : M ImporterState :=
  let st := setImportResult status_idle st in
  tryCatch
    (let payload :=
       {| data_fileName := fileName st; data_mapping := mapping st;
          data_rows := mappedRows st |} in
     res ← saveImportedPosts parseDate payload;
     mret (setImportResult
             (match res with
              | ImportOk _ => status_ok
              | ImportFailed _ => status_err
              end) st))
    (fun _ => mret (setImportResult status_err st)).

(** A raw row that the import will not skip once it is mapped: the mapper
    gives it a postId and a createdAt, and the createdAt parses. *)
Definition importable (mapping : ImportMapping.t) (row : CsvRow) : bool :=
  match mapCsvRow_get row mapping Key.postId,
        mapCsvRow_get row mapping Key.createdAt with
  | Some _, Some c =>
      match parseDate c with Some _ => true | None => false end
  | _, _ => false
  end.

End Submission.

(** ** Further vocabulary of the properties *)

(** The tags that the classifier can give. *)
Definition formatTags : list string :=
  ["standard"; "comparison"; "milestone"; "question"; "list"; "tip";
   "story"; "cta"].

(** A digit, a thousands separator or a percent sign. *)
Definition isAmountChar (c : ascii) : bool :=
  Js.isDigit c || Ascii.eqb c "," || Ascii.eqb c "%".

(** What an upsert never changes in a post. *)
Definition postIdentity (p : Post.t) : nat * nat * string * bool :=
  (Post.id p, Post.user_id p, Post.x_post_id p, Post.has_media p).

(** What an update never changes in a run. *)
Definition runIdentity (r : RecomputeRun.t) : nat * Z :=
  (RecomputeRun.id r, RecomputeRun.started_at r).

(** The second world extends the first: rows are added at the end of the
    tables and never removed, the users, the import records and the
    snapshots that exist stay as they are, posts keep their identity, runs
    keep their identifier and start time, the identifier counter does not
    go back, and the console is only appended to. *)
Record grows (w w' : World) : Prop := {
  grows_users : users w `prefix_of` users w';
  grows_imports : imports w `prefix_of` imports w';
  grows_posts : map postIdentity (posts w) `prefix_of` map postIdentity (posts w');
  grows_snapshots : metricsSnapshots w `prefix_of` metricsSnapshots w';
  grows_runs : map runIdentity (recomputeRuns w)
               `prefix_of` map runIdentity (recomputeRuns w');
  grows_nextId : nextId w <= nextId w';
  grows_now : now w = now w';
  grows_console : console w `prefix_of` console w';
}.

(** Every run of [m], whatever it returns or throws, takes a world to a
    world related to it by [R]. *)
Definition respects {A : Type} (R : World -> World -> Prop) (m : M A) : Prop :=
  forall w, R w (snd (m w)).

(** The post stays in the table as it is. *)
Definition keepsPost (p : Post.t) (w w' : World) : Prop :=
  p ∈ posts w -> p ∈ posts w'.

(** The posts table respects the unique constraints and the identifier
    counter. *)
Record soundPosts (table : list Post.t) (fresh : nat) : Prop := {
  sound_keys : NoDup (map Post.x_post_id table);
  sound_ids : NoDup (map Post.id table);
  sound_fresh : Forall (fun p => Post.id p < fresh) table;
}.

(** The store respects the unique constraints of posts and users. *)
Record soundStore (w : World) : Prop := {
  sound_posts : soundPosts (posts w) (nextId w);
  sound_usernames : NoDup (map User.username (users w));
}.

Definition keepsSound (w w' : World) : Prop := soundStore w -> soundStore w'.

(** The recompute writes to the runs, the counter and the console only. *)
Definition sameData (w w' : World) : Prop :=
  users w' = users w /\ imports w' = imports w /\ posts w' = posts w
  /\ metricsSnapshots w' = metricsSnapshots w.

(** The external identifier under which a row is upserted. *)
Definition keyOf (row : ImportedPostRow.t) : string :=
  default "" (Js.trim <$> ImportedPostRow.postId row).

(** The snapshot of a row belongs to the import and to a post of the
    table that has the external identifier of the row. *)
Definition refersTo (table : list Post.t) (importRecord : ImportRecord.t)
           (row : ImportedPostRow.t) (s : MetricsSnapshot.t) : Prop :=
  MetricsSnapshot.import_id s = ImportRecord.id importRecord
  /\ exists p, p ∈ table
               /\ Post.id p = MetricsSnapshot.post_id s
               /\ Post.x_post_id p = keyOf row.

(** [rows.slice(i, i + size)] *)
Definition slice (i size : nat) (rows : list ImportedPostRow.t)
  : list ImportedPostRow.t :=
  take size (drop i rows).

(** * Properties *)

(** ** Strings *)

Lemma prefix_app (a b : string) :
  String.prefix a b = true <-> exists post, b = a +:+ post.
Proof.
  revert b. induction a as [|c a IH]; intros b; simpl.
  - split; [intros _; exists b; reflexivity | intros _; now destruct b].
  - destruct b as [|d b]; simpl.
    + split; [discriminate | intros [post H]; discriminate].
    + destruct (Ascii.ascii_dec c d) as [->|Hne].
      * rewrite IH. split; intros [post H]; exists post.
        -- now rewrite H.
        -- now inversion H.
      * split; [discriminate | intros [post H]; inversion H; congruence].
Qed.

Lemma includes_nil (needle : string) :
  Js.includes needle "" = String.prefix needle "".
Proof. unfold Js.includes. apply orb_false_r. Qed.

Lemma includes_cons (needle : string) (c : ascii) (hay : string) :
  Js.includes needle (String c hay)
  = String.prefix needle (String c hay) || Js.includes needle hay.
Proof. reflexivity. Qed.

(** [includes needle hay] holds exactly when [needle] occurs in [hay]. *)
Lemma includes_occurs (needle hay : string) :
  Js.includes needle hay = true
  <-> exists pre post, hay = pre +:+ needle +:+ post.
Proof.
  induction hay as [|c hay IH].
  - rewrite includes_nil, prefix_app. split.
    + intros [post H]. exists "", post. exact H.
    + intros [pre [post H]]. destruct pre; simpl in H; [eauto | discriminate].
  - rewrite includes_cons, orb_true_iff, prefix_app, IH. split.
    + intros [[post H] | [pre [post H]]].
      * exists "", post. exact H.
      * exists (String c pre), post. simpl. now rewrite H.
    + intros [pre [post H]]. destruct pre as [|d pre]; simpl in H.
      * left. eauto.
      * right. inversion H. eauto.
Qed.

Lemma trimEnd_nonspace (c : ascii) (t : string) :
  Js.isSpace c = false -> Js.trimEnd (String c t) = String c (Js.trimEnd t).
Proof. intros H. simpl. rewrite H. now destruct (Js.trimEnd t). Qed.

Lemma trimEnd_idempotent (s : string) : Js.trimEnd (Js.trimEnd s) = Js.trimEnd s.
Proof.
  induction s as [|c t IH]; [reflexivity|].
  simpl. destruct (Js.trimEnd t) as [|d u] eqn:E.
  - destruct (Js.isSpace c) eqn:Hc; [reflexivity|]. simpl. now rewrite Hc.
  - change (Js.trimEnd (String c (String d u)))
      with (match Js.trimEnd (String d u) with
            | EmptyString => if Js.isSpace c then EmptyString else String c EmptyString
            | t' => String c t'
            end).
    now rewrite IH.
Qed.

Lemma trimEnd_space (c : ascii) (t : string) :
  Js.isSpace c = true ->
  Js.trimStart (Js.trimEnd (String c t)) = Js.trimStart (Js.trimEnd t).
Proof.
  intros Hc. simpl. destruct (Js.trimEnd t) as [|d u].
  - now rewrite Hc.
  - simpl. now rewrite Hc.
Qed.

Lemma trimStart_trimEnd (s : string) :
  Js.trimStart (Js.trimEnd s) = Js.trimEnd (Js.trimStart s).
Proof.
  induction s as [|c t IH]; [reflexivity|].
  destruct (Js.isSpace c) eqn:Hc.
  - rewrite (trimEnd_space c t Hc), IH. simpl Js.trimStart. now rewrite Hc.
  - rewrite (trimEnd_nonspace c t Hc). simpl Js.trimStart. rewrite Hc.
    now rewrite (trimEnd_nonspace c t Hc).
Qed.

Lemma trimStart_idempotent (s : string) :
  Js.trimStart (Js.trimStart s) = Js.trimStart s.
Proof.
  induction s as [|c t IH]; [reflexivity|].
  simpl. destruct (Js.isSpace c) eqn:Hc; [exact IH|]. simpl. now rewrite Hc.
Qed.

Lemma trim_idempotent (s : string) : Js.trim (Js.trim s) = Js.trim s.
Proof.
  unfold Js.trim.
  now rewrite trimStart_trimEnd, trimStart_idempotent, trimEnd_idempotent.
Qed.

Lemma truthy_true (s : string) : Js.truthy s = true <-> s <> "".
Proof. destruct s; simpl; split; congruence. Qed.

Lemma truthy_false (s : string) : Js.truthy s = false <-> s = "".
Proof. destruct s; simpl; split; congruence. Qed.

(** ** Text Feature/Classifier *)

Lemma overrideChain_lastMatch (rules : list Rule) (init text : string) :
  overrideChain rules init text = lastMatch rules init text.
Proof.
  unfold overrideChain, lastMatch. revert init.
  induction rules as [|r rules IH]; intros init; [reflexivity|].
  simpl. rewrite IH. destruct (matches r text); [|reflexivity].
  rewrite last_cons. now destruct (last _).
Qed.

Lemma formatTag_overrideChain (text : string) :
  formatTag text = overrideChain classifierRules "standard" text.
Proof. reflexivity. Qed.

(** C1. The format tag is the tag of the last rule that matches, in the
    order comparison, milestone, question, list, tip, story, cta, and
    "standard" when no rule matches.  Hence a text with a question mark
    and the word "thread" (in any letter case) that matches no cta phrase
    is tagged "story", not "question"; and the text "Check this thread on
    how to grow followers?" is tagged "story". *)
Theorem formatTag_last_match_wins (text : string) :
  map tag classifierRules
    = ["comparison"; "milestone"; "question"; "list"; "tip"; "story"; "cta"]
  /\ formatTag text = lastMatch classifierRules "standard" text
  /\ (Js.includes "?" text = true ->
      Js.includes "thread" (Js.toLowerCase text) = true ->
      Js.includes "click" (Js.toLowerCase text) = false ->
      Js.includes "link in" (Js.toLowerCase text) = false ->
      formatTag text = "story")
  /\ formatTag "Check this thread on how to grow followers?" = "story".
Proof.
  split; [reflexivity|]. split.
  - rewrite formatTag_overrideChain. apply overrideChain_lastMatch.
  - split; [|reflexivity].
    intros _ Hthread Hclick Hlink. unfold formatTag.
    cbv zeta. now rewrite Hthread, Hclick, Hlink.
Qed.

Lemma formatTag_last_match_wins_witness :
  formatTag "Is this a thread?" = "story".
Proof.
  apply (proj1 (proj2 (proj2 (formatTag_last_match_wins "Is this a thread?"))));
    reflexivity.
Defined.

(** ** Header Normalizer *)

(** C7, at the input "a -b": the hyphen becomes a space after the white
    space has been collapsed, so the result has two spaces in a row, and
    normalizing it again gives another string. *)
Theorem norm_twice_differs :
  norm "a -b" = "a  b"
  /\ norm (norm "a -b") = "a b"
  /\ norm (norm "a -b") <> norm "a -b".
Proof.
  split; [reflexivity | split; [reflexivity|]].
  intros H. vm_compute in H. discriminate H.
Qed.

(** The same ordering leaves a trailing space where the input ends in a
    hyphen or in punctuation that follows a space. *)
Lemma norm_not_trimmed :
  norm "a-" = "a " /\ norm "a !" = "a " /\ Js.trim (norm "a-") <> norm "a-".
Proof.
  split; [reflexivity | split; [reflexivity|]].
  intros H. vm_compute in H. discriminate H.
Qed.

(** What the normalizer does achieve: its output consists of lowercase
    letters, digits, spaces and percent signs only. *)

Lemma replaceRuns_cons (cls : ascii -> bool) (c : ascii) (t : string) :
  Js.replaceRuns cls (String c t)
  = if cls c then
      match t with
      | String d _ =>
          if cls d then Js.replaceRuns cls t
          else String " " (Js.replaceRuns cls t)
      | EmptyString => String " " EmptyString
      end
    else String c (Js.replaceRuns cls t).
Proof. reflexivity. Qed.

Lemma allChars_replaceRuns (P cls : ascii -> bool) (s : string) :
  P " "%char = true -> allChars P s = true ->
  allChars P (Js.replaceRuns cls s) = true.
Proof.
  intros Hsp. induction s as [|c t IH]; intros Hs; [reflexivity|].
  cbn [allChars] in Hs. apply andb_true_iff in Hs as [Hc Ht].
  rewrite replaceRuns_cons. destruct (cls c).
  - destruct t as [|d u]; [cbn; now rewrite Hsp|].
    destruct (cls d); [now apply IH|].
    cbn [allChars]. rewrite Hsp. now apply IH.
  - cbn [allChars]. rewrite Hc. now apply IH.
Qed.

Lemma allChars_replaceRuns_class (cls : ascii -> bool) (s : string) :
  allChars (fun c => negb (cls c) || Ascii.eqb c " ")
           (Js.replaceRuns cls s) = true.
Proof.
  induction s as [|c t IH]; [reflexivity|].
  rewrite replaceRuns_cons. destruct (cls c) eqn:Hc.
  - destruct t as [|d u]; [cbn; now rewrite orb_true_r|].
    destruct (cls d); [exact IH|].
    cbn [allChars]. rewrite IH. now rewrite Ascii.eqb_refl, orb_true_r.
  - cbn [allChars]. now rewrite Hc, IH.
Qed.

Lemma allChars_keepOnly (P keep : ascii -> bool) (s : string) :
  allChars P s = true -> allChars P (Js.keepOnly keep s) = true.
Proof.
  induction s as [|c t IH]; intros Hs; [reflexivity|].
  cbn [allChars] in Hs. apply andb_true_iff in Hs as [Hc Ht].
  cbn [Js.keepOnly]. destruct (keep c); [|now apply IH].
  cbn [allChars]. rewrite Hc. now apply IH.
Qed.

Lemma allChars_keepOnly_kept (keep : ascii -> bool) (s : string) :
  allChars keep (Js.keepOnly keep s) = true.
Proof.
  induction s as [|c t IH]; [reflexivity|].
  cbn [Js.keepOnly]. destruct (keep c) eqn:Hc; [|exact IH].
  cbn [allChars]. now rewrite Hc, IH.
Qed.

Lemma allChars_and (P Q : ascii -> bool) (s : string) :
  allChars P s = true -> allChars Q s = true ->
  allChars (fun c => P c && Q c) s = true.
Proof.
  induction s as [|c t IH]; intros HP HQ; [reflexivity|].
  cbn [allChars] in *.
  apply andb_true_iff in HP as [HPc HPt], HQ as [HQc HQt].
  now rewrite HPc, HQc, IH.
Qed.

Lemma allChars_impl (P Q : ascii -> bool) (s : string) :
  (forall c, P c = true -> Q c = true) ->
  allChars P s = true -> allChars Q s = true.
Proof.
  intros Himp. induction s as [|c t IH]; intros HP; [reflexivity|].
  cbn [allChars] in *. apply andb_true_iff in HP as [HPc HPt].
  now rewrite (Himp c HPc), IH.
Qed.

Lemma allChars_toLowerCase (s : string) :
  allChars (fun c => negb (Js.between 65 90 c)) (Js.toLowerCase s) = true.
Proof.
  induction s as [|c t IH]; [reflexivity|].
  cbn [Js.toLowerCase allChars]. rewrite IH, andb_true_r.
  destruct c as [[] [] [] [] [] [] [] []]; vm_compute; reflexivity.
Qed.

Lemma norm_alphabet (s : string) : allChars isNormChar (norm s) = true.
Proof.
  unfold norm.
  set (low := Js.toLowerCase (Js.trim s)).
  set (spaced := Js.replaceRuns Js.isSpace low).
  set (joined := Js.replaceRuns isUnderscoreOrHyphen spaced).
  assert (H1 : allChars (fun c => negb (Js.between 65 90 c)) joined = true).
  { unfold joined, spaced.
    do 2 (apply allChars_replaceRuns; [reflexivity|]).
    apply allChars_toLowerCase. }
  assert (H2 : allChars (fun c => negb (Js.isSpace c) || Ascii.eqb c " ")
                        joined = true).
  { unfold joined. apply allChars_replaceRuns; [reflexivity|].
    apply allChars_replaceRuns_class. }
  assert (H3 : allChars (fun c => negb (isUnderscoreOrHyphen c) || Ascii.eqb c " ")
                        joined = true).
  { apply allChars_replaceRuns_class. }
  pose proof (allChars_and _ _ _ (allChars_and _ _ _ H1 H2) H3) as H.
  apply (allChars_keepOnly _ isWordSpaceOrPercent) in H.
  pose proof (allChars_and _ _ _ H
                (allChars_keepOnly_kept isWordSpaceOrPercent joined)) as H'.
  revert H'. apply allChars_impl. clear.
  intros c. destruct c as [[] [] [] [] [] [] [] []]; vm_compute;
    intros H; first [reflexivity | discriminate H].
Qed.

(** ** Mapping Validator *)

Lemma size_list_to_set_remove_dups (l : list string) :
  size (list_to_set l : gset string) = length (remove_dups l).
Proof.
  rewrite <- (size_list_to_set (C := gset string) (remove_dups l))
    by apply NoDup_remove_dups.
  f_equal. apply set_eq. intros x.
  now rewrite !elem_of_list_to_set, elem_of_remove_dups.
Qed.

Lemma remove_dups_length_le (l : list string) :
  length (remove_dups l) <= length l.
Proof.
  induction l as [|x l IH]; simpl; [lia|]. case_decide; simpl; lia.
Qed.

Lemma remove_dups_length_eq (l : list string) :
  length (remove_dups l) = length l <-> NoDup l.
Proof.
  induction l as [|x l IH]; simpl.
  - split; [constructor | reflexivity].
  - pose proof (remove_dups_length_le l). case_decide; simpl.
    + split; [lia | intros Hnd; inversion Hnd; contradiction].
    + split.
      * intros Hlen. constructor; [assumption | apply IH; lia].
      * intros Hnd. inversion Hnd; subst. f_equal. now apply IH.
Qed.

(** C4. [requiredOk] holds exactly when postId, text and createdAt each
    have a non-empty chosen header; [hasDuplicates] holds exactly when
    the non-empty chosen headers have fewer distinct values than entries,
    that is, when some header is chosen for two field keys; the mapping
    postId "A", text "A", createdAt "B" has duplicates.  The validator is
    a function of the mapping alone. *)
Theorem mappingCompleteness_spec (mapping : ImportMapping.t) :
  let chosen := List.filter Js.truthy (ImportMapping.values mapping) in
  (requiredOk (mappingCompleteness mapping) = true
   <-> ImportMapping.postId mapping <> ""
       /\ ImportMapping.text mapping <> ""
       /\ ImportMapping.createdAt mapping <> "")
  /\ (hasDuplicates (mappingCompleteness mapping) = true
      <-> length (remove_dups chosen) < length chosen)
  /\ (hasDuplicates (mappingCompleteness mapping) = true <-> ~ NoDup chosen)
  /\ hasDuplicates
       (mappingCompleteness (ImportMapping.mk "A" "A" "B" "" "" "" "" "" "" ""))
     = true.
Proof.
  intros chosen.
  assert (Hdup : hasDuplicates (mappingCompleteness mapping) = true
                 <-> length (remove_dups chosen) <> length chosen).
  { unfold mappingCompleteness. cbn [hasDuplicates]. fold chosen.
    rewrite size_list_to_set_remove_dups, negb_true_iff.
    apply Nat.eqb_neq. }
  split; [|split; [|split]].
  - unfold mappingCompleteness. cbn [requiredOk].
    rewrite !andb_true_iff, !truthy_true. tauto.
  - rewrite Hdup. pose proof (remove_dups_length_le chosen). lia.
  - rewrite Hdup. now rewrite remove_dups_length_eq.
  - vm_compute. reflexivity.
Qed.

Lemma mappingCompleteness_spec_witness :
  hasDuplicates
    (mappingCompleteness (ImportMapping.mk "Id" "Body" "When" "Id" "" "" "" "" "" ""))
  = true.
Proof.
  apply (proj1 (proj2 (mappingCompleteness_spec
           (ImportMapping.mk "Id" "Body" "When" "Id" "" "" "" "" "" "")))).
  vm_compute. lia.
Defined.

(** ** Row Mapper *)

Lemma mapCsvRow_get_cases (row : CsvRow) (mapping : ImportMapping.t)
      (k : ImportFieldKey) :
  let h := ImportMapping.get mapping k in
  mapCsvRow_get row mapping k
  = if String.eqb h "" then None
    else match cell row h with
         | None => None
         | Some v =>
             if String.eqb (Js.trim (stringOf v)) "" then None
             else Some (Js.trim (stringOf v))
         end.
Proof.
  intros h. unfold mapCsvRow_get. fold h.
  destruct h; [reflexivity|]. cbn [Js.truthy negb].
  destruct (cell row _) as [v|]; [|reflexivity].
  now destruct (Js.trim (stringOf v)).
Qed.

Lemma toNumber_finite (raw : option string) (v : number) :
  toNumber raw = Some v -> exists q, v = Finite q.
Proof.
  destruct raw as [s|]; [|discriminate]. unfold toNumber.
  destruct (negb _); [discriminate|].
  destruct (JsNumber.Number _) as [| |q]; cbn [JsNumber.isFinite];
    intros H; inversion H. now exists q.
Qed.

Lemma toNumber_blank (s : string) : Js.trim s = "" -> toNumber (Some s) = None.
Proof. intros H. unfold toNumber. now rewrite H. Qed.

(** A field is null when no header is chosen for it. *)
Lemma mapCsvRow_get_unchosen (row : CsvRow) (mapping : ImportMapping.t)
      (k : ImportFieldKey) :
  ImportMapping.get mapping k = "" -> mapCsvRow_get row mapping k = None.
Proof. intros H. rewrite mapCsvRow_get_cases. cbv zeta. now rewrite H. Qed.

(** Under a chosen header for which the row has a cell of its own, the
    field is the trimmed cell, and null when the cell is blank. *)
Lemma mapCsvRow_get_own (row : CsvRow) (mapping : ImportMapping.t)
      (k : ImportFieldKey) (v : string) :
  ImportMapping.get mapping k <> "" ->
  ownCell row (ImportMapping.get mapping k) = Some v ->
  mapCsvRow_get row mapping k
  = if String.eqb (Js.trim v) "" then None else Some (Js.trim v).
Proof.
  intros Hh Hv. rewrite mapCsvRow_get_cases. cbv zeta.
  apply String.eqb_neq in Hh. rewrite Hh. unfold cell. now rewrite Hv.
Qed.

(** Without a cell of its own under the header "__proto__", the row
    answers with its prototype, and the field is the text of that
    object. *)
Lemma mapCsvRow_get_prototype (row : CsvRow) (mapping : ImportMapping.t)
      (k : ImportFieldKey) :
  ImportMapping.get mapping k = "__proto__" ->
  ownCell row "__proto__" = None ->
  mapCsvRow_get row mapping k = Some "[object Object]".
Proof.
  intros Hh Hown. rewrite mapCsvRow_get_cases. cbv zeta.
  rewrite Hh. unfold cell. now rewrite Hown.
Qed.

(** C6. The Row Mapper and a header that names an inherited member.  The
    row below has no cell under the header "__proto__", which the mapping
    chooses for postId, and a cell "3" under "Likes".  The mapper does not
    return null for postId: [row[h]] is the prototype of the row, which is
    not null, and the field becomes the text "[object Object]".  The
    other fields are as the Row Mapper promises: likes is 3, and the
    fields without a chosen header are null. *)
Theorem mapCsvRow_inherited_member :
  let row := [("Likes", "3")] in
  let mapping := ImportMapping.mk "__proto__" "" "" "Likes" "" "" "" "" "" "" in
  ownCell row "__proto__" = None
  /\ ImportedPostRow.postId (mapCsvRow row mapping) = Some "[object Object]"
  /\ ImportedPostRow.likes (mapCsvRow row mapping) = Some (Finite 3)
  /\ ImportedPostRow.text (mapCsvRow row mapping) = None
  /\ ImportedPostRow.clicks (mapCsvRow row mapping) = None.
Proof.
  cbv zeta. split; [reflexivity|]. split; [reflexivity|].
  split; [vm_compute; reflexivity|]. split; reflexivity.
Qed.

(** ** Field Suggester *)

Lemma find_first {A : Type} (f : A -> bool) (l : list A) (x : A) :
  List.find f l = Some x ->
  exists j, l !! j = Some x /\ f x = true
            /\ forall j' y, j' < j -> l !! j' = Some y -> f y = false.
Proof.
  induction l as [|a l IH]; [discriminate|]. simpl.
  destruct (f a) eqn:Ha.
  - intros H. inversion H; subst. exists 0. repeat split; [assumption|].
    intros j' y Hlt. lia.
  - intros H. destruct (IH H) as (j & Hj & Hx & Hmin).
    exists (S j). repeat split; [assumption..|].
    intros [|j'] y Hlt Hy; simpl in Hy.
    + now inversion Hy; subst.
    + apply (Hmin j'); [lia | assumption].
Qed.

Lemma find_nothing {A : Type} (f : A -> bool) (l : list A) :
  List.find f l = None -> forall y, y ∈ l -> f y = false.
Proof.
  intros H y Hy. apply list_elem_of_In in Hy.
  exact (List.find_none f l H y Hy).
Qed.

Lemma firstHit_Some (test : string -> NHeader -> bool)
      (wanted : list string) (nHeaders : list NHeader) (hit : NHeader) :
  firstHit test wanted nHeaders = Some hit ->
  exists i j w,
    wanted !! i = Some w /\ nHeaders !! j = Some hit /\ test w hit = true
    /\ (forall i' w' h, i' < i -> wanted !! i' = Some w' -> h ∈ nHeaders ->
                        test w' h = false)
    /\ (forall j' h, j' < j -> nHeaders !! j' = Some h -> test w h = false).
Proof.
  induction wanted as [|w wanted IH]; [discriminate|]. simpl.
  destruct (List.find (test w) nHeaders) as [x|] eqn:Hfind.
  - intros H. inversion H; subst.
    destruct (find_first _ _ _ Hfind) as (j & Hj & Hx & Hmin).
    exists 0, j, w. repeat split; [assumption..| |assumption].
    intros i' w' h Hlt. lia.
  - intros H. destruct (IH H) as (i & j & w0 & Hi & Hj & Ht & Hw & Hh).
    exists (S i), j, w0. repeat split; [assumption..| |assumption].
    intros [|i'] w' h Hlt Hw' Hin; simpl in Hw'.
    + inversion Hw'; subst. now apply (find_nothing _ _ Hfind).
    + apply (Hw i' w' h); [lia | assumption..].
Qed.

Lemma firstHit_None (test : string -> NHeader -> bool)
      (wanted : list string) (nHeaders : list NHeader) :
  firstHit test wanted nHeaders = None ->
  forall w h, w ∈ wanted -> h ∈ nHeaders -> test w h = false.
Proof.
  induction wanted as [|w0 wanted IH]; intros H w h Hw Hh.
  - inversion Hw.
  - simpl in H. destruct (List.find (test w0) nHeaders) eqn:Hfind; [discriminate|].
    apply elem_of_cons in Hw as [->|Hw].
    + now apply (find_nothing _ _ Hfind).
    + now apply IH.
Qed.

(** The synonyms of the table are in normal form already. *)
Lemma candidates_normal (field : ImportFieldKey) :
  map norm (candidates field) = candidates field.
Proof. destruct field; vm_compute; reflexivity. Qed.

Lemma exactTest_spec (w : string) (h : string) :
  exactTest w {| raw := h; n := norm h |} = true <-> exactMatch w h.
Proof. unfold exactTest, exactMatch. cbn [n]. apply String.eqb_eq. Qed.

Lemma containsTest_spec (w : string) (h : string) :
  containsTest w {| raw := h; n := norm h |} = true <-> looseMatch w h.
Proof.
  unfold containsTest, looseMatch, occursIn. cbn [n].
  now rewrite orb_true_iff, !includes_occurs.
Qed.

Section FirstHit.

Variables (test : string -> NHeader -> bool) (P : string -> string -> Prop).
Hypothesis test_spec :
  forall w h, test w {| raw := h; n := norm h |} = true <-> P w h.

Let nh (headers : list string) : list NHeader :=
  map (fun h => {| raw := h; n := norm h |}) headers.

Lemma test_false (w h : string) :
  test w {| raw := h; n := norm h |} = false <-> ~ P w h.
Proof. rewrite <- test_spec. now destruct (test _ _). Qed.

Lemma firstHit_firstBy (wanted headers : list string) (hit : NHeader) :
  firstHit test wanted (nh headers) = Some hit ->
  firstBy P wanted headers (raw hit).
Proof.
  intros H. destruct (firstHit_Some _ _ _ _ H)
    as (i & j & w & Hi & Hj & Ht & Hw & Hh).
  unfold nh in Hj. rewrite list_lookup_fmap in Hj.
  destruct (headers !! j) as [h|] eqn:Ehj; [|discriminate].
  simpl in Hj. inversion Hj; subst hit. cbn [raw].
  exists i, j, w. repeat split; [assumption | assumption | now apply test_spec | |].
  - intros i' w' h' Hlt Hw' Hin. apply test_false.
    apply (Hw i' w' _ Hlt Hw'). unfold nh.
    apply list_elem_of_fmap. now exists h'.
  - intros j' h' Hlt Hj'. apply test_false.
    apply (Hh j' _ Hlt). unfold nh. rewrite list_lookup_fmap, Hj'. reflexivity.
Qed.

Lemma firstHit_no_match (wanted headers : list string) :
  firstHit test wanted (nh headers) = None ->
  forall w h, w ∈ wanted -> h ∈ headers -> ~ P w h.
Proof.
  intros H w h Hw Hh. apply test_false.
  apply (firstHit_None _ _ _ H w _ Hw). unfold nh.
  apply list_elem_of_fmap. now exists h.
Qed.

End FirstHit.

(** C5. The suggestion is a header of the input list or the empty
    string.  When some header's normal form equals a synonym, it is the
    first such header for the first synonym that has one (synonym order
    before header order).  Only when no header equals a synonym, it is
    chosen in the same way among the headers whose normal form contains
    the synonym or is contained in it.  When nothing matches, it is the
    empty string. *)
Theorem suggestedHeaderForField_spec
        (field : ImportFieldKey) (headers : list string) :
  let wanted := candidates field in
  let r := suggestedHeaderForField field headers in
  let some_match (P : string -> string -> Prop) :=
    exists w h, w ∈ wanted /\ h ∈ headers /\ P w h in
  (r ∈ headers \/ r = "")
  /\ (some_match exactMatch -> firstBy exactMatch wanted headers r)
  /\ (~ some_match exactMatch -> some_match looseMatch ->
      firstBy looseMatch wanted headers r)
  /\ (~ some_match exactMatch -> ~ some_match looseMatch -> r = "").
Proof.
  intros wanted r some_match.
  unfold r, suggestedHeaderForField. rewrite candidates_normal. fold wanted.
  set (nHeaders := map _ headers).
  destruct (firstHit exactTest wanted nHeaders) as [hit|] eqn:E1.
  - pose proof (firstHit_firstBy _ _ exactTest_spec _ _ _ E1) as HF.
    split; [|split; [|split]].
    + left. destruct HF as (i & j & w & _ & Hj & _).
      apply list_elem_of_lookup. now exists j.
    + intros _. exact HF.
    + intros Hno. exfalso. apply Hno.
      destruct HF as (i & j & w & Hi & Hj & HP & _).
      exists w, (raw hit). repeat split; [| |exact HP].
      * apply list_elem_of_lookup. now exists i.
      * apply list_elem_of_lookup. now exists j.
    + intros Hno. exfalso. apply Hno.
      destruct HF as (i & j & w & Hi & Hj & HP & _).
      exists w, (raw hit). repeat split; [| |exact HP].
      * apply list_elem_of_lookup. now exists i.
      * apply list_elem_of_lookup. now exists j.
  - pose proof (firstHit_no_match _ _ exactTest_spec _ _ E1) as Hnone.
    assert (Hex : ~ some_match exactMatch).
    { intros (w & h & Hw & Hh & HP). exact (Hnone w h Hw Hh HP). }
    destruct (firstHit containsTest wanted nHeaders) as [hit|] eqn:E2.
    + pose proof (firstHit_firstBy _ _ containsTest_spec _ _ _ E2) as HF.
      split; [|split; [|split]].
      * left. destruct HF as (i & j & w & _ & Hj & _).
        apply list_elem_of_lookup. now exists j.
      * intros H. contradiction.
      * intros _ _. exact HF.
      * intros _ Hno. exfalso. apply Hno.
        destruct HF as (i & j & w & Hi & Hj & HP & _).
        exists w, (raw hit). repeat split; [| |exact HP].
        -- apply list_elem_of_lookup. now exists i.
        -- apply list_elem_of_lookup. now exists j.
    + pose proof (firstHit_no_match _ _ containsTest_spec _ _ E2) as Hnone2.
      split; [|split; [|split]].
      * now right.
      * intros H. contradiction.
      * intros _ (w & h & Hw & Hh & HP). exfalso. exact (Hnone2 w h Hw Hh HP).
      * reflexivity.
Qed.

Lemma suggestedHeaderForField_spec_witness :
  firstBy exactMatch (candidates Key.postId) ["Tweet"; "ID"; "Post Id"]
          (suggestedHeaderForField Key.postId ["Tweet"; "ID"; "Post Id"]).
Proof.
  apply (proj1 (proj2
           (suggestedHeaderForField_spec Key.postId ["Tweet"; "ID"; "Post Id"]))).
  exists "id", "ID". repeat split.
  - apply list_elem_of_In. vm_compute. tauto.
  - apply list_elem_of_In. vm_compute. tauto.
Defined.

(** ** CSV Parser Adapter *)

Lemma handleFile_errors (name : string) (result : ParseResult)
      (st : ImporterState) (e : ParseError) (es : list ParseError) :
  errors result = e :: es ->
  handleFile name (Completed result) st
  = {| fileName := Some name; headers := []; rows := [];
       mapping := emptyMapping;
       parseError := Some (default "CSV parse failed" (message e));
       importResult := status_idle |}.
Proof. intros He. unfold handleFile, complete. now rewrite He. Qed.

Lemma handleFile_no_headers (name : string) (result : ParseResult)
      (st : ImporterState) :
  errors result = [] -> parsedHeaders result = [] ->
  handleFile name (Completed result) st
  = {| fileName := Some name; headers := []; rows := [];
       mapping := emptyMapping;
       parseError :=
         Some "No headers detected. Ensure the first row contains column names.";
       importResult := status_idle |}.
Proof. intros He Hh. unfold handleFile, complete. now rewrite He, Hh. Qed.

Lemma handleFile_headers (name : string) (result : ParseResult)
      (st : ImporterState) :
  errors result = [] -> parsedHeaders result <> [] ->
  handleFile name (Completed result) st
  = {| fileName := Some name; headers := parsedHeaders result;
       rows := parsedRows result;
       mapping :=
         fold_left
           (fun m f => ImportMapping.set m f
                         (suggestedHeaderForField f (parsedHeaders result)))
           EXPECTED_FIELDS emptyMapping;
       parseError := None; importResult := status_idle |}.
Proof.
  intros He Hh. unfold handleFile, complete. rewrite He.
  now destruct (parsedHeaders result).
Qed.

(** C8. [handleFile] ends in a parse error, with no headers and no rows,
    when the parser reports at least one error (the message of the first
    one is kept) or when no header is detected; otherwise it succeeds with
    the detected headers and the non-empty rows.  In particular a result
    with headers and no data rows succeeds with an empty row sequence.  A
    failure that the parser reports through its [error] callback is a
    parse error as well. *)
Theorem handleFile_outcome (name : string) (result : ParseResult)
        (st : ImporterState) :
  let st' := handleFile name (Completed result) st in
  (forall e es, errors result = e :: es ->
     parseOutcome st' = inl (default "CSV parse failed" (message e))
     /\ headers st' = [] /\ rows st' = [])
  /\ (errors result = [] -> parsedHeaders result = [] ->
      parseOutcome st'
      = inl "No headers detected. Ensure the first row contains column names."
      /\ headers st' = [] /\ rows st' = [])
  /\ (errors result = [] -> parsedHeaders result <> [] ->
      parseOutcome st' = inr (parsedHeaders result, parsedRows result))
  /\ (forall fields, errors result = [] -> data result = [] ->
        meta_fields result = Some fields ->
        List.filter Js.truthy fields <> [] ->
        parseOutcome st' = inr (List.filter Js.truthy fields, []))
  /\ ((exists e, parseOutcome st' = inl e)
      <-> errors result <> [] \/ parsedHeaders result = [])
  /\ (forall e, parseOutcome (handleFile name (Errored e) st)
                = inl (default "CSV parse failed" (message e))).
Proof.
  intros st'.
  split; [|split; [|split; [|split; [|split]]]]; [| | | | |reflexivity].
  - intros e es He. unfold st'. now rewrite (handleFile_errors _ _ _ e es He).
  - intros He Hh. unfold st'. now rewrite (handleFile_no_headers _ _ _ He Hh).
  - intros He Hh. unfold st'. now rewrite (handleFile_headers _ _ _ He Hh).
  - intros fields He Hd Hm Hne.
    assert (Hh : parsedHeaders result = List.filter Js.truthy fields).
    { unfold parsedHeaders. now rewrite Hm. }
    unfold st'. rewrite (handleFile_headers _ _ _ He); [|now rewrite Hh].
    cbn. unfold parsedRows. now rewrite Hh, Hd.
  - unfold st'. destruct (errors result) as [|e es] eqn:He.
    + destruct (parsedHeaders result) as [|h hs] eqn:Hh.
      * rewrite (handleFile_no_headers _ _ _ He Hh). cbn. split; eauto.
      * rewrite (handleFile_headers _ _ _ He); [|now rewrite Hh]. cbn.
        split; [intros [e H]; discriminate | intros [H|H]; congruence].
    + rewrite (handleFile_errors _ _ _ e es He). cbn.
      split; [intros _; now left | eauto].
Qed.

Lemma handleFile_outcome_witness :
  parseOutcome
    (handleFile "posts.csv"
       (Completed {| errors := []; data := [];
                     meta_fields := Some ["Tweet id"; "Text"] |})
       {| fileName := None; headers := []; rows := [];
          mapping := emptyMapping; parseError := None; importResult := status_idle |})
  = inr (["Tweet id"; "Text"], []).
Proof.
  pose proof (handleFile_outcome "posts.csv"
    {| errors := []; data := []; meta_fields := Some ["Tweet id"; "Text"] |}
    {| fileName := None; headers := []; rows := [];
       mapping := emptyMapping; parseError := None; importResult := status_idle |})
    as H.
  cbv zeta in H. destruct H as (_ & _ & _ & H & _).
  apply (H ["Tweet id"; "Text"]); [reflexivity..|discriminate].
Defined.

(** ** The datastore monad *)

Lemma bind_run {A B : Type} (m : M A) (f : A -> M B) (w : World) :
  (m ≫= f) w
  = match m w with
    | (Returned a, w') => f a w'
    | (Threw e, w') => (Threw e, w')
    end.
Proof. reflexivity. Qed.

Lemma ret_run {A : Type} (a : A) (w : World) :
  (mret a : M A) w = (Returned a, w).
Proof. reflexivity. Qed.

Lemma tryCatch_run {A : Type} (body : M A) (handler : Thrown -> M A) (w : World) :
  tryCatch body handler w
  = match body w with
    | (Returned a, w') => (Returned a, w')
    | (Threw e, w') => handler e w'
    end.
Proof. reflexivity. Qed.

Lemma world_ext (a b : World) :
  users a = users b -> imports a = imports b -> posts a = posts b ->
  metricsSnapshots a = metricsSnapshots b ->
  recomputeRuns a = recomputeRuns b -> nextId a = nextId b ->
  now a = now b -> console a = console b -> faults a = faults b ->
  a = b.
Proof. destruct a, b; simpl; intros; subst; reflexivity. Qed.

Ltac wsimpl :=
  cbn [users imports posts metricsSnapshots recomputeRuns nextId now console
       faults set_users set_imports set_posts set_metricsSnapshots
       set_recomputeRuns set_nextId set_console set_faults] in *.

Lemma planAt_tail (plan : list (option Thrown)) (i : nat) :
  planAt (tail plan) i = planAt plan (S i).
Proof. unfold planAt. now destruct plan. Qed.

Lemma planAt_drop (plan : list (option Thrown)) (k i : nat) :
  planAt (drop k plan) i = planAt plan (k + i).
Proof. unfold planAt. now rewrite lookup_drop. Qed.

Lemma planAt_nil (i : nat) : planAt [] i = None.
Proof. reflexivity. Qed.

Lemma drop_tail {A : Type} (k : nat) (l : list A) :
  drop k (tail l) = drop (S k) l.
Proof. destruct l; simpl; [now destruct k | reflexivity]. Qed.

Lemma tail_drop {A : Type} (k : nat) (l : list A) :
  tail (drop k l) = drop (S k) l.
Proof.
  revert l. induction k as [|k IH]; intros [|a l]; try reflexivity.
  exact (IH l).
Qed.

Lemma calm_weaken (n m : nat) (w : World) : m <= n -> calm n w -> calm m w.
Proof. intros Hle H i Hi. apply H. lia. Qed.

Lemma calm_no_faults (n : nat) (w : World) : faults w = [] -> calm n w.
Proof. intros H i _. now rewrite H. Qed.

Lemma datastore_run {A : Type} (op : M A) (w : World) :
  planAt (faults w) 0 = None ->
  datastore op w = op (set_faults (tail (faults w)) w).
Proof. intros H. unfold datastore. now rewrite H. Qed.

Lemma datastore_throw {A : Type} (op : M A) (w : World) (e : Thrown) :
  planAt (faults w) 0 = Some e ->
  datastore op w = (Threw e, set_faults (tail (faults w)) w).
Proof. intros H. unfold datastore. now rewrite H. Qed.

(** ** Batches *)

Lemma forEach_app {A S : Type} (body : A -> S -> M S) (l1 l2 : list A)
      (s : S) (w : World) :
  forEach body (l1 ++ l2) s w
  = (forEach body l1 s ≫= forEach body l2) w.
Proof.
  revert s w. induction l1 as [|x l1 IH]; intros s w; [reflexivity|].
  simpl. rewrite !bind_run. destruct (body x s w) as [[a|e] w']; [|reflexivity].
  rewrite IH. now rewrite bind_run.
Qed.

(** When the calls of a batch, taken one after the other, all return, the
    batch returns what they return. *)
Lemma settleAll_returned {A S : Type} (body : A -> S -> M S) (items : list A) :
  forall (s s' : S) (w w' : World) (rejected : option Thrown),
    forEach body items s w = (Returned s', w') ->
    settleAll body items s rejected w
    = match rejected with
      | None => (Returned s', w')
      | Some e => (Threw e, w')
      end.
Proof.
  induction items as [|x rest IH]; intros s s' w w' rejected H.
  - cbn in H. rewrite ret_run in H. injection H as <- <-. reflexivity.
  - cbn [forEach] in H. rewrite bind_run in H. cbn [settleAll].
    destruct (body x s w) as [[s1|e] w1]; [|discriminate H].
    now apply IH.
Qed.

Lemma promiseAll_batches {A S : Type} (body : A -> S -> M S)
      (ls : list (list A)) :
  forall (s s' : S) (w w' : World),
    forEach body (concat ls) s w = (Returned s', w') ->
    forEach (fun batch => promiseAll body batch) ls s w = (Returned s', w').
Proof.
  induction ls as [|l ls IH]; intros s s' w w' H; [exact H|].
  cbn [concat] in H. rewrite forEach_app, bind_run in H.
  cbn [forEach]. rewrite bind_run.
  destruct (forEach body l s w) as [[s1|e] w1] eqn:El; [|discriminate H].
  unfold promiseAll. rewrite (settleAll_returned _ _ _ _ _ _ None El).
  now apply IH.
Qed.

Lemma batchesFrom_concat (size fuel : nat) (rows : list ImportedPostRow.t) :
  0 < size -> length rows <= fuel ->
  concat (batchesFrom fuel size rows) = rows.
Proof.
  intros Hsize. revert rows.
  induction fuel as [|fuel IH]; intros rows Hlen.
  - destruct rows; [reflexivity | simpl in Hlen; lia].
  - destruct rows as [|r rows]; [reflexivity|].
    cbn [batchesFrom concat]. rewrite IH.
    + apply take_drop.
    + rewrite length_drop. simpl in *. lia.
Qed.

Lemma batches_concat (rows : list ImportedPostRow.t) :
  concat (batches BATCH_SIZE rows) = rows.
Proof. apply batchesFrom_concat; [unfold BATCH_SIZE; lia | lia]. Qed.

(** Every batch has at most [BATCH_SIZE] rows. *)
Lemma batches_size (rows batch : list ImportedPostRow.t) :
  batch ∈ batches BATCH_SIZE rows -> length batch <= BATCH_SIZE.
Proof.
  unfold batches. generalize (length rows) as fuel. intros fuel. revert rows.
  induction fuel as [|fuel IH]; intros rows H.
  - destruct rows; inversion H.
  - destruct rows as [|r rows]; [inversion H|].
    cbn [batchesFrom] in H. apply elem_of_cons in H as [->|H].
    + rewrite length_take. lia.
    + exact (IH _ H).
Qed.

(** ** The row loop *)

Section RowLoop.

Variable parseDate : string -> option Z.

Lemma acceptedAs_accepted (row : ImportedPostRow.t) :
  accepted parseDate row = true <-> is_Some (acceptedAs parseDate row).
Proof.
  unfold accepted, skipped, postIdAbsent, createdAtAbsent, createdAtInvalid,
    acceptedAs.
  destruct (ImportedPostRow.postId row) as [p|],
           (ImportedPostRow.createdAt row) as [c|];
    try destruct (Js.truthy (Js.trim p));
    try destruct (Js.truthy c);
    try destruct (parseDate c);
    cbn;
    (split;
     [ intros H; first [discriminate H | eauto]
     | intros [v H]; first [discriminate H | reflexivity] ]).
Qed.

Lemma acceptedAs_None (row : ImportedPostRow.t) :
  acceptedAs parseDate row = None <-> skipped parseDate row = true.
Proof.
  pose proof (acceptedAs_accepted row) as H. unfold accepted in H.
  destruct (skipped parseDate row), (acceptedAs parseDate row) as [v|];
    cbn in H.
  - split; [discriminate|]. intros _.
    assert (Hf : false = true) by (apply H; eauto). discriminate Hf.
  - split; reflexivity.
  - split; discriminate.
  - split; [|discriminate]. intros _.
    destruct (proj1 H eq_refl) as [v Hv]. discriminate Hv.
Qed.

Lemma processRow_eq (user : User.t) (imp : ImportRecord.t)
      (row : ImportedPostRow.t) (acc : list MetricsSnapshot.t) :
  processRow parseDate user imp row acc
  = match acceptedAs parseDate row with
    | Some (x, t) =>
        post ← prisma.post_upsert x
                 (postUpdate (default "" (ImportedPostRow.text row)) t)
                 (postCreate user x (default "" (ImportedPostRow.text row)) t);
        mret (acc ++ [snapshotOf post imp row])
    | None => mret acc
    end.
Proof.
  unfold processRow, acceptedAs.
  destruct (ImportedPostRow.postId row) as [p|],
           (ImportedPostRow.createdAt row) as [c|]; cbn; try reflexivity.
  destruct (Js.truthy (Js.trim p)), (Js.truthy c); cbn; try reflexivity.
  now destruct (parseDate c).
Qed.

Lemma post_upsert_run (key : string) (update : Post.t -> Post.t)
      (create : nat -> Post.t) (w : World) :
  planAt (faults w) 0 = None ->
  prisma.post_upsert key update create w
  = let '(p, table, fresh) :=
      prisma.upsertPost key update create (posts w) (nextId w) in
    (Returned p,
     mkWorld (users w) (imports w) table (metricsSnapshots w)
             (recomputeRuns w) fresh (now w) (console w) (tail (faults w))).
Proof.
  intros H. unfold prisma.post_upsert. rewrite (datastore_run _ _ H). wsimpl.
  now destruct (prisma.upsertPost _ _ _ _ _) as [[p table] fresh].
Qed.

Lemma calls_cons (row : ImportedPostRow.t) (rows : list ImportedPostRow.t) :
  calls parseDate (row :: rows)
  = (if accepted parseDate row then 1 else 0) + calls parseDate rows.
Proof. unfold calls. simpl. now destruct (accepted parseDate row). Qed.

Lemma forEach_processRow (user : User.t) (imp : ImportRecord.t)
      (rows : list ImportedPostRow.t) :
  forall (acc : list MetricsSnapshot.t) (w : World),
    calm (calls parseDate rows) w ->
    forEach (processRow parseDate user imp) rows acc w
    = let st := runRows parseDate user imp rows
                  {| loop_posts := posts w; loop_nextId := nextId w;
                     loop_snapshots := acc |} in
      (Returned (loop_snapshots st),
       mkWorld (users w) (imports w) (loop_posts st) (metricsSnapshots w)
               (recomputeRuns w) (loop_nextId st) (now w) (console w)
               (drop (calls parseDate rows) (faults w))).
Proof.
  induction rows as [|row rows IH]; intros acc w Hcalm.
  - cbn. f_equal. now destruct w.
  - cbn [forEach runRows]. rewrite bind_run, processRow_eq.
    rewrite calls_cons in Hcalm |- *.
    destruct (acceptedAs parseDate row) as [[x t]|] eqn:Ea.
    + assert (Hacc : accepted parseDate row = true).
      { apply acceptedAs_accepted. rewrite Ea. eauto. }
      rewrite Hacc in Hcalm |- *.
      rewrite bind_run, post_upsert_run by (apply Hcalm; lia).
      destruct (prisma.upsertPost _ _ _ _ _) as [[p table] fresh].
      rewrite ret_run. rewrite IH.
      * cbn. f_equal. f_equal. apply drop_tail.
      * intros i Hi. cbn. rewrite planAt_tail. apply Hcalm. lia.
    + assert (Hacc : accepted parseDate row = false).
      { apply acceptedAs_None in Ea. unfold accepted. now rewrite Ea. }
      rewrite Hacc in Hcalm |- *. rewrite ret_run. now rewrite IH.
Qed.

(** The snapshots of the loop: the earlier ones, then one for each accepted
    row, in row order. *)
Lemma runRows_snapshots (user : User.t) (imp : ImportRecord.t)
      (rows : list ImportedPostRow.t) :
  forall st : Loop,
    exists new,
      loop_snapshots (runRows parseDate user imp rows st)
      = loop_snapshots st ++ new
      /\ Forall2 (fun row s => exists p, s = snapshotOf p imp row)
                 (List.filter (accepted parseDate) rows) new.
Proof.
  induction rows as [|row rows IH]; intros st.
  - exists []. cbn. split; [now rewrite app_nil_r | constructor].
  - cbn [runRows List.filter].
    destruct (acceptedAs parseDate row) as [[x t]|] eqn:Ea.
    + assert (Hacc : accepted parseDate row = true).
      { apply acceptedAs_accepted. rewrite Ea. eauto. }
      rewrite Hacc.
      destruct (prisma.upsertPost _ _ _ _ _) as [[p table] fresh].
      destruct (IH {| loop_posts := table; loop_nextId := fresh;
                      loop_snapshots := loop_snapshots st ++ [snapshotOf p imp row] |})
        as (new & Hnew & Hall).
      exists (snapshotOf p imp row :: new). split.
      * rewrite Hnew. cbn. now rewrite <- app_assoc.
      * constructor; [now exists p | assumption].
    + assert (Hacc : accepted parseDate row = false).
      { apply acceptedAs_None in Ea. unfold accepted. now rewrite Ea. }
      rewrite Hacc. apply IH.
Qed.

Lemma runRows_nextId (user : User.t) (imp : ImportRecord.t)
      (rows : list ImportedPostRow.t) :
  forall st : Loop,
    loop_nextId st <= loop_nextId (runRows parseDate user imp rows st).
Proof.
  induction rows as [|row rows IH]; intros st; [cbn; lia|].
  cbn [runRows]. destruct (acceptedAs parseDate row) as [[x t]|]; [|apply IH].
  unfold prisma.upsertPost. destruct (List.find _ _).
  - apply (IH {| loop_posts := _; loop_nextId := _; loop_snapshots := _ |}).
  - etransitivity; [|apply (IH {| loop_posts := _; loop_nextId := _; loop_snapshots := _ |})].
    cbn. lia.
Qed.

End RowLoop.

(** ** The import before the recompute *)

Section ImportPhase.

Variable parseDate : string -> option Z.

Lemma consoleLog_run (line : string) (w : World) :
  consoleLog line w = (Returned tt, set_console (console w ++ [line]) w).
Proof. reflexivity. Qed.

Lemma user_upsert_run (w : World) :
  planAt (faults w) 0 = None ->
  prisma.user_upsert "default" "America/Chicago" w
  = (Returned (importUser w),
     mkWorld (usersAfter w) (imports w) (posts w) (metricsSnapshots w)
             (recomputeRuns w) (idAfterUser w) (now w) (console w)
             (tail (faults w))).
Proof.
  intros H. unfold prisma.user_upsert. rewrite (datastore_run _ _ H). wsimpl.
  unfold importUser, usersAfter, idAfterUser, isDefaultUser.
  destruct (List.find _ (users w)); reflexivity.
Qed.

Lemma importUser_console (c : list string) (w : World) :
  importUser (set_console c w) = importUser w.
Proof. reflexivity. Qed.

Lemma idAfterUser_console (c : list string) (w : World) :
  idAfterUser (set_console c w) = idAfterUser w.
Proof. reflexivity. Qed.

Lemma usersAfter_console (c : list string) (w : World) :
  usersAfter (set_console c w) = usersAfter w.
Proof. reflexivity. Qed.

Lemma import_create_run (user_id : nat) (filename : string) (row_count : nat)
      (source_label : string) (w : World) :
  planAt (faults w) 0 = None ->
  prisma.import_create user_id filename row_count source_label w
  = (Returned (ImportRecord.mk (nextId w) user_id filename row_count
                               source_label (now w)),
     mkWorld (users w)
             (imports w ++ [ImportRecord.mk (nextId w) user_id filename
                                            row_count source_label (now w)])
             (posts w) (metricsSnapshots w) (recomputeRuns w) (S (nextId w))
             (now w) (console w) (tail (faults w))).
Proof.
  intros H. unfold prisma.import_create. now rewrite (datastore_run _ _ H).
Qed.

Lemma createMany_run (data : list MetricsSnapshot.t) (w : World) :
  planAt (faults w) 0 = None ->
  prisma.metricsSnapshot_createMany data w
  = (Returned tt,
     mkWorld (users w) (imports w) (posts w) (metricsSnapshots w ++ data)
             (recomputeRuns w) (nextId w) (now w) (console w)
             (tail (faults w))).
Proof.
  intros H. unfold prisma.metricsSnapshot_createMany.
  now rewrite (datastore_run _ _ H).
Qed.

Lemma loopOf_length (data : ImportData) (w : World) :
  length (loop_snapshots (loopOf parseDate data w))
  = calls parseDate (data_rows data).
Proof.
  unfold loopOf.
  destruct (runRows_snapshots parseDate (importUser w)
              (importRecordOf data w) (data_rows data)
              {| loop_posts := posts w; loop_nextId := S (idAfterUser w);
                 loop_snapshots := [] |}) as (new & Hnew & Hall).
  rewrite Hnew. cbn. symmetry. exact (Forall2_length _ _ _ Hall).
Qed.

Lemma saveImportedPosts_phases (data : ImportData) (w : World) :
  calm (importCalls parseDate (data_rows data)) w ->
  saveImportedPosts parseDate data w
  = match recomputeAnalytics (afterImport parseDate data w) with
    | (Returned _, w2) =>
        (Returned (ImportOk (ImportRecord.id (importRecordOf data w))),
         set_console
           (console w2 ++
            [successLine (length (loop_snapshots (loopOf parseDate data w)))])
           w2)
    | (Threw e, w2) =>
        (Returned (ImportFailed (messageOf e)),
         set_console (console w2 ++ ["Import error: " +:+ messageOf e]) w2)
    end.
Proof.
  intros Hcalm. unfold importCalls in Hcalm.
  pose proof (loopOf_length data w) as Hlen.
  unfold saveImportedPosts. rewrite tryCatch_run.
  rewrite bind_run, consoleLog_run. fold (startLine data).
  rewrite bind_run, user_upsert_run by (wsimpl; apply Hcalm; lia).
  rewrite bind_run, import_create_run
    by (wsimpl; rewrite planAt_tail; apply Hcalm; lia).
  rewrite bind_run.
  erewrite promiseAll_batches
    by (rewrite batches_concat; apply forEach_processRow;
        intros i Hi; wsimpl; rewrite !planAt_tail; apply Hcalm; lia).
  wsimpl. cbv zeta.
  rewrite !importUser_console, !idAfterUser_console, !usersAfter_console.
  fold (importFilename data). fold (importRecordOf data w).
  fold (loopOf parseDate data w).
  rewrite bind_run.
  destruct (Nat.ltb 0 (length (loop_snapshots (loopOf parseDate data w))))
    eqn:Hpos.
  - apply Nat.ltb_lt in Hpos.
    destruct (Nat.eqb_spec (calls parseDate (data_rows data)) 0); [lia|].
    rewrite createMany_run
      by (wsimpl; rewrite planAt_drop, !planAt_tail; apply Hcalm; lia).
    wsimpl. rewrite bind_run.
    match goal with
    | |- context [recomputeAnalytics ?W] =>
        replace W with (afterImport parseDate data w)
    end.
    + now destruct (recomputeAnalytics _) as [[r|err] w2].
    + unfold afterImport, importCalls. f_equal.
      destruct (Nat.eqb_spec (calls parseDate (data_rows data)) 0); [lia|].
      rewrite !drop_tail, tail_drop. f_equal. lia.
  - apply Nat.ltb_ge in Hpos.
    destruct (Nat.eqb_spec (calls parseDate (data_rows data)) 0); [|lia].
    rewrite ret_run, bind_run.
    match goal with
    | |- context [recomputeAnalytics ?W] =>
        replace W with (afterImport parseDate data w)
    end.
    + now destruct (recomputeAnalytics _) as [[r|err] w2].
    + unfold afterImport, importCalls.
      assert (Hnil : loop_snapshots (loopOf parseDate data w) = []).
      { destruct (loop_snapshots _); [reflexivity | simpl in Hpos; lia]. }
      rewrite Hnil, app_nil_r. f_equal.
      destruct (Nat.eqb_spec (calls parseDate (data_rows data)) 0); [|lia].
      rewrite !drop_tail. f_equal. lia.
Qed.

End ImportPhase.

(** ** The recompute collaborator *)

Lemma newDate_run (w : World) : newDate w = (Returned (now w), w).
Proof. reflexivity. Qed.

Lemma find_app_last {A : Type} (f : A -> bool) (l : list A) (x : A) :
  f x = true -> exists y, List.find f (l ++ [x]) = Some y.
Proof.
  intros Hx. induction l as [|a l IH]; simpl.
  - rewrite Hx. eauto.
  - destruct (f a); eauto.
Qed.

Lemma recomputeRun_create_run (status : RunStatus) (started_at : Z) (w : World) :
  planAt (faults w) 0 = None ->
  prisma.recomputeRun_create status started_at w
  = (Returned (RecomputeRun.mk (nextId w) status started_at None None),
     mkWorld (users w) (imports w) (posts w) (metricsSnapshots w)
             (recomputeRuns w
              ++ [RecomputeRun.mk (nextId w) status started_at None None])
             (S (nextId w)) (now w) (console w) (tail (faults w))).
Proof.
  intros H. unfold prisma.recomputeRun_create. now rewrite (datastore_run _ _ H).
Qed.

Lemma recomputeRun_update_run (id : nat) (update : RecomputeRun.t -> RecomputeRun.t)
      (w : World) (r : RecomputeRun.t) :
  planAt (faults w) 0 = None ->
  List.find (fun r => Nat.eqb (RecomputeRun.id r) id) (recomputeRuns w) = Some r ->
  prisma.recomputeRun_update id update w
  = (Returned (update r),
     mkWorld (users w) (imports w) (posts w) (metricsSnapshots w)
             (prisma.markRun id update (recomputeRuns w))
             (nextId w) (now w) (console w) (tail (faults w))).
Proof.
  intros H Hfind. unfold prisma.recomputeRun_update.
  rewrite (datastore_run _ _ H). wsimpl. now rewrite Hfind.
Qed.

Lemma markRun_last (id : nat) (update : RecomputeRun.t -> RecomputeRun.t)
      (table : list RecomputeRun.t) (r : RecomputeRun.t) :
  RecomputeRun.id r = id ->
  prisma.markRun id update (table ++ [r])
  = prisma.markRun id update table ++ [update r].
Proof.
  intros Hid. unfold prisma.markRun. rewrite map_app. cbn.
  now rewrite Hid, Nat.eqb_refl.
Qed.

Lemma markRun_length (id : nat) (update : RecomputeRun.t -> RecomputeRun.t)
      (table : list RecomputeRun.t) :
  length (prisma.markRun id update table) = length table.
Proof. unfold prisma.markRun. now rewrite length_map. Qed.

(** Where every identifier of the table is below the counter, the update
    of the run just created touches no earlier run. *)
Lemma markRun_fresh (id : nat) (update : RecomputeRun.t -> RecomputeRun.t)
      (table : list RecomputeRun.t) :
  Forall (fun r => RecomputeRun.id r < id) table ->
  prisma.markRun id update table = table.
Proof.
  induction 1 as [|r table Hr _ IH]; [reflexivity|]. cbn.
  destruct (Nat.eqb_spec (RecomputeRun.id r) id); [lia|].
  f_equal. exact IH.
Qed.

(** Both datastore calls of the recompute succeed. *)
Lemma recomputeAnalytics_ok (w : World) :
  calm 2 w ->
  recomputeAnalytics w
  = (Returned (RecomputeOk (nextId w)),
     mkWorld (users w) (imports w) (posts w) (metricsSnapshots w)
       (prisma.markRun (nextId w) (runSucceeded (now w)) (recomputeRuns w)
        ++ [RecomputeRun.mk (nextId w) SUCCESS (now w) (Some (now w)) None])
       (S (nextId w)) (now w)
       (console w ++ ["[Analytics] Starting recompute..."]
        ++ ["[Analytics] Recompute finished successfully in "
            +:+ pretty (now w - now w)%Z +:+ "ms"])
       (drop 2 (faults w))).
Proof.
  intros Hcalm. unfold recomputeAnalytics.
  rewrite bind_run, consoleLog_run.
  rewrite bind_run, newDate_run. wsimpl.
  rewrite bind_run, recomputeRun_create_run by (wsimpl; apply Hcalm; lia).
  wsimpl. rewrite tryCatch_run. rewrite bind_run, newDate_run. wsimpl.
  cbn [RecomputeRun.id].
  destruct (find_app_last (fun r => Nat.eqb (RecomputeRun.id r) (nextId w))
              (recomputeRuns w)
              (RecomputeRun.mk (nextId w) STARTED (now w) None None))
    as [r0 Hr0]; [apply Nat.eqb_refl|].
  rewrite bind_run.
  rewrite (recomputeRun_update_run _ _ _ r0)
    by (wsimpl; first [exact Hr0 | rewrite planAt_tail; apply Hcalm; lia]).
  wsimpl. rewrite bind_run, newDate_run. wsimpl.
  rewrite bind_run, consoleLog_run, ret_run. wsimpl.
  rewrite markRun_last by reflexivity. rewrite <- app_assoc.
  f_equal. f_equal. now destruct (faults w) as [|? [|? ?]].
Qed.

(** The creation of the STARTED run succeeds, the update to SUCCESS throws
    [e], and the update to FAILED succeeds. *)
Lemma recomputeAnalytics_failed (w : World) (e : Thrown) :
  planAt (faults w) 0 = None ->
  planAt (faults w) 1 = Some e ->
  planAt (faults w) 2 = None ->
  recomputeAnalytics w
  = (Returned (RecomputeFailed (messageOf e)),
     mkWorld (users w) (imports w) (posts w) (metricsSnapshots w)
       (prisma.markRun (nextId w) (runFailed (messageOf e) (now w))
                       (recomputeRuns w)
        ++ [RecomputeRun.mk (nextId w) FAILED (now w) (Some (now w))
                            (Some (messageOf e))])
       (S (nextId w)) (now w)
       (console w ++ ["[Analytics] Starting recompute..."]
        ++ ["[Analytics] Recompute failed: " +:+ messageOf e])
       (drop 3 (faults w))).
Proof.
  intros H0 H1 H2. unfold recomputeAnalytics.
  rewrite bind_run, consoleLog_run.
  rewrite bind_run, newDate_run. wsimpl.
  rewrite bind_run, recomputeRun_create_run by (wsimpl; exact H0).
  wsimpl. rewrite tryCatch_run. rewrite bind_run, newDate_run. wsimpl.
  cbn [RecomputeRun.id].
  rewrite bind_run. unfold prisma.recomputeRun_update at 1.
  rewrite (datastore_throw _ _ e) by (wsimpl; now rewrite planAt_tail).
  wsimpl.
  rewrite bind_run, consoleLog_run. cbv zeta.
  rewrite bind_run, newDate_run. wsimpl.
  destruct (find_app_last (fun r => Nat.eqb (RecomputeRun.id r) (nextId w))
              (recomputeRuns w)
              (RecomputeRun.mk (nextId w) STARTED (now w) None None))
    as [r0 Hr0]; [apply Nat.eqb_refl|].
  rewrite bind_run.
  rewrite (recomputeRun_update_run _ _ _ r0)
    by (wsimpl; first [exact Hr0 | now rewrite !planAt_tail]).
  wsimpl. rewrite ret_run.
  rewrite markRun_last by reflexivity. rewrite <- app_assoc.
  f_equal. f_equal. now destruct (faults w) as [|? [|? [|? ?]]].
Qed.

(** The creation of the STARTED run succeeds, the update to SUCCESS throws,
    and the update to FAILED throws [e]: the recompute throws [e] and the
    run stays STARTED. *)
Lemma recomputeAnalytics_stuck (w : World) (e1 e2 : Thrown) :
  planAt (faults w) 0 = None ->
  planAt (faults w) 1 = Some e1 ->
  planAt (faults w) 2 = Some e2 ->
  recomputeAnalytics w
  = (Threw e2,
     mkWorld (users w) (imports w) (posts w) (metricsSnapshots w)
       (recomputeRuns w
        ++ [RecomputeRun.mk (nextId w) STARTED (now w) None None])
       (S (nextId w)) (now w)
       (console w ++ ["[Analytics] Starting recompute..."]
        ++ ["[Analytics] Recompute failed: " +:+ messageOf e1])
       (drop 3 (faults w))).
Proof.
  intros H0 H1 H2. unfold recomputeAnalytics.
  rewrite bind_run, consoleLog_run.
  rewrite bind_run, newDate_run. wsimpl.
  rewrite bind_run, recomputeRun_create_run by (wsimpl; exact H0).
  wsimpl. rewrite tryCatch_run. rewrite bind_run, newDate_run. wsimpl.
  cbn [RecomputeRun.id].
  rewrite bind_run. unfold prisma.recomputeRun_update at 1.
  rewrite (datastore_throw _ _ e1) by (wsimpl; now rewrite planAt_tail).
  wsimpl.
  rewrite bind_run, consoleLog_run. cbv zeta.
  rewrite bind_run, newDate_run. wsimpl.
  rewrite bind_run. unfold prisma.recomputeRun_update.
  rewrite (datastore_throw _ _ e2) by (wsimpl; now rewrite !planAt_tail).
  wsimpl. rewrite <- app_assoc.
  f_equal. f_equal. now destruct (faults w) as [|? [|? [|? ?]]].
Qed.

(** The creation of the STARTED run throws [e]: the recompute throws, and
    nothing is written to the audit log. *)
Lemma recomputeAnalytics_throws (w : World) (e : Thrown) :
  planAt (faults w) 0 = Some e ->
  recomputeAnalytics w
  = (Threw e,
     mkWorld (users w) (imports w) (posts w) (metricsSnapshots w)
       (recomputeRuns w) (nextId w) (now w)
       (console w ++ ["[Analytics] Starting recompute..."])
       (tail (faults w))).
Proof.
  intros H0. unfold recomputeAnalytics.
  rewrite bind_run, consoleLog_run.
  rewrite bind_run, newDate_run. wsimpl.
  rewrite bind_run. unfold prisma.recomputeRun_create.
  now rewrite (datastore_throw _ _ e) by (wsimpl; exact H0).
Qed.

(** ** Import Orchestrator *)

Section ImportRuns.

Variable parseDate : string -> option Z.

Lemma saveImportedPosts_ok (data : ImportData) (w : World) :
  calm (importCalls parseDate (data_rows data) + 2) w ->
  saveImportedPosts parseDate data w
  = (Returned (ImportOk (ImportRecord.id (importRecordOf data w))),
     afterSuccess parseDate data w).
Proof.
  intros Hcalm.
  rewrite saveImportedPosts_phases by (eapply calm_weaken; [|exact Hcalm]; lia).
  rewrite recomputeAnalytics_ok.
  - f_equal. unfold afterSuccess, afterImport.
    apply world_ext; wsimpl; cbv zeta; try reflexivity.
    + now rewrite <- !app_assoc.
    + now rewrite drop_drop.
  - intros i Hi. unfold afterImport. wsimpl. rewrite planAt_drop.
    apply Hcalm. lia.
Qed.

Lemma skipped_spec (row : ImportedPostRow.t) :
  skipped parseDate row = true
  <-> (ImportedPostRow.postId row = None
       \/ exists p, ImportedPostRow.postId row = Some p /\ Js.trim p = "")
      \/ (ImportedPostRow.createdAt row = None
          \/ ImportedPostRow.createdAt row = Some "")
      \/ (exists c, ImportedPostRow.createdAt row = Some c
                    /\ parseDate c = None).
Proof.
  unfold skipped, postIdAbsent, createdAtAbsent, createdAtInvalid.
  rewrite !orb_true_iff.
  destruct (ImportedPostRow.postId row) as [p|],
           (ImportedPostRow.createdAt row) as [c|].
  - rewrite !negb_true_iff, !truthy_false.
    destruct (parseDate c) as [t|] eqn:Hc.
    + split.
      * intros [[H|H]|H]; [left; right; eauto | right; left; right; congruence
                           | discriminate].
      * intros [[H|(p' & Hp & H)]|[[H|H]|(c' & Hc' & H)]];
          try discriminate; try congruence.
        -- left. left. congruence.
        -- left. right. congruence.
    + split; [|intros _; now right].
      intros _. right. right. eauto.
  - split; [|intros _; now left; right].
    intros _. right. left. now left.
  - split; [|intros _; now left; left].
    intros _. left. now left.
  - split; [|intros _; now left; left].
    intros _. left. now left.
Qed.

Lemma snapshotOf_matches (p : Post.t) (imp : ImportRecord.t)
      (row : ImportedPostRow.t) :
  snapshotMatches imp row (snapshotOf p imp row).
Proof. unfold snapshotMatches. cbn. tauto. Qed.

(** C2. When no datastore call of the import fails, the import returns
    success with the identifier of its import record, and the snapshots it
    persists are, in row order, exactly one for each row that is not
    skipped; a row is skipped exactly when its postId is null or blank,
    its createdAt is null or empty, or its createdAt does not parse.  The
    count that the import reports on the console is the number of
    persisted snapshots. *)
Theorem saveImportedPosts_snapshots (data : ImportData) (w : World) :
  calm (importCalls parseDate (data_rows data) + 2) w ->
  exists (imp : ImportRecord.t) (w' : World) (snaps : list MetricsSnapshot.t),
    saveImportedPosts parseDate data w
    = (Returned (ImportOk (ImportRecord.id imp)), w')
    /\ imports w' = imports w ++ [imp]
    /\ metricsSnapshots w' = metricsSnapshots w ++ snaps
    /\ Forall2 (snapshotMatches imp)
               (List.filter (fun row => negb (skipped parseDate row))
                            (data_rows data))
               snaps
    /\ length snaps
       = length (List.filter (fun row => negb (skipped parseDate row))
                             (data_rows data))
    /\ last (console w') = Some (successLine (length snaps))
    /\ (forall row,
          skipped parseDate row = true
          <-> (ImportedPostRow.postId row = None
               \/ exists p, ImportedPostRow.postId row = Some p
                            /\ Js.trim p = "")
              \/ (ImportedPostRow.createdAt row = None
                  \/ ImportedPostRow.createdAt row = Some "")
              \/ (exists c, ImportedPostRow.createdAt row = Some c
                            /\ parseDate c = None)).
Proof.
  intros Hcalm.
  exists (importRecordOf data w), (afterSuccess parseDate data w),
         (loop_snapshots (loopOf parseDate data w)).
  destruct (runRows_snapshots parseDate (importUser w)
              (importRecordOf data w) (data_rows data)
              {| loop_posts := posts w; loop_nextId := S (idAfterUser w);
                 loop_snapshots := [] |}) as (new & Hnew & Hall).
  fold (loopOf parseDate data w) in Hnew. cbn in Hnew.
  assert (Hmatch : Forall2 (snapshotMatches (importRecordOf data w))
            (List.filter (accepted parseDate) (data_rows data))
            (loop_snapshots (loopOf parseDate data w))).
  { rewrite Hnew. eapply Forall2_impl; [exact Hall|].
    intros row s [p ->]. apply snapshotOf_matches. }
  split; [now apply saveImportedPosts_ok|].
  split; [reflexivity|]. split; [reflexivity|].
  split; [exact Hmatch|].
  split; [symmetry; exact (Forall2_length _ _ _ Hmatch)|].
  split; [|exact skipped_spec].
  unfold afterSuccess. wsimpl. cbv zeta.
  now rewrite !app_assoc, last_snoc.
Qed.

(** C9, as amended.  When the datastore calls of the import and the
    creation of the STARTED run succeed and the update to SUCCESS throws:
    if the update to FAILED succeeds, the STARTED run is recorded as
    FAILED with the error text and the import returns success with the
    identifier of its import record; if the update to FAILED throws too,
    the run stays STARTED and the import returns the failure with the
    message of that second error.  When the creation of the STARTED run
    throws, nothing is recorded and the import returns the failure with
    the message of the error.  In all three cases the import record, the
    posts and the snapshots of the import stay written. *)
Theorem recompute_failure_handling (data : ImportData) (w : World) (e : Thrown) :
  let k := importCalls parseDate (data_rows data) in
  let imp := importRecordOf data w in
  let loop := loopOf parseDate data w in
  (calm (k + 1) w ->
   planAt (faults w) (k + 1) = Some e ->
   planAt (faults w) (k + 2) = None ->
   exists (w' : World) (older : list RecomputeRun.t) (run : RecomputeRun.t),
     saveImportedPosts parseDate data w
     = (Returned (ImportOk (ImportRecord.id imp)), w')
     /\ recomputeRuns w' = older ++ [run]
     /\ length older = length (recomputeRuns w)
     /\ run = runFailed (messageOf e) (now w)
                        (RecomputeRun.mk (RecomputeRun.id run) STARTED (now w)
                                         None None)
     /\ RecomputeRun.status run = FAILED
     /\ RecomputeRun.error_text run = Some (messageOf e)
     /\ imports w' = imports w ++ [imp]
     /\ posts w' = loop_posts loop
     /\ metricsSnapshots w' = metricsSnapshots w ++ loop_snapshots loop)
  /\ (forall e2 : Thrown,
      calm (k + 1) w ->
      planAt (faults w) (k + 1) = Some e ->
      planAt (faults w) (k + 2) = Some e2 ->
      exists (w' : World) (run : RecomputeRun.t),
        saveImportedPosts parseDate data w
        = (Returned (ImportFailed (messageOf e2)), w')
        /\ recomputeRuns w' = recomputeRuns w ++ [run]
        /\ RecomputeRun.status run = STARTED
        /\ RecomputeRun.ended_at run = None
        /\ RecomputeRun.error_text run = None
        /\ imports w' = imports w ++ [imp]
        /\ posts w' = loop_posts loop
        /\ metricsSnapshots w' = metricsSnapshots w ++ loop_snapshots loop)
  /\ (calm k w ->
      planAt (faults w) k = Some e ->
      exists w' : World,
        saveImportedPosts parseDate data w
        = (Returned (ImportFailed (messageOf e)), w')
        /\ recomputeRuns w' = recomputeRuns w
        /\ imports w' = imports w ++ [imp]
        /\ posts w' = loop_posts loop
        /\ metricsSnapshots w' = metricsSnapshots w ++ loop_snapshots loop)
  /\ length (loop_snapshots loop)
     = length (List.filter (fun row => negb (skipped parseDate row))
                           (data_rows data)).
Proof.
  intros k imp loop. split; [|split; [|split]].
  - intros Hcalm He Hf.
    rewrite saveImportedPosts_phases
      by (eapply calm_weaken; [|exact Hcalm]; lia).
    rewrite (recomputeAnalytics_failed _ e).
    + eexists _, _, _. split; [reflexivity|]. wsimpl.
      split; [reflexivity|]. split; [apply markRun_length|].
      unfold afterImport. wsimpl. repeat split.
    + unfold afterImport. wsimpl. rewrite planAt_drop. apply Hcalm. lia.
    + unfold afterImport. wsimpl. rewrite planAt_drop. exact He.
    + unfold afterImport. wsimpl. rewrite planAt_drop. exact Hf.
  - intros e2 Hcalm He Hf.
    rewrite saveImportedPosts_phases
      by (eapply calm_weaken; [|exact Hcalm]; lia).
    rewrite (recomputeAnalytics_stuck _ e e2).
    + eexists _, _. split; [reflexivity|]. wsimpl.
      unfold afterImport. wsimpl. repeat split.
    + unfold afterImport. wsimpl. rewrite planAt_drop. apply Hcalm. lia.
    + unfold afterImport. wsimpl. rewrite planAt_drop. exact He.
    + unfold afterImport. wsimpl. rewrite planAt_drop. exact Hf.
  - intros Hcalm He.
    rewrite saveImportedPosts_phases by exact Hcalm.
    rewrite (recomputeAnalytics_throws _ e).
    + eexists. split; [reflexivity|]. unfold afterImport. wsimpl.
      repeat split.
    + unfold afterImport. wsimpl. rewrite planAt_drop.
      now rewrite Nat.add_0_r.
  - apply loopOf_length.
Qed.

End ImportRuns.

Lemma recompute_failure_handling_witness :
  exists w' : World,
    saveImportedPosts SampleDate.parse (sampleData threeRows)
      (set_faults [None; None; None; None; None; None; Some (ErrorObject "db down")]
                  sampleWorld)
    = (Returned (ImportOk 1), w')
    /\ map RecomputeRun.status (recomputeRuns w') = [FAILED]
    /\ map RecomputeRun.error_text (recomputeRuns w') = [Some "db down"]
    /\ length (metricsSnapshots w') = 2.
Proof.
  destruct (proj1 (recompute_failure_handling SampleDate.parse
                     (sampleData threeRows)
                     (set_faults [None; None; None; None; None; None;
                                  Some (ErrorObject "db down")] sampleWorld)
                     (ErrorObject "db down")))
    as (w' & older & run & Hrun & Hruns & Hlen & _ & Hst & Herr & _ & _ & Hsnaps).
  - intros i Hi. vm_compute in Hi.
    do 6 (destruct i as [|i]; [reflexivity|]). lia.
  - reflexivity.
  - reflexivity.
  - exists w'. split; [exact Hrun|].
    destruct older; [|discriminate Hlen].
    rewrite Hruns, Hsnaps. cbn [map app]. rewrite Hst, Herr.
    repeat split.
Defined.

(** C9, as stated, fails: with no rows to import and a datastore that
    rejects the creation of the STARTED run, the recompute throws, no run
    is recorded, and the import returns the failure. *)
Lemma recompute_failure_propagates :
  let w := set_faults [None; None; Some (ErrorObject "db down")] sampleWorld in
  let data := sampleData [] in
  fst (recomputeAnalytics (afterImport SampleDate.parse data w))
  = Threw (ErrorObject "db down")
  /\ fst (saveImportedPosts SampleDate.parse data w)
     = Returned (ImportFailed "db down")
  /\ recomputeRuns (snd (saveImportedPosts SampleDate.parse data w)) = [].
Proof. vm_compute. repeat split. Qed.

Lemma saveImportedPosts_snapshots_witness :
  exists (imp : ImportRecord.t) (w' : World),
    saveImportedPosts SampleDate.parse (sampleData threeRows) sampleWorld
    = (Returned (ImportOk (ImportRecord.id imp)), w')
    /\ length (metricsSnapshots w') = 2
    /\ last (console w') = Some "[Import] Successfully imported 2 posts.".
Proof.
  destruct (saveImportedPosts_snapshots SampleDate.parse
              (sampleData threeRows) sampleWorld)
    as (imp & w' & snaps & Hrun & _ & Hsnaps & _ & Hlen & Hlog & _).
  - apply calm_no_faults. reflexivity.
  - exists imp, w'. split; [exact Hrun|].
    rewrite Hsnaps, Hlog.
    change (metricsSnapshots sampleWorld ++ snaps) with snaps.
    rewrite Hlen. split; vm_compute; reflexivity.
Defined.

(** ** Upserts of posts *)

Lemma find_head_filter {A : Type} (f : A -> bool) (l : list A) :
  List.find f l = head (List.filter f l).
Proof.
  induction l as [|a l IH]; [reflexivity|]. simpl. now destruct (f a).
Qed.

Lemma filter_update (key : string) (update : Post.t -> Post.t)
      (table : list Post.t) :
  (forall q, Post.x_post_id (update q) = Post.x_post_id q) ->
  List.filter (fun p => String.eqb (Post.x_post_id p) key)
    (map (fun q => if String.eqb (Post.x_post_id q) key then update q else q)
         table)
  = map update
        (List.filter (fun p => String.eqb (Post.x_post_id p) key) table).
Proof.
  intros Hkey. induction table as [|a table IH]; [reflexivity|]. cbn.
  destruct (String.eqb (Post.x_post_id a) key) eqn:Ha.
  - rewrite Hkey, Ha. cbn. now rewrite IH.
  - now rewrite Ha.
Qed.

Lemma keys_update (key : string) (update : Post.t -> Post.t)
      (table : list Post.t) :
  (forall q, Post.x_post_id (update q) = Post.x_post_id q) ->
  map Post.x_post_id
    (map (fun q => if String.eqb (Post.x_post_id q) key then update q else q)
         table)
  = map Post.x_post_id table.
Proof.
  intros Hkey. rewrite map_map. apply map_ext. intros q.
  destruct (String.eqb _ _); [apply Hkey | reflexivity].
Qed.

Lemma filter_absent (key : string) (table : list Post.t) :
  key ∉ map Post.x_post_id table ->
  List.filter (fun p => String.eqb (Post.x_post_id p) key) table = [].
Proof.
  induction table as [|a table IH]; intros Hnot; [reflexivity|]. cbn.
  destruct (String.eqb_spec (Post.x_post_id a) key) as [Heq|Hne].
  - exfalso. apply Hnot. cbn. rewrite Heq. apply list_elem_of_here.
  - apply IH. intros Hin. apply Hnot. cbn. now apply list_elem_of_further.
Qed.

Lemma find_absent (key : string) (table : list Post.t) :
  List.find (fun p => String.eqb (Post.x_post_id p) key) table = None ->
  key ∉ map Post.x_post_id table.
Proof.
  intros Hfind Hin. apply list_elem_of_fmap in Hin as (q & Hq & Hin).
  apply list_elem_of_In in Hin.
  pose proof (List.find_none _ _ Hfind q Hin) as Hf. cbn in Hf.
  rewrite <- Hq, String.eqb_refl in Hf. discriminate.
Qed.

(** Under the unique constraint on [x_post_id], the row found for a key
    is the only row with that key. *)
Lemma filter_unique (key : string) (table : list Post.t) (q : Post.t) :
  NoDup (map Post.x_post_id table) ->
  List.find (fun p => String.eqb (Post.x_post_id p) key) table = Some q ->
  List.filter (fun p => String.eqb (Post.x_post_id p) key) table = [q].
Proof.
  induction table as [|a table IH]; intros Hnd Hfind; [discriminate|].
  cbn in *. apply NoDup_cons in Hnd as [Hnot Hnd].
  destruct (String.eqb_spec (Post.x_post_id a) key) as [Heq|Hne].
  - inversion Hfind; subst. f_equal. now apply filter_absent.
  - now apply IH.
Qed.

Lemma upsertPost_unique (key : string) (update : Post.t -> Post.t)
      (create : nat -> Post.t) (table : list Post.t) (fresh : nat) :
  NoDup (map Post.x_post_id table) ->
  (forall q, Post.x_post_id (update q) = Post.x_post_id q) ->
  (forall id, Post.x_post_id (create id) = key) ->
  let '(p, table', fresh') := prisma.upsertPost key update create table fresh in
  List.filter (fun p => String.eqb (Post.x_post_id p) key) table' = [p]
  /\ NoDup (map Post.x_post_id table')
  /\ fresh <= fresh'
  /\ ((exists id, p = create id) \/ exists q, p = update q).
Proof.
  intros Hnd Hupd Hcre. unfold prisma.upsertPost.
  destruct (List.find _ table) as [q|] eqn:Hfind.
  - split; [|split; [|split]].
    + rewrite (filter_update _ _ _ Hupd), (filter_unique _ _ _ Hnd Hfind).
      reflexivity.
    + now rewrite (keys_update _ _ _ Hupd).
    + lia.
    + right. eauto.
  - pose proof (find_absent _ _ Hfind) as Hnot.
    split; [|split; [|split]].
    + rewrite List.filter_app, (filter_absent _ _ Hnot). cbn.
      now rewrite Hcre, String.eqb_refl.
    + rewrite map_app. cbn. rewrite Hcre. apply NoDup_app.
      split; [assumption|]. split; [|apply NoDup_singleton].
      intros x Hx Hx'. apply list_elem_of_singleton in Hx'. now subst.
    + lia.
    + left. eauto.
Qed.

(** The row that an upsert under a key returns is a row of the table
    afterwards and a row of a later upsert under the same key is its
    update. *)
Lemma upsertPost_again (key : string) (update : Post.t -> Post.t)
      (create : nat -> Post.t) (table : list Post.t) (fresh : nat)
      (p : Post.t) :
  (forall q, Post.x_post_id (update q) = Post.x_post_id q) ->
  List.filter (fun p => String.eqb (Post.x_post_id p) key) table = [p] ->
  prisma.upsertPost key update create table fresh
  = (update p,
     map (fun q => if String.eqb (Post.x_post_id q) key then update q else q)
         table,
     fresh)
  /\ List.filter (fun p => String.eqb (Post.x_post_id p) key)
       (map (fun q => if String.eqb (Post.x_post_id q) key then update q else q)
            table)
     = [update p].
Proof.
  intros Hupd Hone. unfold prisma.upsertPost.
  rewrite find_head_filter, Hone. cbn. split; [reflexivity|].
  now rewrite (filter_update _ _ _ Hupd), Hone.
Qed.

Lemma postUpdate_key (text : string) (t : Z) (q : Post.t) :
  Post.x_post_id (postUpdate text t q) = Post.x_post_id q.
Proof. reflexivity. Qed.

Lemma postCreate_key (user : User.t) (key text : string) (t : Z) (id : nat) :
  Post.x_post_id (postCreate user key text t id) = key.
Proof. reflexivity. Qed.

Lemma filter_elem (key : string) (table : list Post.t) (p : Post.t) :
  List.filter (fun p => String.eqb (Post.x_post_id p) key) table = [p] ->
  p ∈ table /\ Post.x_post_id p = key.
Proof.
  intros H. assert (Hin : List.In p (List.filter
    (fun p => String.eqb (Post.x_post_id p) key) table)).
  { rewrite H. now left. }
  apply List.filter_In in Hin as [Hin Hk]. split.
  - now apply list_elem_of_In.
  - now apply String.eqb_eq.
Qed.

(** ** Imports of a single row *)

Section SingleRow.

Variable parseDate : string -> option Z.

Lemma acceptedAs_Some (row : ImportedPostRow.t) (p c : string) (t : Z) :
  ImportedPostRow.postId row = Some p -> Js.trim p <> "" ->
  ImportedPostRow.createdAt row = Some c -> c <> "" ->
  parseDate c = Some t ->
  acceptedAs parseDate row = Some (Js.trim p, t).
Proof.
  intros Hp Hp' Hc Hc' Ht. unfold acceptedAs. rewrite Hp, Hc, Ht.
  apply truthy_true in Hp', Hc'. now rewrite Hp', Hc'.
Qed.

Lemma importCalls_single (row : ImportedPostRow.t) (key : string) (t : Z) :
  acceptedAs parseDate row = Some (key, t) ->
  importCalls parseDate [row] = 4.
Proof.
  intros Ha. unfold importCalls. rewrite calls_cons.
  assert (Hacc : accepted parseDate row = true).
  { apply acceptedAs_accepted. rewrite Ha. eauto. }
  now rewrite Hacc.
Qed.

Lemma loopOf_single (data : ImportData) (w : World)
      (row : ImportedPostRow.t) (key : string) (t : Z) :
  data_rows data = [row] ->
  acceptedAs parseDate row = Some (key, t) ->
  loopOf parseDate data w
  = let text := default "" (ImportedPostRow.text row) in
    let '(p, table, fresh) :=
      prisma.upsertPost key (postUpdate text t)
        (postCreate (importUser w) key text t) (posts w) (S (idAfterUser w)) in
    {| loop_posts := table; loop_nextId := fresh;
       loop_snapshots := [snapshotOf p (importRecordOf data w) row] |}.
Proof.
  intros Hrows Ha. unfold loopOf. rewrite Hrows. cbn [runRows].
  rewrite Ha. cbv zeta. now destruct (prisma.upsertPost _ _ _ _ _) as [[p table] fresh].
Qed.

Lemma upsertPost_result (key : string) (update : Post.t -> Post.t)
      (create : nat -> Post.t) (table : list Post.t) (fresh : nat) :
  (forall q, Post.x_post_id (update q) = Post.x_post_id q) ->
  (forall id, Post.x_post_id (create id) = key) ->
  let '(p, table', _) := prisma.upsertPost key update create table fresh in
  p ∈ table' /\ Post.x_post_id p = key
  /\ ((exists id, p = create id) \/ exists q, p = update q).
Proof.
  intros Hupd Hcre. unfold prisma.upsertPost.
  destruct (List.find _ table) as [q|] eqn:Hfind.
  - apply List.find_some in Hfind as [Hin Hk]. cbn in Hk.
    split; [|split].
    + apply list_elem_of_fmap. exists q. rewrite Hk.
      split; [reflexivity | now apply list_elem_of_In].
    + rewrite Hupd. now apply String.eqb_eq.
    + right. eauto.
  - split; [|split].
    + apply elem_of_app. right. apply list_elem_of_here.
    + apply Hcre.
    + left. eauto.
Qed.

(** C10. A row whose postId is not blank and whose createdAt is not empty
    and parses, but whose text is null, is not skipped.  The row callback
    upserts, under the trimmed postId, a post with the empty text, 0
    characters, 1 word, no link, 0 hashtags, 0 mentions and the tag
    "standard", and pushes one snapshot of that post; an import of that
    row alone persists that post and exactly one snapshot of it. *)
Theorem import_row_without_text (row : ImportedPostRow.t) (p c : string) (t : Z) :
  ImportedPostRow.postId row = Some p -> Js.trim p <> "" ->
  ImportedPostRow.createdAt row = Some c -> c <> "" ->
  parseDate c = Some t ->
  ImportedPostRow.text row = None ->
  skipped parseDate row = false
  /\ (forall (user : User.t) (imp : ImportRecord.t)
             (acc : list MetricsSnapshot.t) (w : World),
        planAt (faults w) 0 = None ->
        exists (post : Post.t) (w' : World),
          processRow parseDate user imp row acc w
          = (Returned (acc ++ [snapshotOf post imp row]), w')
          /\ post ∈ posts w'
          /\ textlessPost (Js.trim p) t post)
  /\ (forall (data : ImportData) (w : World),
        data_rows data = [row] ->
        calm 6 w ->
        exists (imp : ImportRecord.t) (w' : World) (post : Post.t)
               (s : MetricsSnapshot.t),
          saveImportedPosts parseDate data w
          = (Returned (ImportOk (ImportRecord.id imp)), w')
          /\ post ∈ posts w'
          /\ textlessPost (Js.trim p) t post
          /\ metricsSnapshots w' = metricsSnapshots w ++ [s]
          /\ MetricsSnapshot.post_id s = Post.id post
          /\ MetricsSnapshot.import_id s = ImportRecord.id imp).
Proof.
  intros Hp Hp' Hc Hc' Ht Htext.
  pose proof (acceptedAs_Some row p c t Hp Hp' Hc Hc' Ht) as Ha.
  assert (Hshape : forall (user : User.t) (table : list Post.t) (fresh : nat),
            let '(post, table', _) :=
              prisma.upsertPost (Js.trim p) (postUpdate "" t)
                (postCreate user (Js.trim p) "" t) table fresh in
            post ∈ table' /\ textlessPost (Js.trim p) t post).
  { intros user table fresh.
    pose proof (upsertPost_result (Js.trim p) (postUpdate "" t)
                  (postCreate user (Js.trim p) "" t) table fresh
                  (postUpdate_key "" t)
                  (postCreate_key user (Js.trim p) "" t)) as Hres.
    destruct (prisma.upsertPost _ _ _ _ _) as [[post table'] fresh'].
    destruct Hres as (Hin & Hkey & Hsh). split; [exact Hin|].
    unfold textlessPost. split; [exact Hkey|].
    destruct Hsh as [[id ->]|[q ->]]; repeat split. }
  split; [|split].
  - destruct (skipped parseDate row) eqn:Hs; [|reflexivity].
    apply acceptedAs_None in Hs. congruence.
  - intros user imp acc w Hplan.
    rewrite processRow_eq, Ha, Htext. cbn [default].
    rewrite bind_run, post_upsert_run by exact Hplan.
    specialize (Hshape user (posts w) (nextId w)).
    destruct (prisma.upsertPost _ _ _ _ _) as [[post table'] fresh'].
    eexists post, _. split; [reflexivity|]. exact Hshape.
  - intros data w Hrows Hcalm.
    pose proof (loopOf_single data w row _ _ Hrows Ha) as Hloop.
    rewrite Htext in Hloop. cbv zeta in Hloop. cbn [default] in Hloop.
    specialize (Hshape (importUser w) (posts w) (S (idAfterUser w))).
    destruct (prisma.upsertPost _ _ _ _ _) as [[post table] fresh].
    exists (importRecordOf data w), (afterSuccess parseDate data w), post,
           (snapshotOf post (importRecordOf data w) row).
    split.
    { apply saveImportedPosts_ok. rewrite Hrows, (importCalls_single _ _ _ Ha).
      exact Hcalm. }
    unfold afterSuccess. wsimpl. cbv zeta. rewrite Hloop.
    cbn [loop_posts loop_snapshots].
    destruct Hshape as [Hin Hpost].
    split; [exact Hin|]. split; [exact Hpost|]. repeat split.
Qed.

(** C3. Two imports, each of one accepted row, with the same external
    identifier, on a posts table that satisfies the unique constraint:
    afterwards exactly one post has that identifier, its text, creation
    time and derived fields are those of the second row, and the two
    imports have added two snapshots, both of that post, one for each
    import. *)
Theorem reimport_same_postId (d1 d2 : ImportData) (r1 r2 : ImportedPostRow.t)
        (key : string) (t1 t2 : Z) (w0 : World) :
  data_rows d1 = [r1] -> data_rows d2 = [r2] ->
  acceptedAs parseDate r1 = Some (key, t1) ->
  acceptedAs parseDate r2 = Some (key, t2) ->
  NoDup (map Post.x_post_id (posts w0)) ->
  calm 12 w0 ->
  exists (id1 id2 : nat) (w1 w2 : World) (p : Post.t)
         (s1 s2 : MetricsSnapshot.t),
    saveImportedPosts parseDate d1 w0 = (Returned (ImportOk id1), w1)
    /\ saveImportedPosts parseDate d2 w1 = (Returned (ImportOk id2), w2)
    /\ List.filter (fun q => String.eqb (Post.x_post_id q) key) (posts w2) = [p]
    /\ NoDup (map Post.x_post_id (posts w2))
    /\ Post.text p = default "" (ImportedPostRow.text r2)
    /\ Post.created_at p = t2
    /\ Post.char_count p = charCount (default "" (ImportedPostRow.text r2))
    /\ Post.word_count p = wordCount (default "" (ImportedPostRow.text r2))
    /\ Post.has_link p = hasLink (default "" (ImportedPostRow.text r2))
    /\ Post.hashtag_count p = hashtagCount (default "" (ImportedPostRow.text r2))
    /\ Post.mention_count p = mentionCount (default "" (ImportedPostRow.text r2))
    /\ Post.format_tag p = formatTag (default "" (ImportedPostRow.text r2))
    /\ metricsSnapshots w2 = metricsSnapshots w0 ++ [s1; s2]
    /\ MetricsSnapshot.post_id s1 = Post.id p
    /\ MetricsSnapshot.post_id s2 = Post.id p
    /\ MetricsSnapshot.import_id s1 = id1
    /\ MetricsSnapshot.import_id s2 = id2
    /\ id1 <> id2.
Proof.
  intros Hr1 Hr2 Ha1 Ha2 Hnd Hcalm.
  set (w1 := afterSuccess parseDate d1 w0).
  set (w2 := afterSuccess parseDate d2 w1).
  assert (Hrun1 : saveImportedPosts parseDate d1 w0
                  = (Returned (ImportOk (ImportRecord.id (importRecordOf d1 w0))), w1)).
  { apply saveImportedPosts_ok. rewrite Hr1, (importCalls_single _ _ _ Ha1).
    eapply calm_weaken; [|exact Hcalm]. lia. }
  assert (Hrun2 : saveImportedPosts parseDate d2 w1
                  = (Returned (ImportOk (ImportRecord.id (importRecordOf d2 w1))), w2)).
  { apply saveImportedPosts_ok. rewrite Hr2, (importCalls_single _ _ _ Ha2).
    intros i Hi. unfold w1, afterSuccess. wsimpl. cbv zeta.
    rewrite planAt_drop, Hr1, (importCalls_single _ _ _ Ha1).
    apply Hcalm. lia. }
  pose proof (loopOf_single d1 w0 r1 _ _ Hr1 Ha1) as Hloop1.
  cbv zeta in Hloop1.
  pose proof (upsertPost_unique key
                (postUpdate (default "" (ImportedPostRow.text r1)) t1)
                (postCreate (importUser w0) key
                            (default "" (ImportedPostRow.text r1)) t1)
                (posts w0) (S (idAfterUser w0)) Hnd
                (postUpdate_key _ t1)
                (postCreate_key (importUser w0) key _ t1)) as Hu1.
  destruct (prisma.upsertPost _ _ _ _ _) as [[p1 table1] fresh1].
  destruct Hu1 as (Hone1 & Hnd1 & Hfresh1 & _).
  assert (Hposts1 : posts w1 = table1).
  { unfold w1, afterSuccess. wsimpl. cbv zeta. now rewrite Hloop1. }
  pose proof (loopOf_single d2 w1 r2 _ _ Hr2 Ha2) as Hloop2.
  cbv zeta in Hloop2. rewrite Hposts1 in Hloop2.
  destruct (upsertPost_again key
              (postUpdate (default "" (ImportedPostRow.text r2)) t2)
              (postCreate (importUser w1) key
                          (default "" (ImportedPostRow.text r2)) t2)
              table1 (S (idAfterUser w1)) p1 (postUpdate_key _ t2) Hone1)
    as [Hu2 Hone2].
  rewrite Hu2 in Hloop2.
  exists (ImportRecord.id (importRecordOf d1 w0)),
         (ImportRecord.id (importRecordOf d2 w1)), w1, w2,
         (postUpdate (default "" (ImportedPostRow.text r2)) t2 p1),
         (snapshotOf p1 (importRecordOf d1 w0) r1),
         (snapshotOf (postUpdate (default "" (ImportedPostRow.text r2)) t2 p1)
                     (importRecordOf d2 w1) r2).
  split; [exact Hrun1|]. split; [exact Hrun2|].
  assert (Hposts2 : posts w2
                    = map (fun q => if String.eqb (Post.x_post_id q) key
                                    then postUpdate (default "" (ImportedPostRow.text r2)) t2 q
                                    else q) table1).
  { unfold w2, afterSuccess. wsimpl. cbv zeta. now rewrite Hloop2. }
  split; [now rewrite Hposts2|].
  split; [now rewrite Hposts2, (keys_update _ _ _ (postUpdate_key _ t2))|].
  do 8 (split; [reflexivity|]).
  split.
  { unfold w2 at 1, afterSuccess. wsimpl. cbv zeta. rewrite Hloop2.
    unfold w1 at 1, afterSuccess. wsimpl. cbv zeta. rewrite Hloop1.
    cbn [loop_snapshots]. now rewrite <- app_assoc. }
  do 4 (split; [reflexivity|]).
  cbn [importRecordOf ImportRecord.id].
  assert (Hge : nextId w1 <= idAfterUser w1).
  { unfold idAfterUser. destruct (List.find _ _); lia. }
  assert (Hnext : nextId w1 = S fresh1).
  { unfold w1, afterSuccess. wsimpl. cbv zeta. now rewrite Hloop1. }
  lia.
Qed.

End SingleRow.

Lemma import_row_without_text_witness :
  exists (w' : World) (post : Post.t),
    fst (saveImportedPosts SampleDate.parse
           (sampleData [sampleRow (Some " 42 ") None (Some "2024-03-01")])
           sampleWorld)
    = Returned (ImportOk 1)
    /\ post ∈ posts w'
    /\ textlessPost "42" 1709251200000 post
    /\ length (metricsSnapshots w') = 1.
Proof.
  destruct (import_row_without_text SampleDate.parse
              (sampleRow (Some " 42 ") None (Some "2024-03-01"))
              " 42 " "2024-03-01" 1709251200000%Z)
    as (_ & _ & Himport).
  - reflexivity.
  - discriminate.
  - reflexivity.
  - discriminate.
  - vm_compute. reflexivity.
  - reflexivity.
  - destruct (Himport
                (sampleData [sampleRow (Some " 42 ") None (Some "2024-03-01")])
                sampleWorld)
      as (imp & w' & post & s & Hrun & Hin & Hpost & Hsnaps & _).
    + reflexivity.
    + apply calm_no_faults. reflexivity.
    + exists w', post.
      assert (Hid : ImportRecord.id imp = 1).
      { assert (H : fst (saveImportedPosts SampleDate.parse
                  (sampleData [sampleRow (Some " 42 ") None (Some "2024-03-01")])
                  sampleWorld) = Returned (ImportOk 1)) by (vm_compute; reflexivity).
        rewrite Hrun in H. cbn in H. now inversion H. }
      rewrite Hrun, Hsnaps, Hid.
      split; [reflexivity|]. split; [exact Hin|]. split; [exact Hpost|].
      reflexivity.
Defined.

Lemma reimport_same_postId_witness :
  exists (w2 : World) (p : Post.t),
    List.filter (fun q => String.eqb (Post.x_post_id q) "7") (posts w2) = [p]
    /\ Post.text p = "edited text"
    /\ length (metricsSnapshots w2) = 2.
Proof.
  destruct (reimport_same_postId SampleDate.parse
              (sampleData [sampleRow (Some "7") (Some "first text") (Some "2024-01-01")])
              (sampleData [sampleRow (Some "7 ") (Some "edited text") (Some "2024-01-02")])
              (sampleRow (Some "7") (Some "first text") (Some "2024-01-01"))
              (sampleRow (Some "7 ") (Some "edited text") (Some "2024-01-02"))
              "7" 1704067200000%Z 1704153600000%Z sampleWorld)
    as (id1 & id2 & w1 & w2 & p & s1 & s2 & _ & _ & Hone & _ & Htext & _ & _
        & _ & _ & _ & _ & _ & Hsnaps & _).
  - reflexivity.
  - reflexivity.
  - vm_compute. reflexivity.
  - vm_compute. reflexivity.
  - constructor.
  - apply calm_no_faults. reflexivity.
  - exists w2, p. rewrite Hsnaps. repeat split; assumption.
Defined.

(** * Further properties of the code *)

(** ** Letter case and the normalizer *)

Lemma lowerChar_space (c : ascii) : Js.isSpace (Js.lowerChar c) = Js.isSpace c.
Proof. destruct c as [[] [] [] [] [] [] [] []]; vm_compute; reflexivity. Qed.

Lemma lowerChar_idempotent (c : ascii) :
  Js.lowerChar (Js.lowerChar c) = Js.lowerChar c.
Proof. destruct c as [[] [] [] [] [] [] [] []]; vm_compute; reflexivity. Qed.

Lemma toLowerCase_idempotent (s : string) :
  Js.toLowerCase (Js.toLowerCase s) = Js.toLowerCase s.
Proof.
  induction s as [|c t IH]; [reflexivity|].
  cbn [Js.toLowerCase]. now rewrite lowerChar_idempotent, IH.
Qed.

Lemma trimStart_lower (s : string) :
  Js.trimStart (Js.toLowerCase s) = Js.toLowerCase (Js.trimStart s).
Proof.
  induction s as [|c t IH]; [reflexivity|].
  cbn [Js.toLowerCase Js.trimStart]. rewrite lowerChar_space.
  now destruct (Js.isSpace c).
Qed.

Lemma trimEnd_lower (s : string) :
  Js.trimEnd (Js.toLowerCase s) = Js.toLowerCase (Js.trimEnd s).
Proof.
  induction s as [|c t IH]; [reflexivity|].
  cbn [Js.toLowerCase Js.trimEnd]. rewrite IH, lowerChar_space.
  destruct (Js.trimEnd t); cbn [Js.toLowerCase]; [|reflexivity].
  now destruct (Js.isSpace c).
Qed.

Lemma trim_lower (s : string) :
  Js.trim (Js.toLowerCase s) = Js.toLowerCase (Js.trim s).
Proof. unfold Js.trim. now rewrite trimStart_lower, trimEnd_lower. Qed.

Lemma allChars_lower_fixed (s : string) :
  allChars (fun c => negb (Js.isUpper c)) s = true -> Js.toLowerCase s = s.
Proof.
  induction s as [|c t IH]; intros H; [reflexivity|].
  cbn [allChars] in H. apply andb_true_iff in H as [Hc Ht].
  cbn [Js.toLowerCase]. rewrite (IH Ht). unfold Js.lowerChar.
  apply negb_true_iff in Hc. now rewrite Hc.
Qed.

Lemma isNormChar_not_upper (c : ascii) :
  isNormChar c = true -> negb (Js.isUpper c) = true.
Proof.
  destruct c as [[] [] [] [] [] [] [] []]; vm_compute;
    intros H; first [reflexivity | discriminate H].
Qed.

(** X1. The normal form of a header consists of lowercase letters,
    digits, spaces and percent signs only; in particular it has no
    uppercase letter left, no underscore, no hyphen and no other
    punctuation. *)
Theorem norm_output_chars (s : string) :
  allChars isNormChar (norm s) = true
  /\ Js.toLowerCase (norm s) = norm s
  /\ Js.includes "_" (norm s) = false
  /\ Js.includes "-" (norm s) = false.
Proof.
  pose proof (norm_alphabet s) as H.
  split; [exact H|]. split.
  - apply allChars_lower_fixed. revert H. apply allChars_impl.
    exact isNormChar_not_upper.
  - revert H. generalize (norm s) as t. intros t H.
    split; induction t as [|c t IH]; try reflexivity;
      cbn [allChars] in H; apply andb_true_iff in H as [Hc Ht];
      rewrite includes_cons, (IH Ht), orb_false_r;
      destruct c as [[] [] [] [] [] [] [] []];
      first [discriminate Hc | now destruct t].
Qed.

(** X2. Headers that differ in letter case only have the same normal
    form. *)
Theorem norm_ignores_case (a b : string) :
  Js.toLowerCase a = Js.toLowerCase b -> norm a = norm b.
Proof.
  intros H. unfold norm. now rewrite <- !trim_lower, H.
Qed.

Lemma norm_ignores_case_witness : norm "Created_AT" = norm "created_at".
Proof. apply (norm_ignores_case "Created_AT" "created_at"). reflexivity. Defined.

(** ** Text features *)

Lemma splitAux_length (cur : string) (inRun : bool) (s : string) :
  1 <= length (Js.splitAux cur inRun s) <= S (String.length s).
Proof.
  revert cur inRun. induction s as [|c t IH]; intros cur inRun; [cbn; lia|].
  cbn [Js.splitAux String.length]. destruct (Js.isSpace c).
  - destruct inRun.
    + specialize (IH cur true). lia.
    + specialize (IH "" true). cbn [length]. lia.
  - specialize (IH (cur +:+ String c "") false). lia.
Qed.

Lemma splitAux_single (cur : string) (s : string) :
  length (Js.splitAux cur false s) = 1
  <-> allChars (fun c => negb (Js.isSpace c)) s = true.
Proof.
  revert cur. induction s as [|c t IH]; intros cur; [cbn; tauto|].
  cbn [Js.splitAux allChars]. destruct (Js.isSpace c); cbn [negb andb].
  - pose proof (splitAux_length "" true t). cbn [length].
    split; [lia | discriminate].
  - apply IH.
Qed.

(** X3. The word count of a text is at least 1, also for the empty text,
    and at most one more than its length; it is 1 exactly when the text
    has no white space. *)
Theorem wordCount_bounds (text : string) :
  1 <= wordCount text <= S (charCount text)
  /\ (wordCount text = 1
      <-> allChars (fun c => negb (Js.isSpace c)) text = true).
Proof.
  unfold wordCount, charCount, Js.splitSpaces. split.
  - apply splitAux_length.
  - apply splitAux_single.
Qed.

Lemma countChar_pair (a b : ascii) (s : string) :
  a <> b -> Js.countChar a s + Js.countChar b s <= String.length s.
Proof.
  intros Hab. induction s as [|c t IH]; [cbn; lia|].
  cbn [Js.countChar String.length].
  destruct (Ascii.eqb_spec a c), (Ascii.eqb_spec b c); subst;
    first [contradiction | lia].
Qed.

Lemma prefix_single (a c : ascii) (t : string) :
  String.prefix (String a "") (String c t) = Ascii.eqb a c.
Proof.
  cbn. destruct (Ascii.ascii_dec a c) as [->|Hne].
  - rewrite Ascii.eqb_refl. now destruct t.
  - symmetry. now apply Ascii.eqb_neq.
Qed.

Lemma countChar_zero (a : ascii) (s : string) :
  Js.countChar a s = 0 <-> Js.includes (String a "") s = false.
Proof.
  induction s as [|c t IH]; [cbn; tauto|].
  rewrite includes_cons, prefix_single. cbn [Js.countChar].
  destruct (Ascii.eqb a c); cbn [orb].
  - split; [lia | discriminate].
  - exact IH.
Qed.

(** X4. The hashtag count and the mention count together never exceed the
    character count; the hashtag count is 0 exactly when the text has no
    "#", and the mention count is 0 exactly when it has no "@". *)
Theorem tag_counts (text : string) :
  hashtagCount text + mentionCount text <= charCount text
  /\ (hashtagCount text = 0 <-> Js.includes "#" text = false)
  /\ (mentionCount text = 0 <-> Js.includes "@" text = false).
Proof.
  unfold hashtagCount, mentionCount, charCount. split; [|split].
  - apply countChar_pair. discriminate.
  - apply countChar_zero.
  - apply countChar_zero.
Qed.

(** ** The classifier *)

Lemma lowerChar_question (c : ascii) :
  Ascii.eqb "?" (Js.lowerChar c) = Ascii.eqb "?" c.
Proof. destruct c as [[] [] [] [] [] [] [] []]; vm_compute; reflexivity. Qed.

Lemma includes_question_lower (s : string) :
  Js.includes "?" (Js.toLowerCase s) = Js.includes "?" s.
Proof.
  induction s as [|c t IH]; [reflexivity|].
  cbn [Js.toLowerCase]. rewrite !includes_cons, !prefix_single.
  now rewrite lowerChar_question, IH.
Qed.

(** X5. The format tag is one of the eight tags, and it is "standard"
    exactly when no rule of the chain matches the text. *)
Theorem formatTag_tags (text : string) :
  In (formatTag text) formatTags
  /\ (formatTag text = "standard"
      <-> forallb (fun r => negb (matches r text)) classifierRules = true).
Proof.
  unfold formatTag, formatTags, classifierRules. cbv zeta.
  cbn [forallb matches In].
  repeat match goal with
         | |- context [if ?b then _ else _] => destruct b
         end;
    cbn [negb andb]; rewrite ?andb_false_r;
    (split;
     [ repeat (first [left; reflexivity | right])
     | split; intros H; first [reflexivity | discriminate H] ]).
Qed.

(** X6. The format tag does not depend on the letter case of the text. *)
Theorem formatTag_ignores_case (a b : string) :
  Js.toLowerCase a = Js.toLowerCase b -> formatTag a = formatTag b.
Proof.
  intros H. unfold formatTag. cbv zeta.
  now rewrite <- (includes_question_lower a), <- (includes_question_lower b), H.
Qed.

Lemma formatTag_ignores_case_witness :
  formatTag "HOW TO grow?" = formatTag "how to grow?".
Proof. apply (formatTag_ignores_case "HOW TO grow?" "how to grow?"). reflexivity. Defined.

(** ** Numeric coercion of amounts *)

Lemma trimEnd_nospace (s : string) :
  allChars (fun c => negb (Js.isSpace c)) s = true -> Js.trimEnd s = s.
Proof.
  induction s as [|c t IH]; intros H; [reflexivity|].
  cbn [allChars] in H. apply andb_true_iff in H as [Hc Ht].
  apply negb_true_iff in Hc.
  rewrite (trimEnd_nonspace c t Hc). now rewrite (IH Ht).
Qed.

Lemma trim_nospace (s : string) :
  allChars (fun c => negb (Js.isSpace c)) s = true -> Js.trim s = s.
Proof.
  intros H. unfold Js.trim.
  assert (Hs : Js.trimStart s = s).
  { destruct s as [|c t]; [reflexivity|].
    cbn [allChars] in H. apply andb_true_iff in H as [Hc _].
    apply negb_true_iff in Hc. cbn [Js.trimStart]. now rewrite Hc. }
  rewrite Hs. now apply trimEnd_nospace.
Qed.

Lemma digit_not_space (c : ascii) :
  Js.isDigit c = true -> negb (Js.isSpace c) = true.
Proof.
  destruct c as [[] [] [] [] [] [] [] []]; vm_compute;
    intros H; first [reflexivity | discriminate H].
Qed.

Lemma amount_not_space (c : ascii) :
  isAmountChar c = true -> negb (Js.isSpace c) = true.
Proof.
  destruct c as [[] [] [] [] [] [] [] []]; vm_compute;
    intros H; first [reflexivity | discriminate H].
Qed.

Lemma spanDigits_all (s : string) :
  allChars Js.isDigit s = true -> JsNumber.spanDigits s = (s, "").
Proof.
  induction s as [|c t IH]; intros H; [reflexivity|].
  cbn [allChars] in H. apply andb_true_iff in H as [Hc Ht].
  cbn [JsNumber.spanDigits]. now rewrite Hc, (IH Ht).
Qed.

Lemma append_empty (s : string) : s +:+ "" = s.
Proof.
  induction s as [|c t IH]; [reflexivity|].
  change (String c (t +:+ "") = String c t). now rewrite IH.
Qed.

Lemma digitsValue_nonneg (s : string) (acc : Z) :
  (0 <= acc)%Z -> (0 <= JsNumber.digitsValue acc s)%Z.
Proof.
  revert acc. induction s as [|c t IH]; intros acc H; [exact H|].
  cbn [JsNumber.digitsValue]. apply IH. unfold JsNumber.digitValue. lia.
Qed.

Lemma nonDecimal_digits (s : string) :
  allChars Js.isDigit s = true -> JsNumber.nonDecimal s = None.
Proof.
  destruct s as [|c [|p [|d ds]]]; intros H.
  - reflexivity.
  - unfold JsNumber.nonDecimal.
    destruct c as [[] [] [] [] [] [] [] []]; reflexivity.
  - unfold JsNumber.nonDecimal.
    destruct c as [[] [] [] [] [] [] [] []]; reflexivity.
  - cbn [allChars] in H. apply andb_true_iff in H as [_ H].
    apply andb_true_iff in H as [Hp _].
    assert (Hx : Ascii.eqb p "x" || Ascii.eqb p "X" = false
                 /\ Ascii.eqb p "o" || Ascii.eqb p "O" = false
                 /\ Ascii.eqb p "b" || Ascii.eqb p "B" = false).
    { clear -Hp. destruct p as [[] [] [] [] [] [] [] []];
        first [discriminate Hp | repeat split]. }
    destruct Hx as (Hx & Ho & Hb).
    unfold JsNumber.nonDecimal.
    destruct c as [[] [] [] [] [] [] [] []]; try reflexivity.
    now rewrite Hx, Ho, Hb.
Qed.

Section Exactness.

Local Open Scope Q_scope.

Lemma pow2_positive (t : Z) : (0 < JsNumber.pow2 t)%Q.
Proof.
  unfold JsNumber.pow2. destruct (Z.leb_spec 0 t).
  - change 0 with (inject_Z 0). rewrite <- Zlt_Qlt. now apply Z.pow_pos_nonneg.
  - reflexivity.
Qed.

Lemma pow2_opp (k : Z) :
  (0 <= k)%Z -> (JsNumber.pow2 (- k) * inject_Z (2 ^ k) == 1)%Q.
Proof.
  intros Hk. unfold JsNumber.pow2.
  destruct (Z.leb_spec 0 (- k)).
  - assert (k = 0%Z) as -> by lia. reflexivity.
  - rewrite Z.opp_involutive. unfold Qeq, Qmult, inject_Z. cbn [Qnum Qden].
    rewrite Pos.mul_1_r, Z2Pos.id by (apply Z.pow_pos_nonneg; lia). lia.
Qed.

Lemma roundTiesToEven_integer (q : Q) (z : Z) :
  (q == inject_Z z)%Q -> JsNumber.roundTiesToEven q = z.
Proof.
  intros H. unfold JsNumber.roundTiesToEven.
  rewrite (Qfloor_comp _ _ H), Qfloor_Z.
  assert (Hz : q - inject_Z z == 0) by (rewrite H; ring).
  destruct (Qcompare_spec (q - inject_Z z) (1 # 2)) as [E|L|G].
  - rewrite Hz in E. discriminate E.
  - reflexivity.
  - rewrite Hz in G. discriminate G.
Qed.

Lemma nearest_multiple (q : Q) (m : Z) :
  let ulp := JsNumber.pow2 (Z.max (JsNumber.exponentOf q) (-1022) - 52) in
  (q == inject_Z m * ulp)%Q -> JsNumber.nearest q = Qred q.
Proof.
  intros ulp H. unfold JsNumber.nearest. fold ulp.
  assert (Hulp : ~ ulp == 0).
  { intros E. pose proof (pow2_positive (Z.max (JsNumber.exponentOf q) (-1022) - 52)) as P.
    fold ulp in P. rewrite E in P. now apply Qlt_irrefl in P. }
  rewrite (roundTiesToEven_integer (q / ulp) m).
  - apply Qred_complete. now symmetry.
  - rewrite H. now apply Qdiv_mult_l.
Qed.

Lemma exponentOf_integer (v : Z) :
  (0 < v)%Z -> JsNumber.exponentOf (inject_Z v) = Z.log2 v.
Proof.
  intros Hv. unfold JsNumber.exponentOf. cbn [Qnum Qden inject_Z].
  change (Z.log2 1) with 0%Z. rewrite Z.sub_0_r.
  assert (H : Qle_bool (JsNumber.pow2 (Z.log2 v)) (inject_Z v) = true).
  { apply Qle_bool_iff. unfold JsNumber.pow2.
    destruct (Z.leb_spec 0 (Z.log2 v)) as [_|Hneg];
      [|pose proof (Z.log2_nonneg v); lia].
    rewrite <- Zle_Qle. now apply Z.log2_spec. }
  now rewrite H.
Qed.

Lemma nearest_integer (v : Z) :
  (0 <= v <= 2 ^ 53)%Z -> JsNumber.nearest (inject_Z v) = inject_Z v.
Proof.
  intros Hv.
  assert (Hred : Qred (inject_Z v) = inject_Z v).
  { apply Qred_identity. cbn [Qnum Qden inject_Z]. apply Z.gcd_1_r. }
  destruct (Z.eq_dec v 0%Z) as [->|Hnz]; [vm_compute; reflexivity|].
  destruct (Z.eq_dec v (2 ^ 53)%Z) as [->|Hmax]; [vm_compute; reflexivity|].
  assert (Hlog : (0 <= Z.log2 v <= 52)%Z).
  { split; [apply Z.log2_nonneg|].
    assert (Z.log2 v < 53)%Z; [|lia]. apply Z.log2_lt_pow2; lia. }
  rewrite <- Hred at 2.
  apply (nearest_multiple _ (v * 2 ^ (52 - Z.log2 v))). cbv zeta.
  rewrite exponentOf_integer by lia.
  rewrite Z.max_l by lia.
  replace (Z.log2 v - 52)%Z with (- (52 - Z.log2 v))%Z by lia.
  rewrite inject_Z_mult, <- Qmult_assoc.
  rewrite (Qmult_comm (inject_Z (2 ^ _))), pow2_opp by lia.
  now rewrite Qmult_1_r.
Qed.

Lemma roundMV_small (v : Z) :
  (0 <= v <= 2 ^ 53)%Z ->
  JsNumber.roundMV (inject_Z v) = Finite (inject_Z v).
Proof.
  intros Hv. unfold JsNumber.roundMV.
  destruct (Qle_bool (inject_Z JsNumber.overflowBound) _) eqn:E.
  - exfalso. apply Qle_bool_iff in E. unfold Qle in E.
    cbn [Qnum Qden inject_Z Qabs] in E.
    assert (2 ^ 53 < JsNumber.overflowBound)%Z by (vm_compute; reflexivity).
    lia.
  - assert (H0 : Qle_bool 0 (inject_Z v) = true).
    { apply Qle_bool_iff. change 0 with (inject_Z 0). rewrite <- Zle_Qle. lia. }
    rewrite H0. f_equal. now apply nearest_integer.
Qed.

End Exactness.

Lemma signedDecimal_digits (s : string) :
  s <> "" -> allChars Js.isDigit s = true ->
  (JsNumber.digitsValue 0 s <= 2 ^ 53)%Z ->
  JsNumber.signedDecimal s = Finite (inject_Z (JsNumber.digitsValue 0 s)).
Proof.
  intros Hne Hs Hv.
  assert (Hu : JsNumber.unsignedDecimal s
               = Some (inject_Z (JsNumber.digitsValue 0 s * 1))).
  { unfold JsNumber.unsignedDecimal. rewrite (spanDigits_all s Hs).
    destruct s as [|c t]; [contradiction|].
    cbn [Js.truthy orb JsNumber.exponentPart String.length].
    now rewrite append_empty. }
  destruct s as [|c t]; [contradiction|].
  assert (Hc : Js.isDigit c = true).
  { cbn [allChars] in Hs. now apply andb_true_iff in Hs as [Hc _]. }
  assert (Hshape : JsNumber.signedDecimal (String c t)
                   = match JsNumber.unsignedDecimal (String c t) with
                     | Some q => JsNumber.roundMV q
                     | None => NaN
                     end).
  { clear -Hc. unfold JsNumber.signedDecimal.
    destruct c as [[] [] [] [] [] [] [] []];
      first [discriminate Hc | reflexivity]. }
  rewrite Hshape, Hu, Z.mul_1_r. apply roundMV_small.
  split; [apply digitsValue_nonneg; lia | exact Hv].
Qed.

Lemma Number_digits (s : string) :
  allChars Js.isDigit s = true ->
  (JsNumber.digitsValue 0 s <= 2 ^ 53)%Z ->
  JsNumber.Number s = Finite (inject_Z (JsNumber.digitsValue 0 s)).
Proof.
  intros Hs Hv. unfold JsNumber.Number.
  rewrite trim_nospace
    by (revert Hs; apply allChars_impl; exact digit_not_space).
  destruct s as [|c t] eqn:Es; [reflexivity|]. rewrite <- Es in *.
  assert (Hne : s <> "") by (rewrite Es; discriminate).
  replace (Js.truthy s) with true by (rewrite Es; reflexivity).
  cbn [negb]. rewrite (nonDecimal_digits s Hs).
  now apply signedDecimal_digits.
Qed.

Lemma cleaned_digits (s : string) :
  allChars isAmountChar s = true ->
  allChars Js.isDigit (removeChar "%" (removeChar "," s)) = true.
Proof.
  intros H. unfold removeChar.
  pose proof (allChars_keepOnly _ (fun d => negb (Ascii.eqb "," d)) _ H) as H1.
  pose proof (allChars_and _ _ _ H1
                (allChars_keepOnly_kept (fun d => negb (Ascii.eqb "," d)) s)) as H2.
  pose proof (allChars_keepOnly _ (fun d => negb (Ascii.eqb "%" d)) _ H2) as H3.
  pose proof (allChars_and _ _ _ H3
                (allChars_keepOnly_kept (fun d => negb (Ascii.eqb "%" d)) _)) as H4.
  revert H4. apply allChars_impl. clear.
  intros c. unfold isAmountChar.
  rewrite (Ascii.eqb_sym "," c), (Ascii.eqb_sym "%" c).
  destruct (Js.isDigit c), (Ascii.eqb c ","), (Ascii.eqb c "%");
    cbn; congruence.
Qed.

(** X7. On a cell that is not empty and made of digits, thousands
    separators and percent signs only, the numeric coercion returns the
    integer that the digits spell, whatever the places of the separators
    and percent signs; a cell with separators only, such as "%", gives 0
    and not null.  The integer is to be at most 2^53, the range in which
    every integer is a number. *)
Theorem toNumber_amount (s : string) :
  s <> "" ->
  allChars isAmountChar s = true ->
  (JsNumber.digitsValue 0 (removeChar "%" (removeChar "," s)) <= 2 ^ 53)%Z ->
  toNumber (Some s)
  = Some (Finite (inject_Z
            (JsNumber.digitsValue 0 (removeChar "%" (removeChar "," s))))).
Proof.
  intros Hne Hs Hv. unfold toNumber.
  rewrite trim_nospace
    by (revert Hs; apply allChars_impl; exact amount_not_space).
  apply truthy_true in Hne. rewrite Hne. cbn [negb].
  now rewrite (Number_digits _ (cleaned_digits s Hs) Hv).
Qed.

Lemma toNumber_amount_witness :
  toNumber (Some "1,234,567%") = Some (Finite (inject_Z 1234567))
  /\ toNumber (Some ",%") = Some (Finite (inject_Z 0)).
Proof.
  split.
  - apply (toNumber_amount "1,234,567%");
      [discriminate | reflexivity | vm_compute; discriminate].
  - apply (toNumber_amount ",%");
      [discriminate | reflexivity | vm_compute; discriminate].
Defined.

(** ** The mapping: suggestions, choices and the submission gate *)

Lemma values_get (m : ImportMapping.t) :
  ImportMapping.values m = map (ImportMapping.get m) EXPECTED_FIELDS.
Proof. reflexivity. Qed.

Lemma EXPECTED_FIELDS_all (k : ImportFieldKey) : In k EXPECTED_FIELDS.
Proof. destruct k; cbn; tauto. Qed.

Lemma EXPECTED_FIELDS_NoDup : List.NoDup EXPECTED_FIELDS.
Proof.
  unfold EXPECTED_FIELDS.
  repeat (constructor; [cbn; intuition discriminate|]). constructor.
Qed.

Lemma suggested_member (field : ImportFieldKey) (hs : list string) :
  suggestedHeaderForField field hs ∈ hs \/ suggestedHeaderForField field hs = "".
Proof.
  unfold suggestedHeaderForField.
  set (nHeaders := map _ hs).
  assert (Hraw : forall test wanted hit,
            firstHit test wanted nHeaders = Some hit -> raw hit ∈ hs).
  { intros test wanted hit H.
    destruct (firstHit_Some _ _ _ _ H) as (i & j & w & _ & Hj & _).
    unfold nHeaders in Hj. rewrite list_lookup_fmap in Hj.
    destruct (hs !! j) as [h|] eqn:Eh; [|discriminate].
    cbn in Hj. inversion Hj; subst hit. cbn [raw].
    apply list_elem_of_lookup. now exists j. }
  destruct (firstHit exactTest _ nHeaders) as [hit|] eqn:E1.
  - left. exact (Hraw _ _ _ E1).
  - destruct (firstHit containsTest _ nHeaders) as [hit|] eqn:E2.
    + left. exact (Hraw _ _ _ E2).
    + now right.
Qed.

(** X8. After a file is read without error and with at least one header,
    the mapping of every field is the suggestion computed for that field
    from the detected headers, so it is either one of the detected headers
    or the empty "ignore" choice. *)
Theorem handleFile_initial_mapping (name : string) (result : ParseResult)
        (st : ImporterState) (k : ImportFieldKey) :
  errors result = [] -> parsedHeaders result <> [] ->
  let st' := handleFile name (Completed result) st in
  ImportMapping.get (mapping st') k = suggestedHeaderForField k (headers st')
  /\ (ImportMapping.get (mapping st') k ∈ headers st'
      \/ ImportMapping.get (mapping st') k = "").
Proof.
  intros He Hh st'. unfold st'. rewrite (handleFile_headers _ _ _ He Hh).
  cbn [mapping headers].
  assert (Hget : ImportMapping.get
                   (fold_left
                      (fun m f => ImportMapping.set m f
                         (suggestedHeaderForField f (parsedHeaders result)))
                      EXPECTED_FIELDS emptyMapping) k
                 = suggestedHeaderForField k (parsedHeaders result)).
  { destruct k; reflexivity. }
  rewrite Hget. split; [reflexivity | apply suggested_member].
Qed.

Lemma handleFile_initial_mapping_witness :
  ImportMapping.get
    (mapping (handleFile "posts.csv"
                (Completed {| errors := []; data := [];
                              meta_fields := Some ["Tweet id"; "Likes"] |})
                {| fileName := None; headers := []; rows := [];
                   mapping := emptyMapping; parseError := None;
                   importResult := status_idle |}))
    Key.likes
  = "Likes".
Proof.
  destruct (handleFile_initial_mapping "posts.csv"
              {| errors := []; data := [];
                 meta_fields := Some ["Tweet id"; "Likes"] |}
              {| fileName := None; headers := []; rows := [];
                 mapping := emptyMapping; parseError := None;
                 importResult := status_idle |}
              Key.likes) as [H _].
  - reflexivity.
  - discriminate.
  - rewrite H. vm_compute. reflexivity.
Defined.

Lemma includes_empty (s : string) : Js.includes "" s = true.
Proof. destruct s; reflexivity. Qed.

(** X9. A header whose normal form is empty, such as a header of
    punctuation only, is contained in every synonym: when no header equals
    a synonym of the field, the suggestion for the field is a header at or
    before the first such header, whatever the field is. *)
Theorem suggestion_blank_header (field : ImportFieldKey)
        (headers : list string) (i : nat) (h : string) :
  headers !! i = Some h -> norm h = "" ->
  (forall w h', w ∈ candidates field -> h' ∈ headers -> norm h' <> w) ->
  exists j, j <= i
            /\ headers !! j = Some (suggestedHeaderForField field headers).
Proof.
  intros Hi Hn Hno. unfold suggestedHeaderForField.
  rewrite candidates_normal. set (nHeaders := map _ headers).
  destruct (firstHit exactTest (candidates field) nHeaders) as [hit|] eqn:E1.
  { exfalso.
    destruct (firstHit_firstBy _ _ exactTest_spec _ _ _ E1)
      as (a & b & w & Ha & Hb & HP & _).
    apply (Hno w (raw hit)); [| |exact HP].
    - apply list_elem_of_lookup. now exists a.
    - apply list_elem_of_lookup. now exists b. }
  assert (Hcand : exists w0 rest, candidates field = w0 :: rest)
    by (destruct field; cbn; eauto).
  destruct Hcand as (w0 & rest & Hcand). rewrite Hcand. cbn [firstHit].
  assert (Hat : nHeaders !! i = Some {| raw := h; n := norm h |}).
  { unfold nHeaders. now rewrite list_lookup_fmap, Hi. }
  assert (Htest : containsTest w0 {| raw := h; n := norm h |} = true).
  { unfold containsTest. cbn [n]. now rewrite Hn, includes_empty, orb_true_r. }
  destruct (List.find (containsTest w0) nHeaders) as [hit|] eqn:Ef.
  - destruct (find_first _ _ _ Ef) as (j & Hj & _ & Hmin).
    exists j. split.
    + destruct (Nat.le_gt_cases j i) as [Hle|Hlt]; [exact Hle|].
      rewrite (Hmin i _ Hlt Hat) in Htest. discriminate.
    + unfold nHeaders in Hj. rewrite list_lookup_fmap in Hj.
      destruct (headers !! j) as [h'|]; [|discriminate].
      cbn in Hj. now inversion Hj.
  - exfalso. pose proof (find_nothing _ _ Ef {| raw := h; n := norm h |}) as Hf.
    rewrite Hf in Htest; [discriminate|].
    apply list_elem_of_lookup. now exists i.
Qed.

Lemma suggestion_blank_header_witness :
  exists j, j <= 1
            /\ ["Views"; "!!!"; "Replies"] !! j
               = Some (suggestedHeaderForField Key.likes ["Views"; "!!!"; "Replies"]).
Proof.
  apply (suggestion_blank_header Key.likes ["Views"; "!!!"; "Replies"] 1 "!!!").
  - reflexivity.
  - reflexivity.
  - intros w h' Hw Hh. apply list_elem_of_In in Hw, Hh.
    cbn in Hw, Hh.
    destruct Hh as [<-|[<-|[<-|[]]]];
      destruct Hw as [<-|[<-|[<-|[<-|[]]]]];
      intros H; vm_compute in H; discriminate H.
Defined.

(** *** The submission gate *)

Lemma NoDup_filter_map {A : Type} (f : A -> string) (l : list A) :
  List.NoDup l ->
  (NoDup (List.filter Js.truthy (map f l))
   <-> forall a b, In a l -> In b l -> a <> b -> f a <> "" -> f a <> f b).
Proof.
  induction 1 as [|x l Hx Hnd IH]; cbn [map List.filter].
  - split; [intros _ a b [] | intros _; constructor].
  - destruct (Js.truthy (f x)) eqn:Hfx.
    + rewrite NoDup_cons, IH. split.
      * intros [Hnot Hinj] a b [->|Ha] [->|Hb] Hab Hne.
        -- contradiction.
        -- intros Heq. apply Hnot. apply list_elem_of_In.
           apply List.filter_In. split.
           ++ apply List.in_map_iff. exists b. split; [congruence | exact Hb].
           ++ exact Hfx.
        -- intros Heq. apply Hnot. apply list_elem_of_In.
           apply List.filter_In. split.
           ++ apply List.in_map_iff. exists a. split; [congruence | exact Ha].
           ++ exact Hfx.
        -- now apply Hinj.
      * intros Hinj. split.
        -- intros Hin. apply list_elem_of_In, List.filter_In in Hin as [Hin _].
           apply List.in_map_iff in Hin as (b & Hb & Hbl).
           apply (Hinj x b); [now left | now right | congruence
                              | now apply truthy_true | congruence].
        -- intros a b Ha Hb. apply Hinj; now right.
    + rewrite IH. apply truthy_false in Hfx. split.
      * intros Hinj a b [->|Ha] [->|Hb] Hab Hne.
        -- contradiction.
        -- congruence.
        -- intros Heq. apply Hne. congruence.
        -- now apply Hinj.
      * intros Hinj a b Ha Hb. apply Hinj; now right.
Qed.

Lemma hasDuplicates_false (m : ImportMapping.t) :
  hasDuplicates (mappingCompleteness m) = false
  <-> forall k k', k <> k' -> ImportMapping.get m k <> "" ->
                   ImportMapping.get m k <> ImportMapping.get m k'.
Proof.
  unfold mappingCompleteness. cbn [hasDuplicates].
  rewrite size_list_to_set_remove_dups, negb_false_iff, Nat.eqb_eq.
  rewrite remove_dups_length_eq, values_get.
  rewrite (NoDup_filter_map _ _ EXPECTED_FIELDS_NoDup). split.
  - intros H k k'. apply H; apply EXPECTED_FIELDS_all.
  - intros H a b _ _. apply H.
Qed.

(** X10. The import button is enabled exactly when there is data, no
    import is pending, postId, text and createdAt each have a chosen
    header, and no header is chosen for two fields. *)
Theorem importDisabled_spec (st : ImporterState) (isPending : bool) :
  importDisabled st isPending = false
  <-> rows st <> [] /\ headers st <> []
      /\ isPending = false
      /\ ImportMapping.get (mapping st) Key.postId <> ""
      /\ ImportMapping.get (mapping st) Key.text <> ""
      /\ ImportMapping.get (mapping st) Key.createdAt <> ""
      /\ (forall k k', k <> k' -> ImportMapping.get (mapping st) k <> "" ->
                       ImportMapping.get (mapping st) k
                       <> ImportMapping.get (mapping st) k').
Proof.
  unfold importDisabled, hasData.
  rewrite !orb_false_iff, !negb_false_iff, !andb_true_iff, !Nat.ltb_lt.
  rewrite hasDuplicates_false.
  unfold mappingCompleteness. cbn [requiredOk ImportMapping.get].
  rewrite !andb_true_iff, !truthy_true.
  assert (Hlen : forall (A : Type) (l : list A), 0 < length l <-> l <> []).
  { intros A [|a l]; cbn; split; intros; first [lia | congruence]. }
  rewrite !Hlen. tauto.
Qed.

(** ** The row mapper *)

(** X11. The row mapper reads the chosen columns only: two raw rows that
    agree on what they hold under the chosen headers are mapped to the
    same record, whatever their other columns hold. *)
Theorem mapCsvRow_chosen_columns (row1 row2 : CsvRow) (mapping : ImportMapping.t) :
  (forall k, ImportMapping.get mapping k <> "" ->
             cell row1 (ImportMapping.get mapping k)
             = cell row2 (ImportMapping.get mapping k)) ->
  mapCsvRow row1 mapping = mapCsvRow row2 mapping.
Proof.
  intros H.
  assert (Hget : forall k, mapCsvRow_get row1 mapping k
                           = mapCsvRow_get row2 mapping k).
  { intros k. unfold mapCsvRow_get.
    destruct (Js.truthy (ImportMapping.get mapping k)) eqn:Hk; [|reflexivity].
    cbn [negb]. rewrite H; [reflexivity|]. now apply truthy_true. }
  unfold mapCsvRow. now rewrite !Hget.
Qed.

Lemma mapCsvRow_chosen_columns_witness :
  mapCsvRow [("id", "7"); ("note", "x")]
            (ImportMapping.mk "id" "" "" "" "" "" "" "" "" "")
  = mapCsvRow [("other", "y"); ("id", "7")]
              (ImportMapping.mk "id" "" "" "" "" "" "" "" "" "").
Proof.
  apply mapCsvRow_chosen_columns.
  intros k Hk. destruct k; first [reflexivity | now contradiction Hk].
Defined.

Section MappedRows.

Variable parseDate : string -> option Z.

Lemma mapCsvRow_get_Some (row : CsvRow) (mapping : ImportMapping.t)
      (k : ImportFieldKey) (s : string) :
  mapCsvRow_get row mapping k = Some s ->
  Js.truthy s = true /\ Js.trim s = s.
Proof.
  rewrite mapCsvRow_get_cases. cbv zeta.
  destruct (String.eqb _ _); [discriminate|].
  destruct (cell row _) as [v|]; [|discriminate].
  destruct (String.eqb (Js.trim (stringOf v)) "") eqn:E; [discriminate|].
  intros H. inversion H; subst. split.
  - apply truthy_true. now apply String.eqb_neq.
  - apply trim_idempotent.
Qed.

Lemma mapped_row_skipped (mapping : ImportMapping.t) (row : CsvRow) :
  skipped parseDate (mapCsvRow row mapping)
  = negb (importable parseDate mapping row).
Proof.
  unfold skipped, postIdAbsent, createdAtAbsent, createdAtInvalid, importable.
  cbn [mapCsvRow ImportedPostRow.postId ImportedPostRow.createdAt].
  destruct (mapCsvRow_get row mapping Key.postId) as [p|] eqn:Ep;
    destruct (mapCsvRow_get row mapping Key.createdAt) as [c|] eqn:Ec;
    try reflexivity.
  - destruct (mapCsvRow_get_Some _ _ _ _ Ep) as [Hp Hp'].
    destruct (mapCsvRow_get_Some _ _ _ _ Ec) as [Hc _].
    rewrite Hp', Hp, Hc. cbn. now destruct (parseDate c).
  - destruct (mapCsvRow_get_Some _ _ _ _ Ep) as [Hp Hp'].
    now rewrite Hp', Hp.
Qed.

Lemma filter_map_length {A B : Type} (f : A -> B) (P : B -> bool) (l : list A) :
  length (List.filter P (map f l))
  = length (List.filter (fun a => P (f a)) l).
Proof.
  induction l as [|a l IH]; [reflexivity|]. cbn.
  destruct (P (f a)); cbn; now rewrite IH.
Qed.

(** X12. Submitting the importer's data when no datastore call fails: the
    server action is given one mapped row for each raw row, it persists
    exactly one snapshot for each raw row whose values under the headers
    chosen for postId and createdAt (the row's own cell, or without one
    what the row inherits under that name) are not blank and whose
    createdAt value parses, and the import result shown is "ok". *)
Theorem onImport_snapshots (st : ImporterState) (w : World) :
  rows st <> [] -> headers st <> [] ->
  faults w = [] ->
  exists (st' : ImporterState) (w' : World) (snaps : list MetricsSnapshot.t),
    onImport parseDate st w = (Returned st', w')
    /\ importResult st' = status_ok
    /\ metricsSnapshots w' = metricsSnapshots w ++ snaps
    /\ length snaps
       = length (List.filter (importable parseDate (mapping st)) (rows st))
    /\ (exists imp, imports w' = imports w ++ [imp]
                    /\ ImportRecord.row_count imp = length (rows st)).
Proof.
  intros Hrows Hheaders Hfaults.
  set (payload := {| data_fileName := fileName st; data_mapping := mapping st;
                     data_rows := mappedRows st |}).
  assert (Hdata : mappedRows st = map (fun r => mapCsvRow r (mapping st)) (rows st)).
  { unfold mappedRows, hasData.
    destruct (rows st); [contradiction|]. destruct (headers st); [contradiction|].
    reflexivity. }
  exists (setImportResult status_ok (setImportResult status_idle st)),
         (afterSuccess parseDate payload w),
         (loop_snapshots (loopOf parseDate payload w)).
  split.
  - unfold onImport. cbv zeta. rewrite tryCatch_run, bind_run.
    fold payload.
    change (mappedRows (setImportResult status_idle st)) with (mappedRows st).
    change (fileName (setImportResult status_idle st)) with (fileName st).
    change (mapping (setImportResult status_idle st)) with (mapping st).
    fold payload.
    now rewrite saveImportedPosts_ok by (now apply calm_no_faults).
  - split; [reflexivity|]. split; [reflexivity|]. split.
    + rewrite loopOf_length. unfold calls. cbn [payload data_rows].
      rewrite Hdata, filter_map_length.
      f_equal. apply List.filter_ext. intros r.
      unfold accepted. rewrite mapped_row_skipped. apply negb_involutive.
    + exists (importRecordOf payload w). split; [reflexivity|].
      cbn [importRecordOf ImportRecord.row_count payload data_rows].
      now rewrite Hdata, length_map.
Qed.

End MappedRows.

Lemma onImport_snapshots_witness :
  exists (st' : ImporterState) (w' : World),
    onImport SampleDate.parse
      {| fileName := Some "posts.csv"; headers := ["id"; "when"];
         rows := [[("id", "1"); ("when", "2024-01-01")];
                  [("id", " "); ("when", "2024-01-02")];
                  [("id", "3"); ("when", "soon")]];
         mapping := ImportMapping.mk "id" "" "when" "" "" "" "" "" "" "";
         parseError := None; importResult := status_idle |}
      sampleWorld
    = (Returned st', w')
    /\ importResult st' = status_ok
    /\ length (metricsSnapshots w') = 1.
Proof.
  destruct (onImport_snapshots SampleDate.parse
      {| fileName := Some "posts.csv"; headers := ["id"; "when"];
         rows := [[("id", "1"); ("when", "2024-01-01")];
                  [("id", " "); ("when", "2024-01-02")];
                  [("id", "3"); ("when", "soon")]];
         mapping := ImportMapping.mk "id" "" "when" "" "" "" "" "" "" "";
         parseError := None; importResult := status_idle |}
      sampleWorld)
    as (st' & w' & snaps & Hrun & Hok & Hsnaps & Hlen & _).
  - discriminate.
  - discriminate.
  - reflexivity.
  - exists st', w'. split; [exact Hrun|]. split; [exact Hok|].
    rewrite Hsnaps. change (metricsSnapshots sampleWorld ++ snaps) with snaps.
    rewrite Hlen. vm_compute. reflexivity.
Defined.

(** ** The orchestrator under failing datastore calls *)

(** *** Relations that every step of a program respects *)

Section Respects.

Variable R : World -> World -> Prop.
Hypothesis R_refl : forall w, R w w.
Hypothesis R_trans : forall a b c, R a b -> R b c -> R a c.
Hypothesis R_faults : forall w f, R w (set_faults f w).

Lemma respects_ret {A : Type} (a : A) : respects R (mret a : M A).
Proof. intros w. apply R_refl. Qed.

Lemma respects_bind {A B : Type} (m : M A) (f : A -> M B) :
  respects R m -> (forall a, respects R (f a)) -> respects R (m ≫= f).
Proof.
  intros Hm Hf w. rewrite bind_run. specialize (Hm w).
  destruct (m w) as [[a|e] w1]; cbn [snd] in Hm.
  - eapply R_trans; [exact Hm | apply Hf].
  - exact Hm.
Qed.

Lemma respects_tryCatch {A : Type} (body : M A) (handler : Thrown -> M A) :
  respects R body -> (forall e, respects R (handler e)) ->
  respects R (tryCatch body handler).
Proof.
  intros Hm Hf w. rewrite tryCatch_run. specialize (Hm w).
  destruct (body w) as [[a|e] w1]; cbn [snd] in Hm.
  - exact Hm.
  - eapply R_trans; [exact Hm | apply Hf].
Qed.

Lemma respects_forEach {A S : Type} (body : A -> S -> M S) (items : list A) :
  (forall x s, x ∈ items -> respects R (body x s)) ->
  forall s, respects R (forEach body items s).
Proof.
  induction items as [|x rest IH]; intros H s; cbn [forEach].
  - apply respects_ret.
  - apply respects_bind.
    + apply H. left.
    + intros s'. apply IH. intros y t Hy. apply H. now right.
Qed.

Lemma respects_settleAll {A S : Type} (body : A -> S -> M S) (items : list A) :
  (forall x s, x ∈ items -> respects R (body x s)) ->
  forall s rejected, respects R (settleAll body items s rejected).
Proof.
  induction items as [|x rest IH]; intros H s rejected w; cbn [settleAll].
  - destruct rejected; apply R_refl.
  - assert (Hx : R w (snd (body x s w))) by (apply H; left).
    destruct (body x s w) as [[s1|e] w1]; cbn [snd] in Hx;
      (eapply R_trans; [exact Hx|]); apply IH;
      intros y t Hy; apply H; now right.
Qed.

Lemma respects_datastore {A : Type} (op : M A) :
  respects R op -> respects R (datastore op).
Proof.
  intros H w. unfold datastore. destruct (planAt (faults w) 0).
  - cbn [snd]. apply R_faults.
  - eapply R_trans; [apply R_faults | apply H].
Qed.

Lemma respects_newDate : respects R newDate.
Proof. intros w. apply R_refl. Qed.

Hypothesis R_log : forall line, respects R (consoleLog line).
Hypothesis R_run_create :
  forall status t, respects R (prisma.recomputeRun_create status t).
Hypothesis R_run_succeeded :
  forall id t, respects R (prisma.recomputeRun_update id (runSucceeded t)).
Hypothesis R_run_failed :
  forall id message t,
    respects R (prisma.recomputeRun_update id (runFailed message t)).

Lemma respects_recomputeAnalytics : respects R recomputeAnalytics.
Proof.
  unfold recomputeAnalytics.
  apply respects_bind; [apply R_log | intros _].
  apply respects_bind; [apply respects_newDate | intros startTime].
  apply respects_bind; [apply R_run_create | intros run].
  apply respects_tryCatch.
  - apply respects_bind; [apply respects_newDate | intros ended].
    apply respects_bind; [apply R_run_succeeded | intros _].
    apply respects_bind; [apply respects_newDate | intros finished].
    apply respects_bind; [apply R_log | intros _].
    apply respects_ret.
  - intros e.
    apply respects_bind; [apply R_log | intros _].
    apply respects_bind; [apply respects_newDate | intros ended].
    apply respects_bind; [apply R_run_failed | intros _].
    apply respects_ret.
Qed.

Variable parseDate : string -> option Z.
Variable data : ImportData.

Hypothesis R_user : respects R (prisma.user_upsert "default" "America/Chicago").
Hypothesis R_import :
  forall user_id filename row_count source_label,
    respects R (prisma.import_create user_id filename row_count source_label).
Hypothesis R_row :
  forall user imp row acc,
    row ∈ data_rows data -> respects R (processRow parseDate user imp row acc).
Hypothesis R_many :
  forall snapshots, respects R (prisma.metricsSnapshot_createMany snapshots).

Lemma respects_saveImportedPosts :
  respects R (saveImportedPosts parseDate data).
Proof.
  unfold saveImportedPosts. apply respects_tryCatch.
  - cbv zeta.
    apply respects_bind; [apply R_log | intros _].
    apply respects_bind; [apply R_user | intros user].
    apply respects_bind; [apply R_import | intros imp].
    apply respects_bind.
    { apply respects_forEach. intros batch acc Hbatch.
      apply respects_settleAll. intros row acc' Hrow. apply R_row.
      rewrite <- (batches_concat (data_rows data)).
      apply list_elem_of_In, in_concat. exists batch.
      split; now apply list_elem_of_In. }
    intros snapshots.
    apply respects_bind.
    { destruct (Nat.ltb 0 (length snapshots));
        [apply R_many | apply respects_ret]. }
    intros _.
    apply respects_bind; [apply respects_recomputeAnalytics | intros _].
    apply respects_bind; [apply R_log | intros _].
    apply respects_ret.
  - intros e.
    apply respects_bind; [apply R_log | intros _].
    apply respects_ret.
Qed.

End Respects.

(** *** The world only grows *)

Lemma grows_refl (w : World) : grows w w.
Proof. constructor; reflexivity. Qed.

Lemma grows_trans (a b c : World) : grows a b -> grows b c -> grows a c.
Proof.
  intros [] []. constructor; try (etransitivity; eassumption).
Qed.

Lemma grows_faults (w : World) (f : list (option Thrown)) :
  grows w (set_faults f w).
Proof. constructor; reflexivity. Qed.

Ltac grows_fields :=
  constructor; wsimpl; rewrite ?map_app;
  first [reflexivity | apply prefix_app_r; reflexivity | lia].

Lemma grows_log (line : string) : respects grows (consoleLog line).
Proof. intros w. cbn [consoleLog snd]. grows_fields. Qed.

Lemma grows_user : respects grows (prisma.user_upsert "default" "America/Chicago").
Proof.
  apply respects_datastore; [apply grows_trans | apply grows_faults|].
  intros w. destruct (List.find _ (users w)); cbn [snd];
    [apply grows_refl | grows_fields].
Qed.

Lemma grows_import (user_id : nat) (filename : string) (row_count : nat)
      (source_label : string) :
  respects grows (prisma.import_create user_id filename row_count source_label).
Proof.
  apply respects_datastore; [apply grows_trans | apply grows_faults|].
  intros w. cbn [snd]. grows_fields.
Qed.

Lemma grows_many (snapshots : list MetricsSnapshot.t) :
  respects grows (prisma.metricsSnapshot_createMany snapshots).
Proof.
  apply respects_datastore; [apply grows_trans | apply grows_faults|].
  intros w. cbn [snd]. grows_fields.
Qed.

Lemma grows_run_create (status : RunStatus) (t : Z) :
  respects grows (prisma.recomputeRun_create status t).
Proof.
  apply respects_datastore; [apply grows_trans | apply grows_faults|].
  intros w. cbn [snd]. grows_fields.
Qed.

Lemma markRun_identity (id : nat) (update : RecomputeRun.t -> RecomputeRun.t)
      (table : list RecomputeRun.t) :
  (forall r, runIdentity (update r) = runIdentity r) ->
  map runIdentity (prisma.markRun id update table) = map runIdentity table.
Proof.
  intros H. unfold prisma.markRun. rewrite List.map_map.
  apply List.map_ext. intros r. now destruct (Nat.eqb _ _).
Qed.

Lemma grows_run_update (id : nat) (update : RecomputeRun.t -> RecomputeRun.t) :
  (forall r, runIdentity (update r) = runIdentity r) ->
  respects grows (prisma.recomputeRun_update id update).
Proof.
  intros H.
  apply respects_datastore; [apply grows_trans | apply grows_faults|].
  intros w. destruct (List.find _ (recomputeRuns w)); cbn [snd];
    [|apply grows_refl].
  constructor; wsimpl; try reflexivity.
  now rewrite markRun_identity.
Qed.

Lemma upsertPost_identity (key : string) (update : Post.t -> Post.t)
      (create : nat -> Post.t) (table : list Post.t) (fresh : nat) :
  (forall q, postIdentity (update q) = postIdentity q) ->
  let '(_, table', fresh') := prisma.upsertPost key update create table fresh in
  map postIdentity table `prefix_of` map postIdentity table'
  /\ fresh <= fresh'.
Proof.
  intros H. unfold prisma.upsertPost.
  destruct (List.find _ table).
  - split; [|lia]. rewrite List.map_map.
    erewrite List.map_ext; [reflexivity|].
    intros q. cbn. now destruct (String.eqb _ _).
  - split; [|lia]. rewrite map_app. now apply prefix_app_r.
Qed.

Section GrowingImport.

Variable parseDate : string -> option Z.

Lemma grows_row (user : User.t) (imp : ImportRecord.t)
      (row : ImportedPostRow.t) (acc : list MetricsSnapshot.t) :
  respects grows (processRow parseDate user imp row acc).
Proof.
  rewrite processRow_eq.
  destruct (acceptedAs parseDate row) as [[x t]|];
    [|apply respects_ret, grows_refl].
  apply respects_bind; [apply grows_trans| |intros p; apply respects_ret, grows_refl].
  apply respects_datastore; [apply grows_trans | apply grows_faults|].
  intros w.
  pose proof (upsertPost_identity x
                (postUpdate (default "" (ImportedPostRow.text row)) t)
                (postCreate user x (default "" (ImportedPostRow.text row)) t)
                (posts w) (nextId w) (fun q => eq_refl)) as Hup.
  destruct (prisma.upsertPost _ _ _ _ _) as [[p table] fresh].
  destruct Hup as [Hposts Hfresh]. cbn [snd].
  constructor; wsimpl; first [reflexivity | assumption].
Qed.

Lemma saveImportedPosts_returns (data : ImportData) (w : World) :
  exists res, fst (saveImportedPosts parseDate data w) = Returned res.
Proof.
  unfold saveImportedPosts. rewrite tryCatch_run.
  match goal with
  | |- context [match ?body with _ => _ end] =>
      destruct body as [[res|e] w1]
  end; [now exists res|].
  rewrite bind_run, consoleLog_run, ret_run. now eexists.
Qed.

(** X13. Whatever datastore calls fail, the import action returns a
    result, it never throws, and its run only extends the world: no user,
    import record, snapshot or console line is removed or changed, every
    post keeps its identifier, owner, external identifier and media flag,
    every recompute run keeps its identifier and start time, and the
    identifier counter never goes back. *)
Theorem saveImportedPosts_extends (data : ImportData) (w : World) :
  (exists res, fst (saveImportedPosts parseDate data w) = Returned res)
  /\ grows w (snd (saveImportedPosts parseDate data w)).
Proof.
  split; [apply saveImportedPosts_returns|].
  apply respects_saveImportedPosts.
  - apply grows_refl.
  - apply grows_trans.
  - apply grows_log.
  - apply grows_run_create.
  - intros id t. now apply grows_run_update.
  - intros id message t. now apply grows_run_update.
  - apply grows_user.
  - apply grows_import.
  - intros user imp row acc _. apply grows_row.
  - apply grows_many.
Qed.

End GrowingImport.

(** *** Posts outside the file, and the unique constraints *)

Ltac respects_unchanged R_trans R_faults :=
  apply respects_datastore; [apply R_trans | apply R_faults|];
  let w := fresh "w" in
  intros w;
  try match goal with
      | |- context [List.find ?f ?l] => destruct (List.find f l)
      end;
  cbn [snd]; wsimpl.

Lemma upsertPost_keeps (key : string) (update : Post.t -> Post.t)
      (create : nat -> Post.t) (table : list Post.t) (fresh : nat)
      (p : Post.t) :
  key <> Post.x_post_id p -> p ∈ table ->
  let '(_, table', _) := prisma.upsertPost key update create table fresh in
  p ∈ table'.
Proof.
  intros Hkey Hp. unfold prisma.upsertPost.
  destruct (List.find _ table).
  - apply list_elem_of_fmap. exists p. split; [|exact Hp].
    destruct (String.eqb_spec (Post.x_post_id p) key); [congruence | reflexivity].
  - apply elem_of_app. now left.
Qed.

Lemma soundPosts_le (table : list Post.t) (fresh fresh' : nat) :
  fresh <= fresh' -> soundPosts table fresh -> soundPosts table fresh'.
Proof.
  intros Hle [Hk Hi Hf]. constructor; [exact Hk | exact Hi|].
  eapply Forall_impl; [exact Hf|]. cbn. intros q Hq. lia.
Qed.

Lemma upsertPost_sound (key : string) (update : Post.t -> Post.t)
      (create : nat -> Post.t) (table : list Post.t) (fresh : nat) :
  (forall q, Post.x_post_id (update q) = Post.x_post_id q) ->
  (forall q, Post.id (update q) = Post.id q) ->
  (forall id, Post.x_post_id (create id) = key) ->
  (forall id, Post.id (create id) = id) ->
  soundPosts table fresh ->
  let '(_, table', fresh') := prisma.upsertPost key update create table fresh in
  soundPosts table' fresh'.
Proof.
  intros Hukey Huid Hckey Hcid [Hk Hi Hf]. unfold prisma.upsertPost.
  destruct (List.find _ table) eqn:Efind.
  - constructor.
    + now rewrite keys_update.
    + rewrite List.map_map. erewrite List.map_ext; [exact Hi|].
      intros q. cbn. destruct (String.eqb _ _); [apply Huid | reflexivity].
    + apply Forall_fmap. eapply Forall_impl; [exact Hf|].
      intros q Hq. cbn. destruct (String.eqb _ _); [now rewrite Huid | exact Hq].
  - apply find_absent in Efind. constructor.
    + rewrite map_app. apply NoDup_app. split; [exact Hk|]. split.
      * intros x Hx Hx'. cbn in Hx'. apply list_elem_of_singleton in Hx'.
        subst x. now rewrite Hckey in Hx.
      * cbn. apply NoDup_singleton.
    + rewrite map_app. apply NoDup_app. split; [exact Hi|]. split.
      * intros x Hx Hx'. cbn in Hx'. apply list_elem_of_singleton in Hx'.
        subst x. rewrite Hcid in Hx.
        apply list_elem_of_fmap in Hx as (q & Hq & Hin).
        rewrite Forall_forall in Hf. specialize (Hf q Hin). cbn in Hf. lia.
      * cbn. apply NoDup_singleton.
    + apply Forall_app. split.
      * eapply Forall_impl; [exact Hf|]. cbn. intros q Hq. lia.
      * constructor; [|constructor]. rewrite Hcid. lia.
Qed.

Lemma find_default_absent (table : list User.t) :
  List.find (fun u => String.eqb (User.username u) "default") table = None ->
  "default" ∉ map User.username table.
Proof.
  induction table as [|u rest IH]; cbn [List.find map].
  - intros _ H. inversion H.
  - destruct (String.eqb_spec (User.username u) "default") as [|Hne];
      [discriminate|].
    intros Hnone Hin. apply elem_of_cons in Hin as [Heq|Hin];
      [congruence | now apply IH].
Qed.

Section Invariants.

Variable parseDate : string -> option Z.

Lemma acceptedAs_key (row : ImportedPostRow.t) (x : string) (t : Z) :
  acceptedAs parseDate row = Some (x, t) ->
  exists k, ImportedPostRow.postId row = Some k /\ x = Js.trim k.
Proof.
  unfold acceptedAs.
  destruct (ImportedPostRow.postId row) as [k|]; [|discriminate].
  destruct (ImportedPostRow.createdAt row) as [c|]; [|discriminate].
  destruct (_ && _); [|discriminate].
  destruct (parseDate c); [|discriminate].
  intros H. inversion H. now exists k.
Qed.

(** X14. Whatever datastore calls fail, the import leaves as it is every
    post whose external identifier is not the trimmed postId of a row of
    the file. *)
Theorem saveImportedPosts_other_posts (data : ImportData) (w : World)
        (p : Post.t) :
  p ∈ posts w ->
  (forall row k, row ∈ data_rows data ->
                 ImportedPostRow.postId row = Some k ->
                 Js.trim k <> Post.x_post_id p) ->
  p ∈ posts (snd (saveImportedPosts parseDate data w)).
Proof.
  intros Hp Hrows. revert Hp. fold (keepsPost p w (snd (saveImportedPosts parseDate data w))).
  assert (Hrefl : forall a, keepsPost p a a) by (intros a H; exact H).
  assert (Htrans : forall a b c, keepsPost p a b -> keepsPost p b c ->
                                 keepsPost p a c)
    by (intros a b c Hab Hbc H; exact (Hbc (Hab H))).
  assert (Hfaults : forall a f, keepsPost p a (set_faults f a))
    by (intros a f H; exact H).
  apply respects_saveImportedPosts; try assumption.
  - intros line a H. exact H.
  - intros status t. respects_unchanged Htrans Hfaults. intros H; exact H.
  - intros id t. respects_unchanged Htrans Hfaults; intros H; exact H.
  - intros id message t. respects_unchanged Htrans Hfaults; intros H; exact H.
  - respects_unchanged Htrans Hfaults; intros H; exact H.
  - intros user_id filename row_count source_label.
    respects_unchanged Htrans Hfaults. intros H; exact H.
  - intros user imp row acc Hrow. rewrite processRow_eq.
    destruct (acceptedAs parseDate row) as [[x t]|] eqn:Eacc;
      [|apply respects_ret, Hrefl].
    destruct (acceptedAs_key _ _ _ Eacc) as (k & Hk & ->).
    apply respects_bind; [exact Htrans| |intros q; apply respects_ret, Hrefl].
    apply respects_datastore; [exact Htrans | exact Hfaults|].
    intros a Ha.
    pose proof (upsertPost_keeps (Js.trim k)
                  (postUpdate (default "" (ImportedPostRow.text row)) t)
                  (postCreate user (Js.trim k)
                              (default "" (ImportedPostRow.text row)) t)
                  (posts a) (nextId a) p (Hrows row k Hrow Hk) Ha) as Hup.
    destruct (prisma.upsertPost _ _ _ _ _) as [[q table] fresh].
    exact Hup.
  - intros snapshots. respects_unchanged Htrans Hfaults. intros H; exact H.
Qed.

(** X15. Whatever the rows are and whatever datastore calls fail, the
    import keeps the unique constraints of the store: no two posts with
    the same external identifier or the same identifier, every post
    identifier below the identifier counter, and no two users with the
    same username. *)
Theorem saveImportedPosts_keeps_constraints (data : ImportData) (w : World) :
  soundStore w -> soundStore (snd (saveImportedPosts parseDate data w)).
Proof.
  fold (keepsSound w (snd (saveImportedPosts parseDate data w))).
  assert (Hrefl : forall a, keepsSound a a) by (intros a H; exact H).
  assert (Htrans : forall a b c, keepsSound a b -> keepsSound b c ->
                                 keepsSound a c)
    by (intros a b c Hab Hbc H; exact (Hbc (Hab H))).
  assert (Hfaults : forall a f, keepsSound a (set_faults f a))
    by (intros a f [H1 H2]; constructor; [exact H1 | exact H2]).
  assert (Hbump : forall a, soundStore a ->
                            soundStore (set_nextId (S (nextId a)) a)).
  { intros a [H1 H2]. constructor; wsimpl; [|exact H2].
    eapply soundPosts_le; [|exact H1]. lia. }
  apply respects_saveImportedPosts; try assumption.
  - intros line a [H1 H2]. constructor; [exact H1 | exact H2].
  - intros status t. respects_unchanged Htrans Hfaults.
    intros H. apply Hbump in H. destruct H as [H1 H2].
    constructor; [exact H1 | exact H2].
  - intros id t. respects_unchanged Htrans Hfaults;
      intros [H1 H2]; constructor; assumption.
  - intros id message t. respects_unchanged Htrans Hfaults;
      intros [H1 H2]; constructor; assumption.
  - apply respects_datastore; [exact Htrans | exact Hfaults|].
    intros a. destruct (List.find _ (users a)) eqn:Efind; cbn [snd];
      [apply Hrefl|].
    intros H. apply Hbump in H. destruct H as [H1 H2].
    constructor; wsimpl; [exact H1|].
    rewrite map_app. apply NoDup_app. split; [exact H2|]. split.
    + intros x Hx Hx'. cbn in Hx'. apply list_elem_of_singleton in Hx'.
      subst x. now apply find_default_absent in Efind.
    + cbn. apply NoDup_singleton.
  - intros user_id filename row_count source_label.
    respects_unchanged Htrans Hfaults.
    intros H. apply Hbump in H. destruct H as [H1 H2].
    constructor; [exact H1 | exact H2].
  - intros user imp row acc _. rewrite processRow_eq.
    destruct (acceptedAs parseDate row) as [[x t]|];
      [|apply respects_ret, Hrefl].
    apply respects_bind; [exact Htrans| |intros q; apply respects_ret, Hrefl].
    apply respects_datastore; [exact Htrans | exact Hfaults|].
    intros a [H1 H2].
    pose proof (upsertPost_sound x
                  (postUpdate (default "" (ImportedPostRow.text row)) t)
                  (postCreate user x (default "" (ImportedPostRow.text row)) t)
                  (posts a) (nextId a)
                  (fun q => eq_refl) (fun q => eq_refl)
                  (fun id => eq_refl) (fun id => eq_refl) H1) as Hup.
    destruct (prisma.upsertPost _ _ _ _ _) as [[q table] fresh].
    cbn [snd]. constructor; wsimpl; [exact Hup | exact H2].
  - intros snapshots. respects_unchanged Htrans Hfaults.
    intros [H1 H2]; constructor; assumption.
Qed.

End Invariants.

Lemma saveImportedPosts_other_posts_witness :
  let p := Post.mk 0 0 "9" "kept" 5%Z 4 1 false true 0 0 "standard" in
  p ∈ posts (snd (saveImportedPosts SampleDate.parse (sampleData threeRows)
                    (set_faults [None; None; None; Some OtherValue]
                                (set_nextId 1 (set_posts [p] sampleWorld))))).
Proof.
  intros p. apply saveImportedPosts_other_posts.
  - cbn. apply list_elem_of_here.
  - intros row k Hrow Hk. apply list_elem_of_In in Hrow. cbn in Hrow.
    destruct Hrow as [<-|[<-|[<-|[]]]]; cbn in Hk;
      first [discriminate Hk
            | (injection Hk as <-; intros H; vm_compute in H; discriminate H)].
Defined.

Lemma saveImportedPosts_keeps_constraints_witness :
  soundStore
    (snd (saveImportedPosts SampleDate.parse
            (sampleData (threeRows ++ threeRows))
            (set_faults [None; None; None; None; None; Some OtherValue]
                        sampleWorld))).
Proof.
  apply saveImportedPosts_keeps_constraints.
  constructor; [constructor|]; cbn; constructor.
Defined.

(** *** The batches *)

Lemma batchesFrom_lookup (size : nat) :
  0 < size ->
  forall (fuel : nat) (rows : list ImportedPostRow.t) (i : nat),
    length rows <= fuel ->
    batchesFrom fuel size rows !! i
    = if Nat.ltb (size * i) (length rows)
      then Some (slice (size * i) size rows) else None.
Proof.
  intros Hsize. induction fuel as [|fuel IH]; intros rows i Hlen.
  - destruct rows; [|cbn in Hlen; lia]. cbn.
    now destruct (Nat.ltb_spec (size * i) 0); [lia|].
  - destruct rows as [|r rows].
    + cbn. now destruct (Nat.ltb_spec (size * i) 0); [lia|].
    + cbn [batchesFrom]. destruct i as [|i].
      * rewrite Nat.mul_0_r. cbn [lookup list_lookup]. unfold slice.
        now rewrite drop_0.
      * cbn [lookup list_lookup]. change (batchesFrom fuel size (drop size (r :: rows)) !! i
                = if Nat.ltb (size * S i) (length (r :: rows))
                  then Some (slice (size * S i) size (r :: rows)) else None).
        rewrite IH by (rewrite length_drop; cbn [length] in *; lia).
        rewrite length_drop. unfold slice. rewrite drop_drop.
        replace (size + size * i) with (size * S i) by lia.
        destruct (Nat.ltb_spec (size * i) (length (r :: rows) - size));
          destruct (Nat.ltb_spec (size * S i) (length (r :: rows)));
          first [reflexivity | lia].
Qed.

(** X16. The batch loop cuts the rows into consecutive slices of fifty:
    batch number i is rows.slice(50 i, 50 i + 50) as long as 50 i is below
    the number of rows, there are as many batches as the number of rows
    divided by fifty and rounded up, no batch is empty, and the batches
    put end to end are the rows. *)
Theorem batches_slices (rows : list ImportedPostRow.t) :
  (forall i, batches BATCH_SIZE rows !! i
             = if Nat.ltb (BATCH_SIZE * i) (length rows)
               then Some (slice (BATCH_SIZE * i) BATCH_SIZE rows) else None)
  /\ length (batches BATCH_SIZE rows) = (length rows + 49) / 50
  /\ Forall (fun batch => 1 <= length batch <= BATCH_SIZE)
            (batches BATCH_SIZE rows)
  /\ concat (batches BATCH_SIZE rows) = rows.
Proof.
  assert (Hlookup : forall i, batches BATCH_SIZE rows !! i
             = if Nat.ltb (BATCH_SIZE * i) (length rows)
               then Some (slice (BATCH_SIZE * i) BATCH_SIZE rows) else None).
  { intros i. unfold batches. apply batchesFrom_lookup; [unfold BATCH_SIZE|]; lia. }
  split; [exact Hlookup|]. split; [|split; [|apply batches_concat]].
  - set (n := length (batches BATCH_SIZE rows)).
    set (q := (length rows + 49) / 50).
    pose proof (Nat.div_mod_eq (length rows + 49) 50) as Hdiv.
    pose proof (Nat.mod_upper_bound (length rows + 49) 50) as Hmod.
    fold q in Hdiv.
    destruct (Nat.lt_trichotomy n q) as [Hlt|[Heq|Hgt]]; [|exact Heq|].
    + pose proof (Hlookup n) as Hn.
      rewrite (lookup_ge_None_2 _ n) in Hn by (fold n; lia).
      unfold BATCH_SIZE in Hn.
      destruct (Nat.ltb_spec (50 * n) (length rows)); [discriminate | lia].
    + pose proof (Hlookup q) as Hq.
      destruct (lookup_lt_is_Some_2 (batches BATCH_SIZE rows) q) as [b Hb];
        [fold n; lia|].
      rewrite Hb in Hq. unfold BATCH_SIZE in Hq.
      destruct (Nat.ltb_spec (50 * q) (length rows)); [lia | discriminate].
  - apply Forall_lookup. intros i batch Hi. rewrite Hlookup in Hi.
    unfold BATCH_SIZE in *.
    destruct (Nat.ltb_spec (50 * i) (length rows)); [|discriminate].
    inversion Hi; subst batch. unfold slice.
    rewrite length_take, length_drop. lia.
Qed.

(** *** Failures outside the row loop, and what the snapshots refer to *)

Section FirstFailure.

Variable parseDate : string -> option Z.

Lemma upsertPost_carries (key : string) (update : Post.t -> Post.t)
      (create : nat -> Post.t) (table : list Post.t) (fresh : nat)
      (q : Post.t) :
  (forall r, Post.x_post_id (update r) = Post.x_post_id r) ->
  (forall r, Post.id (update r) = Post.id r) ->
  q ∈ table ->
  let '(_, table', _) := prisma.upsertPost key update create table fresh in
  exists q', q' ∈ table' /\ Post.id q' = Post.id q
             /\ Post.x_post_id q' = Post.x_post_id q.
Proof.
  intros Hkey Hid Hq. unfold prisma.upsertPost.
  destruct (List.find _ table).
  - exists (if String.eqb (Post.x_post_id q) key then update q else q).
    split.
    + apply list_elem_of_fmap. now exists q.
    + destruct (String.eqb _ _); [now rewrite Hid, Hkey | now split].
  - exists q. split; [apply elem_of_app; now left | now split].
Qed.

Lemma runRows_refers (user : User.t) (imp : ImportRecord.t)
      (rows : list ImportedPostRow.t) :
  forall (st : Loop) (done : list ImportedPostRow.t),
    Forall2 (refersTo (loop_posts st) imp) done (loop_snapshots st) ->
    Forall2 (refersTo (loop_posts (runRows parseDate user imp rows st)) imp)
            (done ++ List.filter (accepted parseDate) rows)
            (loop_snapshots (runRows parseDate user imp rows st)).
Proof.
  induction rows as [|row rest IH]; intros st done Hdone.
  - cbn. now rewrite app_nil_r.
  - cbn [runRows List.filter].
    destruct (acceptedAs parseDate row) as [[x t]|] eqn:Eacc.
    + assert (Hacc : accepted parseDate row = true)
        by (apply acceptedAs_accepted; rewrite Eacc; now eexists).
      rewrite Hacc.
      destruct (acceptedAs_key parseDate _ _ _ Eacc) as (k & Hk & ->).
      set (text := default "" (ImportedPostRow.text row)).
      pose proof (upsertPost_result (Js.trim k) (postUpdate text t)
                    (postCreate user (Js.trim k) text t)
                    (loop_posts st) (loop_nextId st)
                    (fun q => eq_refl) (fun id => eq_refl)) as Hres.
      assert (Hcarry : forall q, q ∈ loop_posts st ->
                let '(_, table', _) :=
                  prisma.upsertPost (Js.trim k) (postUpdate text t)
                    (postCreate user (Js.trim k) text t)
                    (loop_posts st) (loop_nextId st) in
                exists q', q' ∈ table' /\ Post.id q' = Post.id q
                           /\ Post.x_post_id q' = Post.x_post_id q).
      { intros q Hq. now apply upsertPost_carries. }
      destruct (prisma.upsertPost _ _ _ _ _) as [[p table] fresh].
      destruct Hres as (Hp & Hpkey & _).
      replace (done ++ row :: List.filter (accepted parseDate) rest)
        with ((done ++ [row]) ++ List.filter (accepted parseDate) rest)
        by now rewrite <- app_assoc.
      apply IH. cbn [loop_posts loop_snapshots].
      apply Forall2_app.
      * eapply Forall2_impl; [exact Hdone|].
        intros r s (Himp & q & Hq & Hqid & Hqkey). split; [exact Himp|].
        destruct (Hcarry q Hq) as (q' & Hq' & Hid' & Hkey').
        exists q'. split; [exact Hq'|]. split; congruence.
      * constructor; [|constructor]. split; [reflexivity|].
        exists p. split; [exact Hp|]. split; [reflexivity|].
        unfold keyOf. now rewrite Hk.
    + assert (Hacc : accepted parseDate row = false).
      { unfold accepted. apply negb_false_iff. now apply acceptedAs_None. }
      rewrite Hacc. now apply IH.
Qed.

Lemma sameData_recomputeAnalytics : respects sameData recomputeAnalytics.
Proof.
  assert (Htrans : forall a b c, sameData a b -> sameData b c -> sameData a c).
  { intros a b c (H1 & H2 & H3 & H4) (K1 & K2 & K3 & K4).
    repeat split; congruence. }
  assert (Hfaults : forall a f, sameData a (set_faults f a))
    by (intros a f; now repeat split).
  apply respects_recomputeAnalytics.
  - intros a. now repeat split.
  - exact Htrans.
  - intros line a. now repeat split.
  - intros status t. respects_unchanged Htrans Hfaults. now repeat split.
  - intros id t. respects_unchanged Htrans Hfaults; now repeat split.
  - intros id message t. respects_unchanged Htrans Hfaults; now repeat split.
Qed.

Lemma Forall2_In_l {A B : Type} (P : A -> B -> Prop) (l : list A)
      (k : list B) (x : A) :
  Forall2 P l k -> In x l -> exists y, In y k /\ P x y.
Proof.
  induction 1 as [|a b l k Hab Hrest IH]; intros Hx; [destruct Hx|].
  destruct Hx as [->|Hx].
  - exists b. split; [now left | exact Hab].
  - destruct (IH Hx) as (y & Hy & HP). exists y. split; [now right | exact HP].
Qed.

Lemma loopOf_refers (data : ImportData) (w : World) :
  Forall2 (refersTo (loop_posts (loopOf parseDate data w))
                    (importRecordOf data w))
          (List.filter (accepted parseDate) (data_rows data))
          (loop_snapshots (loopOf parseDate data w)).
Proof.
  apply (runRows_refers (importUser w) (importRecordOf data w)
           (data_rows data)
           {| loop_posts := posts w; loop_nextId := S (idAfterUser w);
              loop_snapshots := [] |} []).
  constructor.
Qed.

Lemma loopOf_keys (data : ImportData) (w : World) (row : ImportedPostRow.t) :
  row ∈ data_rows data -> accepted parseDate row = true ->
  exists p, p ∈ loop_posts (loopOf parseDate data w)
            /\ Post.x_post_id p = keyOf row.
Proof.
  intros Hrow Hacc.
  destruct (Forall2_In_l _ _ _ row (loopOf_refers data w))
    as (s & _ & _ & p & Hp & _ & Hkey).
  - apply List.filter_In. split; [now apply list_elem_of_In | exact Hacc].
  - now exists p.
Qed.

(** X17. When the first datastore call that fails is the upsert of the
    user, the creation of the import record or the batch write of the
    snapshots, the import returns failure with the message of that error,
    no snapshot at all is stored and no recompute run is recorded; nothing
    is rolled back: when the batch write fails the import record stays
    and every row that is not skipped has its post in the posts table;
    when the creation of the import record fails only the user upsert has
    taken effect; when the user upsert fails no table is written to. *)
Theorem saveImportedPosts_first_failure (data : ImportData) (w : World)
        (j : nat) (e : Thrown) :
  calm j w -> planAt (faults w) j = Some e ->
  j < importCalls parseDate (data_rows data) ->
  j < 2 \/ j = 2 + calls parseDate (data_rows data) ->
  exists w',
    saveImportedPosts parseDate data w
    = (Returned (ImportFailed (messageOf e)), w')
    /\ metricsSnapshots w' = metricsSnapshots w
    /\ recomputeRuns w' = recomputeRuns w
    /\ (j = 0 -> users w' = users w /\ imports w' = imports w
                 /\ posts w' = posts w /\ nextId w' = nextId w)
    /\ (j = 1 -> users w' = usersAfter w /\ imports w' = imports w
                 /\ posts w' = posts w)
    /\ (2 <= j ->
        users w' = usersAfter w
        /\ imports w' = imports w ++ [importRecordOf data w]
        /\ forall row, row ∈ data_rows data ->
                       accepted parseDate row = true ->
                       exists p, p ∈ posts w'
                                 /\ Post.x_post_id p = keyOf row).
Proof.
  intros Hcalm Hplan Hj Hwhere. unfold importCalls in Hj.
  unfold saveImportedPosts. rewrite tryCatch_run.
  rewrite bind_run, consoleLog_run. fold (startLine data).
  rewrite bind_run.
  destruct j as [|[|j]].
  - unfold prisma.user_upsert.
    rewrite (datastore_throw _ _ e) by (wsimpl; exact Hplan).
    rewrite bind_run, consoleLog_run, ret_run.
    eexists. split; [reflexivity|]. wsimpl.
    split; [reflexivity|]. split; [reflexivity|].
    split; [now repeat split|]. split; intros; lia.
  - rewrite user_upsert_run by (wsimpl; apply Hcalm; lia).
    rewrite bind_run. unfold prisma.import_create.
    rewrite (datastore_throw _ _ e) by (wsimpl; now rewrite planAt_tail).
    rewrite bind_run, consoleLog_run, ret_run.
    eexists. split; [reflexivity|]. wsimpl.
    rewrite !usersAfter_console.
    split; [reflexivity|]. split; [reflexivity|].
    split; [intros; lia|]. split; [now repeat split | intros; lia].
  - assert (Hjc : j = calls parseDate (data_rows data)) by lia.
    destruct (Nat.eqb_spec (calls parseDate (data_rows data)) 0) as [|Hpos];
      [lia|].
    rewrite user_upsert_run by (wsimpl; apply Hcalm; lia).
    rewrite bind_run, import_create_run
      by (wsimpl; rewrite planAt_tail; apply Hcalm; lia).
    rewrite bind_run.
    erewrite promiseAll_batches
      by (rewrite batches_concat; apply forEach_processRow;
          intros i Hi; wsimpl; rewrite !planAt_tail; apply Hcalm; lia).
    wsimpl. cbv zeta.
    rewrite !importUser_console, !idAfterUser_console, !usersAfter_console.
    fold (importFilename data). fold (importRecordOf data w).
    fold (loopOf parseDate data w).
    rewrite bind_run.
    pose proof (loopOf_length parseDate data w) as Hlen.
    destruct (Nat.ltb_spec 0 (length (loop_snapshots (loopOf parseDate data w))));
      [|lia].
    unfold prisma.metricsSnapshot_createMany.
    rewrite (datastore_throw _ _ e)
      by (wsimpl; rewrite planAt_drop, !planAt_tail, Nat.add_0_r, <- Hjc;
          exact Hplan).
    rewrite bind_run, consoleLog_run, ret_run.
    eexists. split; [reflexivity|]. wsimpl.
    split; [reflexivity|]. split; [reflexivity|].
    split; [intros; lia|]. split; [intros; lia|].
    intros _. split; [reflexivity|]. split; [reflexivity|].
    intros row Hrow Hacc. now apply loopOf_keys.
Qed.

(** X18. When no datastore call of the import proper fails, whatever the
    recompute does, the snapshots stored are in one-to-one correspondence
    with the rows that are not skipped: each belongs to the new import
    record, which is in the imports table, and to a post of the posts
    table whose external identifier is the trimmed postId of its row.
    Nothing is said of the order in which they are stored. *)
Theorem saveImportedPosts_references (data : ImportData) (w : World) :
  calm (importCalls parseDate (data_rows data)) w ->
  let w' := snd (saveImportedPosts parseDate data w) in
  exists (snaps : list MetricsSnapshot.t) (order : list ImportedPostRow.t),
    metricsSnapshots w' = metricsSnapshots w ++ snaps
    /\ Permutation order (List.filter (accepted parseDate) (data_rows data))
    /\ Forall2 (refersTo (posts w') (importRecordOf data w)) order snaps
    /\ importRecordOf data w ∈ imports w'.
Proof.
  intros Hcalm w'. unfold w'. rewrite (saveImportedPosts_phases _ _ _ Hcalm).
  pose proof (sameData_recomputeAnalytics (afterImport parseDate data w))
    as (_ & Himports & Hposts & Hsnaps).
  exists (loop_snapshots (loopOf parseDate data w)),
         (List.filter (accepted parseDate) (data_rows data)).
  assert (Hgoal :
    forall w2, imports w2 = imports (afterImport parseDate data w) ->
               posts w2 = posts (afterImport parseDate data w) ->
               metricsSnapshots w2
               = metricsSnapshots (afterImport parseDate data w) ->
      metricsSnapshots w2
      = metricsSnapshots w ++ loop_snapshots (loopOf parseDate data w)
      /\ Permutation (List.filter (accepted parseDate) (data_rows data))
                     (List.filter (accepted parseDate) (data_rows data))
      /\ Forall2 (refersTo (posts w2) (importRecordOf data w))
           (List.filter (accepted parseDate) (data_rows data))
           (loop_snapshots (loopOf parseDate data w))
      /\ importRecordOf data w ∈ imports w2).
  { intros w2 -> -> ->. cbn [afterImport imports posts metricsSnapshots].
    split; [reflexivity|]. split; [reflexivity|]. split.
    - apply loopOf_refers.
    - apply elem_of_app. right. apply list_elem_of_here. }
  destruct (recomputeAnalytics (afterImport parseDate data w)) as [[r|err] w2];
    cbn [snd] in *; wsimpl; now apply Hgoal.
Qed.

End FirstFailure.

Lemma saveImportedPosts_first_failure_witness :
  exists w',
    saveImportedPosts SampleDate.parse (sampleData threeRows)
      (set_faults [None; None; None; None; Some (ErrorObject "write failed")]
                  sampleWorld)
    = (Returned (ImportFailed "write failed"), w')
    /\ metricsSnapshots w' = []
    /\ recomputeRuns w' = []
    /\ length (imports w') = 1
    /\ exists p, p ∈ posts w' /\ Post.x_post_id p = "3".
Proof.
  destruct (saveImportedPosts_first_failure SampleDate.parse
              (sampleData threeRows)
              (set_faults [None; None; None; None; Some (ErrorObject "write failed")]
                          sampleWorld)
              4 (ErrorObject "write failed"))
    as (w' & Hrun & Hs & Hr & _ & _ & Hlast).
  - intros i Hi. destruct i as [|[|[|[|i]]]]; first [reflexivity | lia].
  - reflexivity.
  - vm_compute. lia.
  - right. reflexivity.
  - exists w'. split; [exact Hrun|]. split; [exact Hs|]. split; [exact Hr|].
    destruct Hlast as (_ & Himp & Hposts); [lia|]. rewrite Himp.
    split; [reflexivity|].
    apply (Hposts (sampleRow (Some "3") (Some "third post") (Some "2024-01-03"))).
    + cbn. do 2 apply list_elem_of_further. apply list_elem_of_here.
    + reflexivity.
Defined.

Lemma saveImportedPosts_references_witness :
  exists s1 s2,
    metricsSnapshots
      (snd (saveImportedPosts SampleDate.parse (sampleData threeRows)
              (set_faults [None; None; None; None; None; Some OtherValue]
                          sampleWorld)))
    = [s1; s2]
    /\ MetricsSnapshot.import_id s1 = 1
    /\ MetricsSnapshot.import_id s2 = 1.
Proof.
  destruct (saveImportedPosts_references SampleDate.parse
              (sampleData threeRows)
              (set_faults [None; None; None; None; None; Some OtherValue]
                          sampleWorld))
    as (snaps & order & Hsnaps & Hperm & Hall & _).
  - intros i Hi. vm_compute in Hi.
    destruct i as [|[|[|[|[|i]]]]]; first [reflexivity | lia].
  - rewrite Hsnaps. cbn [app metricsSnapshots set_faults sampleWorld].
    apply Permutation_length in Hperm.
    change (length (List.filter (accepted SampleDate.parse)
                                (data_rows (sampleData threeRows))))
      with 2 in Hperm.
    destruct order as [|r1 [|r2 [|r3 rest]]]; try discriminate Hperm.
    inversion Hall as [|a s1 l1 l2 H1 Hrest]; subst.
    inversion Hrest as [|b s2 l3 l4 H2 Hnil]; subst.
    inversion Hnil; subst.
    exists s1, s2. split; [reflexivity|].
    destruct H1 as [H1 _]. destruct H2 as [H2 _]. now split.
Defined.

(** *** The outcomes of the recompute *)

(** X19. The recompute and its audit log, for every way its three
    datastore calls can fail, in a store whose run identifiers are below
    the identifier counter: it adds at most one run and changes no older
    run; when the creation of the run fails it throws and records
    nothing; when the first update succeeds it returns success and the new
    run is SUCCESS; when the first update fails and the second succeeds it
    returns the failure with the error's message and the new run is FAILED
    with that message; when both updates fail it throws the second error
    and the new run stays STARTED, without an end time. *)
Theorem recomputeAnalytics_outcomes (w : World) :
  Forall (fun r => RecomputeRun.id r < nextId w) (recomputeRuns w) ->
  let result := fst (recomputeAnalytics w) in
  let runs := recomputeRuns (snd (recomputeAnalytics w)) in
  match planAt (faults w) 0, planAt (faults w) 1, planAt (faults w) 2 with
  | Some e, _, _ =>
      result = Threw e /\ runs = recomputeRuns w
  | None, None, _ =>
      exists run,
        runs = recomputeRuns w ++ [run]
        /\ result = Returned (RecomputeOk (RecomputeRun.id run))
        /\ RecomputeRun.status run = SUCCESS
        /\ RecomputeRun.ended_at run <> None
        /\ RecomputeRun.error_text run = None
  | None, Some e, None =>
      exists run,
        runs = recomputeRuns w ++ [run]
        /\ result = Returned (RecomputeFailed (messageOf e))
        /\ RecomputeRun.status run = FAILED
        /\ RecomputeRun.ended_at run <> None
        /\ RecomputeRun.error_text run = Some (messageOf e)
  | None, Some _, Some e =>
      exists run,
        runs = recomputeRuns w ++ [run]
        /\ result = Threw e
        /\ RecomputeRun.status run = STARTED
        /\ RecomputeRun.ended_at run = None
        /\ RecomputeRun.error_text run = None
  end.
Proof.
  intros Hfresh result runs. unfold result, runs.
  destruct (planAt (faults w) 0) as [e0|] eqn:H0.
  - rewrite (recomputeAnalytics_throws _ _ H0). now split.
  - destruct (planAt (faults w) 1) as [e1|] eqn:H1.
    + destruct (planAt (faults w) 2) as [e2|] eqn:H2.
      * rewrite (recomputeAnalytics_stuck _ _ _ H0 H1 H2).
        eexists. split; [reflexivity|]. now repeat split.
      * rewrite (recomputeAnalytics_failed _ _ H0 H1 H2).
        cbn [fst snd recomputeRuns]. rewrite markRun_fresh by exact Hfresh.
        eexists. split; [reflexivity|]. now repeat split.
    + rewrite recomputeAnalytics_ok.
      * cbn [fst snd recomputeRuns]. rewrite markRun_fresh by exact Hfresh.
        eexists. split; [reflexivity|]. now repeat split.
      * intros i Hi. destruct i as [|[|i]]; [exact H0 | exact H1 | lia].
Qed.

Lemma recomputeAnalytics_outcomes_witness :
  let w := set_faults [None; Some (ErrorObject "a"); Some (ErrorObject "b")]
                      sampleWorld in
  fst (recomputeAnalytics w) = Threw (ErrorObject "b")
  /\ map RecomputeRun.status (recomputeRuns (snd (recomputeAnalytics w)))
     = [STARTED].
Proof.
  intros w.
  pose proof (recomputeAnalytics_outcomes w) as H.
  change (planAt (faults w) 0) with (@None Thrown) in H.
  change (planAt (faults w) 1) with (Some (ErrorObject "a")) in H.
  change (planAt (faults w) 2) with (Some (ErrorObject "b")) in H.
  cbv zeta in H. destruct H as (run & Hruns & Hres & Hstatus & _); [constructor|].
  rewrite Hres, Hruns. split; [reflexivity|]. rewrite map_app. cbn.
  now rewrite Hstatus.
Defined.

(** ** The normal form applied twice *)

Lemma allChars_trimStart (P : ascii -> bool) (s : string) :
  allChars P s = true -> allChars P (Js.trimStart s) = true.
Proof.
  induction s as [|c t IH]; intros H; [reflexivity|].
  cbn [Js.trimStart]. destruct (Js.isSpace c); [|exact H].
  cbn [allChars] in H. apply andb_true_iff in H as [_ Ht]. now apply IH.
Qed.

Lemma allChars_trimEnd (P : ascii -> bool) (s : string) :
  allChars P s = true -> allChars P (Js.trimEnd s) = true.
Proof.
  induction s as [|c t IH]; intros H; [reflexivity|].
  cbn [allChars] in H. apply andb_true_iff in H as [Hc Ht].
  specialize (IH Ht). cbn [Js.trimEnd].
  destruct (Js.trimEnd t) as [|d u].
  - destruct (Js.isSpace c); [reflexivity|]. cbn [allChars]. now rewrite Hc.
  - cbn [allChars] in *. now rewrite Hc, IH.
Qed.

Lemma replaceRuns_none (cls : ascii -> bool) (s : string) :
  allChars (fun c => negb (cls c)) s = true -> Js.replaceRuns cls s = s.
Proof.
  induction s as [|c t IH]; intros H; [reflexivity|].
  cbn [allChars] in H. apply andb_true_iff in H as [Hc Ht].
  apply negb_true_iff in Hc. rewrite replaceRuns_cons, Hc. now rewrite IH.
Qed.

Lemma keepOnly_all (keep : ascii -> bool) (s : string) :
  allChars keep s = true -> Js.keepOnly keep s = s.
Proof.
  induction s as [|c t IH]; intros H; [reflexivity|].
  cbn [allChars] in H. apply andb_true_iff in H as [Hc Ht].
  cbn [Js.keepOnly]. now rewrite Hc, IH.
Qed.

Lemma isNormChar_classes (c : ascii) :
  isNormChar c = true ->
  negb (isUnderscoreOrHyphen c) = true /\ isWordSpaceOrPercent c = true.
Proof.
  destruct c as [[] [] [] [] [] [] [] []]; vm_compute;
    intros H; first [discriminate H | now split].
Qed.

(** On a string of the normal alphabet only the trimming and the
    collapsing of white space act. *)
Lemma norm_on_alphabet (t : string) :
  allChars isNormChar t = true ->
  norm t = Js.replaceRuns Js.isSpace (Js.trim t).
Proof.
  intros Ht. unfold norm.
  assert (Htrim : allChars isNormChar (Js.trim t) = true)
    by (unfold Js.trim; now apply allChars_trimEnd, allChars_trimStart).
  rewrite (allChars_lower_fixed (Js.trim t))
    by (revert Htrim; apply allChars_impl, isNormChar_not_upper).
  assert (Hspaced : allChars isNormChar
                      (Js.replaceRuns Js.isSpace (Js.trim t)) = true)
    by now apply allChars_replaceRuns.
  rewrite (replaceRuns_none isUnderscoreOrHyphen).
  - apply keepOnly_all. revert Hspaced. apply allChars_impl.
    intros c Hc. now apply isNormChar_classes.
  - revert Hspaced. apply allChars_impl.
    intros c Hc. now apply isNormChar_classes.
Qed.

Lemma replaceRuns_idempotent (cls : ascii -> bool) (s : string) :
  cls " "%char = true ->
  Js.replaceRuns cls (Js.replaceRuns cls s) = Js.replaceRuns cls s.
Proof.
  intros Hsp. induction s as [|c t IH]; [reflexivity|].
  rewrite (replaceRuns_cons cls c t).
  destruct (cls c) eqn:Hc.
  - destruct t as [|d u]; [cbn; now rewrite Hsp|].
    destruct (cls d) eqn:Hd; [exact IH|].
    rewrite (replaceRuns_cons cls d u), Hd in *.
    rewrite (replaceRuns_cons cls " " (String d _)), Hsp, Hd.
    now rewrite IH.
  - rewrite (replaceRuns_cons cls c _), Hc. now rewrite IH.
Qed.

Lemma replaceRuns_nonempty (cls : ascii -> bool) (s : string) :
  s <> "" -> Js.replaceRuns cls s <> "".
Proof.
  induction s as [|c t IH]; [congruence|]. intros _.
  rewrite replaceRuns_cons. destruct (cls c); [|discriminate].
  destruct t as [|d u]; [discriminate|].
  destruct (cls d); [apply IH|]; discriminate.
Qed.

Lemma trimStart_length (s : string) :
  String.length (Js.trimStart s) <= String.length s.
Proof.
  induction s as [|c t IH]; [reflexivity|].
  cbn [Js.trimStart]. destruct (Js.isSpace c); cbn [String.length]; lia.
Qed.

Lemma trimStart_fixed (s : string) :
  Js.trimStart s = s ->
  Js.trimStart (Js.replaceRuns Js.isSpace s) = Js.replaceRuns Js.isSpace s.
Proof.
  destruct s as [|c t]; [reflexivity|]. cbn [Js.trimStart].
  destruct (Js.isSpace c) eqn:Hc.
  - intros H. pose proof (trimStart_length t) as Hlen.
    rewrite H in Hlen. cbn [String.length] in Hlen. lia.
  - intros _. rewrite replaceRuns_cons, Hc. cbn [Js.trimStart]. now rewrite Hc.
Qed.

Lemma trimEnd_fixed (s : string) :
  Js.trimEnd s = s ->
  Js.trimEnd (Js.replaceRuns Js.isSpace s) = Js.replaceRuns Js.isSpace s.
Proof.
  induction s as [|c t IH]; [reflexivity|]. intros H.
  assert (Hcases : (t = "" /\ Js.isSpace c = false)
                   \/ (t <> "" /\ Js.trimEnd t = t)).
  { cbn [Js.trimEnd] in H. destruct (Js.trimEnd t) as [|d u] eqn:Et.
    - destruct (Js.isSpace c); [discriminate|]. left.
      split; [now inversion H | reflexivity].
    - right. injection H as Ht.
      split; [rewrite <- Ht; discriminate | exact Ht]. }
  destruct Hcases as [[-> Hc]|[Hne Ht]].
  - rewrite replaceRuns_cons, Hc. cbn. now rewrite Hc.
  - specialize (IH Ht).
    pose proof (replaceRuns_nonempty Js.isSpace t Hne) as Hout.
    assert (Hkeep : forall a, Js.trimEnd (String a (Js.replaceRuns Js.isSpace t))
                              = String a (Js.replaceRuns Js.isSpace t)).
    { intros a. cbn [Js.trimEnd]. rewrite IH.
      now destruct (Js.replaceRuns Js.isSpace t). }
    rewrite replaceRuns_cons. destruct (Js.isSpace c); [|apply Hkeep].
    destruct t as [|d u]; [congruence|].
    destruct (Js.isSpace d); [exact IH | apply Hkeep].
Qed.

Lemma trim_fixed (s : string) :
  Js.trim (Js.replaceRuns Js.isSpace (Js.trim s))
  = Js.replaceRuns Js.isSpace (Js.trim s).
Proof.
  assert (Hstart : Js.trimStart (Js.trim s) = Js.trim s).
  { unfold Js.trim.
    now rewrite trimStart_trimEnd, trimStart_idempotent. }
  assert (Hend : Js.trimEnd (Js.trim s) = Js.trim s)
    by (unfold Js.trim; apply trimEnd_idempotent).
  unfold Js.trim at 1.
  rewrite (trimStart_fixed _ Hstart).
  now apply trimEnd_fixed.
Qed.

(** X20. The second application of norm reaches a fixed point: for every
    string, norm (norm s) is unchanged by a further norm, by trimming and
    by the collapsing of white space, although norm s itself need not
    be. *)
Theorem norm_settles (s : string) :
  norm (norm (norm s)) = norm (norm s)
  /\ Js.trim (norm (norm s)) = norm (norm s)
  /\ Js.replaceRuns Js.isSpace (norm (norm s)) = norm (norm s).
Proof.
  pose proof (norm_alphabet s) as Ha.
  pose proof (norm_alphabet (norm s)) as Hb.
  assert (Hnn : norm (norm s)
                = Js.replaceRuns Js.isSpace (Js.trim (norm s)))
    by now apply norm_on_alphabet.
  assert (Htrim : Js.trim (norm (norm s)) = norm (norm s))
    by (rewrite Hnn; apply trim_fixed).
  assert (Hcollapse : Js.replaceRuns Js.isSpace (norm (norm s)) = norm (norm s))
    by (rewrite Hnn; now apply replaceRuns_idempotent).
  split; [|split; assumption].
  rewrite (norm_on_alphabet (norm (norm s)) Hb). now rewrite Htrim.
Qed.

(** ** The submission and its result *)

Section SubmissionResult.

Variable parseDate : string -> option Z.

(** X21. Whatever datastore calls fail, submitting never throws inside
    the importer: onImport ends with the import result "ok" when the
    server action reports success and "err" when it reports failure,
    never "idle", and it keeps the file name, the headers, the rows, the
    mapping and the parse error of the importer as they are. *)
Theorem onImport_result (st : ImporterState) (w : World) :
  exists (st' : ImporterState) (res : ImportResult),
    fst (onImport parseDate st w) = Returned st'
    /\ fst (saveImportedPosts parseDate
              {| data_fileName := fileName st; data_mapping := mapping st;
                 data_rows := mappedRows st |} w) = Returned res
    /\ snd (onImport parseDate st w)
       = snd (saveImportedPosts parseDate
                {| data_fileName := fileName st; data_mapping := mapping st;
                   data_rows := mappedRows st |} w)
    /\ importResult st'
       = match res with
         | ImportOk _ => status_ok
         | ImportFailed _ => status_err
         end
    /\ fileName st' = fileName st /\ headers st' = headers st
    /\ rows st' = rows st /\ mapping st' = mapping st
    /\ parseError st' = parseError st.
Proof.
  set (payload := {| data_fileName := fileName st; data_mapping := mapping st;
                     data_rows := mappedRows st |}).
  destruct (saveImportedPosts_returns parseDate payload w) as [res Hres].
  unfold onImport. cbv zeta. rewrite tryCatch_run, bind_run.
  change (mappedRows (setImportResult status_idle st)) with (mappedRows st).
  change (fileName (setImportResult status_idle st)) with (fileName st).
  change (mapping (setImportResult status_idle st)) with (mapping st).
  fold payload.
  destruct (saveImportedPosts parseDate payload w) as [[r|e] w1];
    cbn [fst] in Hres; [|discriminate].
  injection Hres as ->. rewrite ret_run.
  eexists. exists res. cbn [fst snd].
  split; [reflexivity|]. split; [reflexivity|]. split; [reflexivity|].
  cbn. now repeat split.
Qed.

End SubmissionResult.

(** ** Evaluations on concrete inputs *)

Example norm_ex1 : norm "  Post_ID " = "post id". Proof. reflexivity. Qed.
Example norm_ex2 : norm "Engagement  Rate (%)" = "engagement rate %". Proof. reflexivity. Qed.
Example norm_ex3 : norm "a -b" = "a  b". Proof. reflexivity. Qed.
Example norm_ex4 : norm (norm "a -b") = "a b". Proof. reflexivity. Qed.
Example split_ex1 : Js.splitSpaces "" = [""]. Proof. reflexivity. Qed.
Example split_ex2 : Js.splitSpaces " a  bc " = [""; "a"; "bc"; ""]. Proof. reflexivity. Qed.
Example formatTag_ex1 : formatTag "" = "standard". Proof. reflexivity. Qed.
Example formatTag_ex2 : formatTag "Is it a THREAD? click" = "cta". Proof. reflexivity. Qed.
Example formatTag_ex3 : formatTag "A vs B?" = "question". Proof. reflexivity. Qed.
Example norm_ex5 : norm "Post - ID" = "post   id". Proof. reflexivity. Qed.
Example toNumber_ex1 : toNumber (Some "%") = Some (Finite 0). Proof. vm_compute. reflexivity. Qed.
Example toNumber_ex2 : toNumber (Some "1e400") = None. Proof. vm_compute. reflexivity. Qed.
Example suggest_ex1 :
  suggestedHeaderForField Key.postId ["Tweet"; "ID"; "Post Id"] = "Post Id".
Proof. vm_compute. reflexivity. Qed.
Example batches_ex1 :
  map length (batches BATCH_SIZE (replicate 101 (sampleRow None None None)))
  = [50; 50; 1].
Proof. vm_compute. reflexivity. Qed.
Example toNumber_ex3 :
  toNumber (Some "12.3%") = Some (Finite (3462142213541069 # 281474976710656)).
Proof. vm_compute. reflexivity. Qed.
Example toNumber_ex4 :
  toNumber (Some "9007199254740993") = Some (Finite 9007199254740992).
Proof. vm_compute. reflexivity. Qed.
Example mapCsvRow_ex1 :
  mapCsvRow_get [("Likes", "3")]
    (ImportMapping.mk "" "constructor" "" "" "" "" "" "" "" "") Key.text
  = Some "function Object() { [native code] }".
Proof. reflexivity. Qed.
Example parse_ex1 :
  SampleDate.parse "2024-02-30" = SampleDate.parse "2024-03-01".
Proof. vm_compute. reflexivity. Qed.
Example promiseAll_ex1 :
  map Post.x_post_id
    (posts (snd (saveImportedPosts SampleDate.parse (sampleData threeRows)
                   (set_faults [None; None; Some OtherValue] sampleWorld))))
  = ["3"].
Proof. vm_compute. reflexivity. Qed.
